(** * A model of xfer.py: manifest entries, the diff, the copy and the
      reconciliation of the transfer manifest

    The development follows the Python source function by function.
    Python values are embedded as follows.
    - A [str] is a [string], one [ascii] per code point.
    - A [Path] is identified with its [str()] form, a [string] in the
      normal form that pathlib keeps.
    - An [int] is a [Z]; a [float] is an IEEE double ([PrimFloat.float]).
    - A value decoded by [json.loads] is a [json].
    - A [dict] keyed by paths is a [gmap], a [set] of paths a [gset].
    - A call that may raise returns a [result]: [Ok v] or [Raise e]. *)

From Stdlib Require Import ZArith String Ascii List DecimalString PrimFloat SpecFloat FloatOps.
From stdpp Require Import base strings gmap list sorting.

Open Scope Z_scope.

(** ** Exceptions and the error monad *)

Inductive exn :=
| InvalidManifestEntry
| InconsistentManifest
| VerificationFailed
| KeyError
| ValueError
| TypeError
| OverflowError
| JSONDecodeError
| OSError.

Inductive result (A : Type) :=
| Ok (a : A)
| Raise (e : exn).

Arguments Ok {A} a.
Arguments Raise {A} e.

#[global] Instance result_ret : MRet result := fun A a => Ok a.

#[global] Instance result_bind : MBind result := fun A B f m =>
  match m with
  | Ok a => f a
  | Raise e => Raise e
  end.

(** ** Python values *)

Abbreviation Path := string.

#[warnings="-register-all"]
Inductive json :=
| JNull
| JBool (b : bool)
| JInt (z : Z)
| JFloat (f : float)
| JStr (s : string)
| JList (l : list json)
| JObject (kv : list (string * json)).

(** [float(z)] for an int: rounds to nearest-even, [OverflowError] when
    the int is too large for a double. *)
Definition float_of_int (z : Z) : result float :=
  let f := SF2Prim (binary_normalize 53 1024 z 0 false) in
  if is_infinity f then Raise OverflowError else Ok f.

(** Truth value of a decoded JSON value, as [or] and [if] test it. *)
Definition truthy (v : json) : bool :=
  match v with
  | JNull => false
  | JBool b => b
  | JInt z => negb (z =? 0)
  | JFloat f => negb (PrimFloat.eqb f 0%float)
  | JStr s => negb (String.eqb s EmptyString)
  | JList l => match l with [] => false | _ => true end
  | JObject kv => match kv with [] => false | _ => true end
  end.

(** [v -= k] for an int [k]. *)
Definition py_isub (v : json) (k : Z) : result json :=
  match v with
  | JInt z => Ok (JInt (z - k))
  | JBool b => Ok (JInt (Z.b2z b - k))
  | JFloat f => g ← float_of_int k; Ok (JFloat (PrimFloat.sub f g))
  | _ => Raise TypeError
  end.

(** ** The methods of [str] that the program calls *)

Module Str.

(** [c.isspace()] for a code point below 256. *)
Definition isspace (c : ascii) : bool :=
  let n := N_of_ascii c in
  ((9 <=? n) && (n <=? 13) || (28 <=? n) && (n <=? 32) || (n =? 133) || (n =? 160))%N.

Fixpoint lstrip (s : string) : string :=
  match s with
  | String c s' => if isspace c then lstrip s' else s
  | EmptyString => EmptyString
  end.

Definition rstrip (s : string) : string := String.rev (lstrip (String.rev s)).

Definition strip (s : string) : string := rstrip (lstrip s).

(** The longest prefix without white space, and what follows it. *)
Fixpoint word (s : string) : string * string :=
  match s with
  | String c s' =>
    if isspace c then (EmptyString, s)
    else let '(w, rest) := word s' in (String c w, rest)
  | EmptyString => (EmptyString, EmptyString)
  end.

(** [s.split(maxsplit=1)]. *)
Definition split_maxsplit_1 (s : string) : list string :=
  match lstrip s with
  | EmptyString => []
  | s =>
    let '(w, rest) := word s in
    match lstrip rest with
    | EmptyString => [w]
    | rest => [w; rest]
    end
  end.

Definition startswith (s p : string) : bool := String.prefix p s.

(** [s.replace(old, new)] for a pattern [old] of one character. *)
Fixpoint replace (old : ascii) (new s : string) : string :=
  match s with
  | String c s' =>
    if Ascii.eqb c old then new +:+ replace old new s'
    else String c (replace old new s')
  | EmptyString => EmptyString
  end.

(** [s.split(sep)] for a separator of one character. *)
Fixpoint split (sep : ascii) (s : string) : list string :=
  match s with
  | EmptyString => [EmptyString]
  | String c s' =>
    if Ascii.eqb c sep then EmptyString :: split sep s'
    else match split sep s' with
         | w :: ws => String c w :: ws
         | [] => [String c EmptyString]
         end
  end.

(** [sep.join(words)]. *)
Fixpoint join (sep : string) (words : list string) : string :=
  match words with
  | [] => EmptyString
  | [w] => w
  | w :: ws => w +:+ sep +:+ join sep ws
  end.

Definition islower (c : ascii) : bool :=
  (("a" <=? c) && (c <=? "z"))%char.

Definition isupper (c : ascii) : bool :=
  (("A" <=? c) && (c <=? "Z"))%char.

(** [c.upper()] for an ASCII character. *)
Definition upper_char (c : ascii) : ascii :=
  if islower c then ascii_of_N (N_of_ascii c - 32) else c.

Fixpoint upper (s : string) : string :=
  match s with
  | String c s' => String (upper_char c) (upper s')
  | EmptyString => EmptyString
  end.

(** [s.rfind(c)]: the index of the last occurrence, if any. *)
Fixpoint rfind (c : ascii) (s : string) : option nat :=
  match s with
  | EmptyString => None
  | String d s' =>
    match rfind c s' with
    | Some i => Some (S i)
    | None => if Ascii.eqb d c then Some 0%nat else None
    end
  end.

End Str.

(** ** pathlib, on the [str()] form of a POSIX path *)

Module pathlib.

(** The root of a path string and its components: empty components and
    [.] are dropped, exactly two leading slashes are kept. *)
Definition splitroot (s : string) : string * string :=
  match s with
  | String "/" (String "/" (String "/" _)) => ("/", s)
  | String "/" (String "/" rest) => ("//", rest)
  | String "/" rest => ("/", rest)
  | _ => ("", s)
  end%string.

Definition is_component (w : string) : bool :=
  negb (String.eqb w "") && negb (String.eqb w ".").

Definition parse_parts (s : string) : string * list string :=
  let '(root, rest) := splitroot s in
  (root, List.filter is_component (Str.split "/" rest)).

Definition format_parts (p : string * list string) : Path :=
  match p with
  | (EmptyString, []) => "."
  | (root, parts) => root +:+ Str.join "/" parts
  end.

(** [Path(s)]. *)
Definition Path_of_str (s : string) : Path := format_parts (parse_parts s).

(** [a / b]. *)
Definition joinpath (a b : Path) : Path :=
  let '(root_a, parts_a) := parse_parts a in
  let '(root_b, parts_b) := parse_parts b in
  match root_b with
  | EmptyString => format_parts (root_a, parts_a ++ parts_b)
  | _ => format_parts (root_b, parts_b)
  end.

(** [p.name]: the last component, empty when there is none. *)
Definition name (p : Path) : string :=
  List.last (snd (parse_parts p)) EmptyString.

(** [p.suffix]. *)
Definition suffix (p : Path) : string :=
  let n := name p in
  match Str.rfind "." n with
  | Some i =>
    if ((0 <? i) && (i <? String.length n - 1))%nat
    then String.substring i (String.length n - i) n
    else EmptyString
  | None => EmptyString
  end.

(** [p.with_suffix(s)] for a suffix [s] that starts with a dot and has
    no separator. *)
Definition with_suffix (p : Path) (s : string) : result Path :=
  let '(root, parts) := parse_parts p in
  let n := name p in
  if String.eqb n "" then Raise ValueError else
  let stem := String.substring 0 (String.length n - String.length (suffix p)) n in
  Ok (format_parts (root, List.removelast parts ++ [stem +:+ s])).

(** A component of a path: not empty, not [.], without separator. *)
Definition component (p : string) : Prop :=
  is_component p = true ∧ Str.split "/" p = [p].

(** The list that orders paths: the root, then the components. *)
Definition cparts (p : Path) : list string :=
  let '(root, parts) := parse_parts p in
  match root with
  | EmptyString => parts
  | _ => root :: parts
  end.

Fixpoint parts_leb (a b : list string) : bool :=
  match a, b with
  | [], _ => true
  | _ :: _, [] => false
  | x :: a', y :: b' =>
    match String.compare x y with
    | Lt => true
    | Gt => false
    | Eq => parts_leb a' b'
    end
  end.

Definition le (p q : Path) : Prop := parts_leb (cparts p) (cparts q) = true.

#[global] Instance le_dec : RelDecision le.
Proof. intros p q. unfold le. apply _. Defined.

(** [sorted(names)] for a set of paths. *)
Definition sorted (names : gset Path) : list Path :=
  merge_sort le (elements names).

End pathlib.

(** ** Manifest entries

    One constructor per concrete class.  [Name], [Size] and [Timestamp]
    coerce their field on construction ([Path], [int], [float]); the
    other fields hold whatever value was given. *)

Inductive TransferDirection := PULL | PUSH.

Definition direction_value (d : TransferDirection) : string :=
  match d with
  | PULL => "pull"
  | PUSH => "push"
  end.

Record SyncRequestInfo := {
  direction : json;
  remote_prefix : Path;
  files_at_source : json;
  files_to_transfer : json;
  bytes_to_transfer : json;
  files_to_verify : json;
  bytes_to_verify : json;
  sr_timestamp : float
}.

Inductive ManifestEntry :=
| TransferRequest (name : Path) (size : Z)
| VerifyRequest (name : Path) (size : Z)
| TransferVerified (name : Path) (size : Z) (digest : json) (timestamp : float)
| SyncRequest (info : SyncRequestInfo)
| SyncDone (timestamp : float)
| File (name : Path) (size : Z)
| Metadata (name : Path) (size : Z) (digest : json).

(** ** Serializing and parsing manifest entries *)

Module Manifest.

(** The subclasses of [ManifestEntry], abstract ones included. *)
Inductive class :=
| CName | CSize | CDigest | CTimestamp
| CTransferRequest | CVerifyRequest | CTransferVerified
| CSyncRequest | CSyncDone | CFile | CMetadata.

Definition class_name (c : class) : string :=
  match c with
  | CName => "Name"
  | CSize => "Size"
  | CDigest => "Digest"
  | CTimestamp => "Timestamp"
  | CTransferRequest => "TransferRequest"
  | CVerifyRequest => "VerifyRequest"
  | CTransferVerified => "TransferVerified"
  | CSyncRequest => "SyncRequest"
  | CSyncDone => "SyncDone"
  | CFile => "File"
  | CMetadata => "Metadata"
  end.

(** [descendants(ManifestEntry)], each class once. *)
Definition descendants : list class :=
  [CName; CDigest; CTransferVerified; CMetadata; CTransferRequest;
   CVerifyRequest; CFile; CSize; CTimestamp; CSyncRequest; CSyncDone].

Definition class_of (e : ManifestEntry) : class :=
  match e with
  | TransferRequest _ _ => CTransferRequest
  | VerifyRequest _ _ => CVerifyRequest
  | TransferVerified _ _ _ _ => CTransferVerified
  | SyncRequest _ => CSyncRequest
  | SyncDone _ => CSyncDone
  | File _ _ => CFile
  | Metadata _ _ _ => CMetadata
  end.

(** A position where a match of [RE_SPLIT_CAMEL] may end: after [a],
    before [b], with [rest] after [b]. *)
Definition camel_boundary (a b : ascii) (rest : string) : bool :=
  Str.islower a && Str.isupper b
  || Str.isupper a && Str.isupper b
     && match rest with
        | String c _ => Str.islower c
        | EmptyString => false
        end.

(** The matches of [RE_SPLIT_CAMEL.finditer] from the character after
    [a] on: the rest of the match that holds [a], then the later ones.
    The text is a class name, so it holds no line break, the one
    character that the [.] of the pattern does not match. *)
Fixpoint finditer_from (a : ascii) (s : string) : string * list string :=
  match s with
  | EmptyString => (EmptyString, [])
  | String b rest =>
    let '(w, ws) := finditer_from b rest in
    if camel_boundary a b rest then (EmptyString, String b w :: ws)
    else (String b w, ws)
  end.

Definition finditer (text : string) : list string :=
  match text with
  | EmptyString => []
  | String a rest => let '(w, ws) := finditer_from a rest in String a w :: ws
  end.

Definition camel_to_upper_snake (text : string) : string :=
  Str.join "_" (List.map Str.upper (finditer text)).

Definition ENTRY_TYPE_TO_CLASS : list (string * class) :=
  List.map (λ cls, (camel_to_upper_snake (class_name cls), cls)) descendants.

Fixpoint assoc {A} (k : string) (l : list (string * A)) : option A :=
  match l with
  | [] => None
  | (k', v) :: l' => if String.eqb k k' then Some v else assoc k l'
  end.

(** The property [type]. *)
Definition type (e : ManifestEntry) : string :=
  camel_to_upper_snake (class_name (class_of e)).

(** [to_json]: [_info] with paths turned into strings. *)
Definition to_json (e : ManifestEntry) : json :=
  match e with
  | TransferRequest name size
  | VerifyRequest name size
  | File name size =>
    JObject [("name", JStr name); ("size", JInt size)]
  | TransferVerified name size digest timestamp =>
    JObject [("name", JStr name); ("size", JInt size); ("digest", digest);
             ("timestamp", JFloat timestamp)]
  | SyncRequest r =>
    JObject [("direction", direction r);
             ("remote_prefix", JStr (remote_prefix r));
             ("files_at_source", files_at_source r);
             ("files_to_transfer", files_to_transfer r);
             ("bytes_to_transfer", bytes_to_transfer r);
             ("files_to_verify", files_to_verify r);
             ("bytes_to_verify", bytes_to_verify r);
             ("timestamp", JFloat (sr_timestamp r))]
  | SyncDone timestamp => JObject [("timestamp", JFloat timestamp)]
  | Metadata name size digest =>
    JObject [("name", JStr name); ("size", JInt size); ("digest", digest)]
  end.

(** [int(f)] for a float: truncation towards zero. *)
Definition int_of_float (f : float) : result Z :=
  match Prim2SF f with
  | S754_zero _ => Ok 0
  | S754_infinity _ => Raise OverflowError
  | S754_nan => Raise ValueError
  | S754_finite sign m e =>
    let magnitude := Z.shiftl (Z.pos m) e in
    Ok (if sign then - magnitude else magnitude)
  end.

Section Parsing.

(** [json.dumps] and [json.loads] ([None] for a [JSONDecodeError]), and
    the conversions [int(s)] and [float(s)] of a string, belong to the
    Python library: the manifest code is stated over them. *)
Variable json_dumps : json → string.
Variable json_loads : string → option json.
Variable int_of_str : string → result Z.
Variable float_of_str : string → result float.

(** [ManifestEntry.__str__] and [to_entry]. *)
Definition to_str (e : ManifestEntry) : string :=
  type e +:+ " " +:+ json_dumps (to_json e).

Definition to_entry (e : ManifestEntry) : string :=
  to_str e +:+ String "010" EmptyString.

(** [int(v)], [float(v)] and [Path(v)] for a decoded value. *)
Definition py_int (v : json) : result Z :=
  match v with
  | JInt z => Ok z
  | JBool b => Ok (Z.b2z b)
  | JFloat f => int_of_float f
  | JStr s => int_of_str s
  | _ => Raise TypeError
  end.

Definition py_float (v : json) : result float :=
  match v with
  | JFloat f => Ok f
  | JInt z => float_of_int z
  | JBool b => Ok (if b then 1%float else 0%float)
  | JStr s => float_of_str s
  | _ => Raise TypeError
  end.

Definition py_Path (v : json) : result Path :=
  match v with
  | JStr s => Ok (pathlib.Path_of_str s)
  | _ => Raise TypeError
  end.

(** [ManifestEntry.__init__]: the check of the given keys, then
    [{k: info[k] for k in self.keys}], as the values in key order. *)
Definition init_info (keys : list string) (info : list (string * json))
    : result (list json) :=
  let expected_keys : gset string := list_to_set keys in
  let given_keys : gset string := list_to_set (info.*1) in
  if bool_decide (given_keys ⊂ expected_keys) then Raise InvalidManifestEntry else
  (fix pick (ks : list string) : result (list json) :=
     match ks with
     | [] => Ok []
     | k :: ks' =>
       match assoc k info with
       | None => Raise KeyError
       | Some v => vs ← pick ks'; Ok (v :: vs)
       end
     end) keys.

(** [cls] called with [info] as keyword arguments: the constructors run
    from [ManifestEntry.__init__]
    outwards along the method resolution order, so [timestamp] is
    converted before [size], and [size] before [name]. *)
Definition instantiate (cls : class) (info : list (string * json))
    : result ManifestEntry :=
  if bool_decide ("self" ∈ info.*1) then Raise TypeError else
  let name_size (mk : Path → Z → ManifestEntry) :=
    vs ← init_info ["name"; "size"] info;
    match vs with
    | [n; s] => size ← py_int s; name ← py_Path n; Ok (mk name size)
    | _ => Raise KeyError
    end in
  match cls with
  | CName | CSize | CDigest | CTimestamp => Raise TypeError
  | CTransferRequest => name_size TransferRequest
  | CVerifyRequest => name_size VerifyRequest
  | CFile => name_size File
  | CMetadata =>
    vs ← init_info ["name"; "size"; "digest"] info;
    match vs with
    | [n; s; d] => size ← py_int s; name ← py_Path n; Ok (Metadata name size d)
    | _ => Raise KeyError
    end
  | CTransferVerified =>
    vs ← init_info ["name"; "size"; "digest"; "timestamp"] info;
    match vs with
    | [n; s; d; t] =>
      timestamp ← py_float t; size ← py_int s; name ← py_Path n;
      Ok (TransferVerified name size d timestamp)
    | _ => Raise KeyError
    end
  | CSyncRequest =>
    vs ← init_info ["direction"; "remote_prefix"; "files_at_source";
                    "files_to_transfer"; "bytes_to_transfer";
                    "files_to_verify"; "bytes_to_verify"; "timestamp"] info;
    match vs with
    | [d; rp; fas; ftt; btt; ftv; btv; t] =>
      timestamp ← py_float t; prefix ← py_Path rp;
      Ok (SyncRequest {| direction := d; remote_prefix := prefix;
                         files_at_source := fas;
                         files_to_transfer := ftt; bytes_to_transfer := btt;
                         files_to_verify := ftv; bytes_to_verify := btv;
                         sr_timestamp := timestamp |})
    | _ => Raise KeyError
    end
  | CSyncDone =>
    vs ← init_info ["timestamp"] info;
    match vs with
    | [t] => timestamp ← py_float t; Ok (SyncDone timestamp)
    | _ => Raise KeyError
    end
  end.

Definition parse_manifest_entry (entry : string) : result ManifestEntry :=
  match Str.split_maxsplit_1 (Str.strip entry) with
  | [type; info] =>
    match assoc type ENTRY_TYPE_TO_CLASS with
    | None => Raise KeyError
    | Some cls =>
      match json_loads info with
      | None => Raise JSONDecodeError
      | Some (JObject kv) => instantiate cls kv
      | Some _ => Raise TypeError
      end
    end
  | _ => Raise ValueError
  end.

(** [read_manifest], from line number [n] on: the items the generator
    yields, ended by the exception of the first line that fails. *)
Fixpoint read_manifest_from (n : nat) (lines : list string)
    : list (result (ManifestEntry * nat)) :=
  match lines with
  | [] => []
  | line :: rest =>
    let line := Str.strip line in
    if String.eqb line "" || Str.startswith line "#"
    then read_manifest_from (S n) rest
    else match parse_manifest_entry line with
         | Ok e => Ok (e, n) :: read_manifest_from (S n) rest
         | Raise x => [Raise x]
         end
  end.

Definition read_manifest (lines : list string) : list (result (ManifestEntry * nat)) :=
  read_manifest_from 1 lines.

End Parsing.

(** Entries as the constructors leave them: paths in pathlib's normal
    form. *)
Definition normal (p : Path) : Prop := pathlib.Path_of_str p = p.

Definition well_formed (e : ManifestEntry) : Prop :=
  match e with
  | TransferRequest name _ | VerifyRequest name _ | File name _
  | TransferVerified name _ _ _ | Metadata name _ _ => normal name
  | SyncRequest r => normal (remote_prefix r)
  | SyncDone _ => True
  end.

(** ** Equality of entries

    [==] on the values that an entry holds, for values held by distinct
    objects: CPython's comparison of two dicts and of two lists takes
    an object as equal to itself before it asks [==], which only adds
    equalities to the ones below. *)

(** [f == z] for a float and an int: the comparison is exact. *)
Definition float_eq_int (f : float) (z : Z) : bool :=
  match Prim2SF f with
  | S754_zero _ => z =? 0
  | S754_finite sign m e =>
    let v := if sign then - Z.pos m else Z.pos m in
    if 0 <=? e then z =? v * 2 ^ e else z * 2 ^ (- e) =? v
  | S754_infinity _ | S754_nan => false
  end.

Section Pointwise.

Context {A : Type}.
Variable f : A → A → bool.

(** Two lists of the same length, equal element by element. *)
Fixpoint all2 (l m : list A) : bool :=
  match l, m with
  | [], [] => true
  | x :: l', y :: m' => f x y && all2 l' m'
  | _, _ => false
  end.

(** Every key of [members], at its first binding, is bound by [lookup]
    to an equal value; [seen] holds the keys already met. *)
Variable lookup : string → option A.

Fixpoint each_bound (members : list (string * A)) (seen : list string) : bool :=
  match members with
  | [] => true
  | (k, v) :: members' =>
    (if bool_decide (k ∈ seen) then true
     else match lookup k with
          | Some v' => f v v'
          | None => false
          end)
    && each_bound members' (k :: seen)
  end.

End Pointwise.

(** [a == b] for two decoded JSON values: [bool] is a subclass of [int],
    numbers compare by value across [int] and [float], a dict compares
    by its keys, whatever their order. *)
Fixpoint py_eq (a b : json) {struct a} : bool :=
  match a, b with
  | JNull, JNull => true
  | JBool x, JBool y => Bool.eqb x y
  | JBool x, JInt z => Z.b2z x =? z
  | JBool x, JFloat g => float_eq_int g (Z.b2z x)
  | JInt z, JBool y => z =? Z.b2z y
  | JInt x, JInt y => x =? y
  | JInt z, JFloat g => float_eq_int g z
  | JFloat g, JBool y => float_eq_int g (Z.b2z y)
  | JFloat g, JInt z => float_eq_int g z
  | JFloat g, JFloat h => PrimFloat.eqb g h
  | JStr s, JStr t => String.eqb s t
  | JList l, JList m => all2 py_eq l m
  | JObject kv, JObject kv' =>
    (length (remove_dups kv.*1) =? length (remove_dups kv'.*1))%nat
    && each_bound py_eq (λ k, assoc k kv') kv []
  | _, _ => false
  end.

(** [p == q] for two paths: pathlib compares the parts. *)
Definition path_eq (p q : Path) : bool :=
  bool_decide (pathlib.cparts p = pathlib.cparts q).

(** [ManifestEntry.__eq__] on two entries of concrete classes: no
    concrete class is a subclass of another, so entries of two classes
    are not equal; entries of one class compare their [_info]. *)
Definition entry_eq (e1 e2 : ManifestEntry) : bool :=
  match e1, e2 with
  | TransferRequest n1 s1, TransferRequest n2 s2
  | VerifyRequest n1 s1, VerifyRequest n2 s2
  | File n1 s1, File n2 s2 => path_eq n1 n2 && (s1 =? s2)
  | TransferVerified n1 s1 d1 t1, TransferVerified n2 s2 d2 t2 =>
    path_eq n1 n2 && (s1 =? s2) && py_eq d1 d2 && PrimFloat.eqb t1 t2
  | Metadata n1 s1 d1, Metadata n2 s2 d2 =>
    path_eq n1 n2 && (s1 =? s2) && py_eq d1 d2
  | SyncRequest r1, SyncRequest r2 =>
    py_eq (direction r1) (direction r2)
    && path_eq (remote_prefix r1) (remote_prefix r2)
    && py_eq (files_at_source r1) (files_at_source r2)
    && py_eq (files_to_transfer r1) (files_to_transfer r2)
    && py_eq (bytes_to_transfer r1) (bytes_to_transfer r2)
    && py_eq (files_to_verify r1) (files_to_verify r2)
    && py_eq (bytes_to_verify r1) (bytes_to_verify r2)
    && PrimFloat.eqb (sr_timestamp r1) (sr_timestamp r2)
  | SyncDone t1, SyncDone t2 => PrimFloat.eqb t1 t2
  | _, _ => false
  end.

(** A decoded JSON value that holds no NaN. *)
Fixpoint nan_free_json (v : json) : bool :=
  match v with
  | JFloat g => negb (PrimFloat.is_nan g)
  | JList l => forallb nan_free_json l
  | JObject kv => forallb (λ member, nan_free_json member.2) kv
  | _ => true
  end.

(** An entry none of whose fields holds a NaN. *)
Definition nan_free (e : ManifestEntry) : bool :=
  match e with
  | TransferRequest _ _ | VerifyRequest _ _ | File _ _ => true
  | TransferVerified _ _ d t => nan_free_json d && negb (PrimFloat.is_nan t)
  | Metadata _ _ d => nan_free_json d
  | SyncRequest r =>
    nan_free_json (direction r)
    && nan_free_json (files_at_source r)
    && nan_free_json (files_to_transfer r)
    && nan_free_json (bytes_to_transfer r)
    && nan_free_json (files_to_verify r)
    && nan_free_json (bytes_to_verify r)
    && negb (PrimFloat.is_nan (sr_timestamp r))
  | SyncDone t => negb (PrimFloat.is_nan t)
  end.

End Manifest.

(** ** analyze: the replay of the transfer manifest *)

Module Reconcile.

(** The dict [sync_request]: the three collections it starts with, and
    the keys of the last [SyncRequest] once [update(entry._info)] ran. *)
Record SyncState := {
  files : gmap Path Z;
  transfer_files : gset Path;
  verified_files : gmap Path Z;
  request : option SyncRequestInfo
}.

Definition fresh_sync_request : SyncState :=
  {| files := ∅; transfer_files := ∅; verified_files := ∅; request := None |}.

Record Mismatch := {
  expected : Z;
  got : Z;
  line_number : nat
}.

(** The local variables of [analyze] during the loop. *)
Record Replay := {
  sync_request_start : option nat;
  sync_request : SyncState;
  sync_count : nat;
  mismatched_filesizes : gmap Path Mismatch
}.

Definition initial : Replay :=
  {| sync_request_start := None;
     sync_request := fresh_sync_request;
     sync_count := 0;
     mismatched_filesizes := ∅ |}.

(** [sync_request[key]] for a key that only a [SyncRequest] provides. *)
Definition counter (key : SyncRequestInfo → json) (s : SyncState) : result json :=
  match request s with
  | Some r => Ok (key r)
  | None => Raise KeyError
  end.

(** The [or] chain tested at [SyncDone] and at the end of the log. *)
Definition work_remaining (s : SyncState) : result bool :=
  ftv ← counter files_to_verify s;
  if truthy ftv then Ok true else
  btv ← counter bytes_to_verify s;
  if truthy btv then Ok true else
  if negb (bool_decide (files s = ∅)) then Ok true else
  ftt ← counter files_to_transfer s;
  if truthy ftt then Ok true else
  btt ← counter bytes_to_transfer s;
  Ok (truthy btt).

Definition set_files (f : gmap Path Z) (s : SyncState) : SyncState :=
  {| files := f; transfer_files := transfer_files s;
     verified_files := verified_files s; request := request s |}.

Definition set_transfer_files (t : gset Path) (s : SyncState) : SyncState :=
  {| files := files s; transfer_files := t;
     verified_files := verified_files s; request := request s |}.

Definition set_verified_files (v : gmap Path Z) (s : SyncState) : SyncState :=
  {| files := files s; transfer_files := transfer_files s;
     verified_files := v; request := request s |}.

Definition set_request (r : SyncRequestInfo) (s : SyncState) : SyncState :=
  {| files := files s; transfer_files := transfer_files s;
     verified_files := verified_files s; request := Some r |}.

Definition set_files_to_transfer (v : json) (r : SyncRequestInfo) : SyncRequestInfo :=
  {| direction := direction r; remote_prefix := remote_prefix r;
     files_at_source := files_at_source r;
     files_to_transfer := v; bytes_to_transfer := bytes_to_transfer r;
     files_to_verify := files_to_verify r; bytes_to_verify := bytes_to_verify r;
     sr_timestamp := sr_timestamp r |}.

Definition set_bytes_to_transfer (v : json) (r : SyncRequestInfo) : SyncRequestInfo :=
  {| direction := direction r; remote_prefix := remote_prefix r;
     files_at_source := files_at_source r;
     files_to_transfer := files_to_transfer r; bytes_to_transfer := v;
     files_to_verify := files_to_verify r; bytes_to_verify := bytes_to_verify r;
     sr_timestamp := sr_timestamp r |}.

Definition set_files_to_verify (v : json) (r : SyncRequestInfo) : SyncRequestInfo :=
  {| direction := direction r; remote_prefix := remote_prefix r;
     files_at_source := files_at_source r;
     files_to_transfer := files_to_transfer r; bytes_to_transfer := bytes_to_transfer r;
     files_to_verify := v; bytes_to_verify := bytes_to_verify r;
     sr_timestamp := sr_timestamp r |}.

Definition set_bytes_to_verify (v : json) (r : SyncRequestInfo) : SyncRequestInfo :=
  {| direction := direction r; remote_prefix := remote_prefix r;
     files_at_source := files_at_source r;
     files_to_transfer := files_to_transfer r; bytes_to_transfer := bytes_to_transfer r;
     files_to_verify := files_to_verify r; bytes_to_verify := v;
     sr_timestamp := sr_timestamp r |}.

(** [sync_request[key] -= k]. *)
Definition decrement (key : SyncRequestInfo → json)
    (set : json → SyncRequestInfo → SyncRequestInfo)
    (k : Z) (s : SyncState) : result SyncState :=
  match request s with
  | None => Raise KeyError
  | Some r => v ← py_isub (key r) k; Ok (set_request (set v r) s)
  end.

(** The branch for [TransferRequest] and [VerifyRequest]. *)
Definition on_request (is_transfer : bool) (fname : Path) (size : Z)
    (a : Replay) : result Replay :=
  match sync_request_start a with
  | None => Raise InconsistentManifest
  | Some _ =>
    let s := sync_request a in
    if bool_decide (verified_files s !! fname = Some size) then Ok a else
    let s := set_files (<[fname := size]> (files s)) s in
    let s := if is_transfer
             then set_transfer_files ({[fname]} ∪ transfer_files s) s
             else s in
    Ok {| sync_request_start := sync_request_start a;
          sync_request := s;
          sync_count := sync_count a;
          mismatched_filesizes := mismatched_filesizes a |}
  end.

(** The branch for [TransferVerified]; [st_size fname] is the size of
    [local_dir / fname] on disk, [None] when [stat] fails.  [OSError]
    stands for the exception of [stat], whichever it is: a missing file
    gives an [OSError], a name that holds a NUL character a
    [ValueError]. *)
Definition on_verified (st_size : Path → option Z) (fname : Path) (size : Z)
    (line : nat) (a : Replay) : result Replay :=
  match sync_request_start a with
  | None => Raise InconsistentManifest
  | Some _ =>
    let s := sync_request a in
    if bool_decide (verified_files s !! fname = Some size) then Ok a else
    match files s !! fname with
    | None => Raise InconsistentManifest
    | Some anticipated =>
      if negb (anticipated =? size) then Raise InconsistentManifest else
      match st_size fname with
      | None => Raise OSError
      | Some local_size =>
        let mm :=
          if negb (local_size =? size)
          then <[fname := {| expected := size; got := local_size;
                             line_number := line |}]> (mismatched_filesizes a)
          else delete fname (mismatched_filesizes a) in
        s ← (if bool_decide (fname ∈ transfer_files s)
             then s ← decrement files_to_transfer set_files_to_transfer 1 s;
                  decrement bytes_to_transfer set_bytes_to_transfer size s
             else s ← decrement files_to_verify set_files_to_verify 1 s;
                  decrement bytes_to_verify set_bytes_to_verify size s);
        let s := set_files (delete fname (files s)) s in
        let s := set_verified_files (<[fname := size]> (verified_files s)) s in
        Ok {| sync_request_start := sync_request_start a;
              sync_request := s;
              sync_count := sync_count a;
              mismatched_filesizes := mm |}
      end
    end
  end.

(** The branch for [SyncDone]. *)
Definition on_done (a : Replay) : result Replay :=
  match sync_request_start a with
  | None => Raise InconsistentManifest
  | Some _ =>
    w ← work_remaining (sync_request a);
    if (w : bool) then Raise InconsistentManifest else
    Ok {| sync_request_start := None;
          sync_request := fresh_sync_request;
          sync_count := sync_count a;
          mismatched_filesizes := mismatched_filesizes a |}
  end.

(** One iteration of the loop over [read_manifest]. *)
Definition analyze_step (st_size : Path → option Z) (a : Replay)
    (entry : ManifestEntry) (line : nat) : result Replay :=
  match entry with
  | SyncRequest info =>
    Ok {| sync_request_start := Some line;
          sync_request := set_request info (sync_request a);
          sync_count := S (sync_count a);
          mismatched_filesizes := mismatched_filesizes a |}
  | TransferRequest fname size => on_request true fname size a
  | VerifyRequest fname size => on_request false fname size a
  | TransferVerified fname size _ _ => on_verified st_size fname size line a
  | SyncDone _ => on_done a
  | File _ _ | Metadata _ _ _ => Ok a
  end.

(** The loop.  [read_manifest] is a generator: an item is either an
    entry with its line number, or the exception that parsing the line
    raised, which ends the loop when it is reached. *)
Fixpoint analyze_loop (st_size : Path → option Z)
    (log : list (result (ManifestEntry * nat))) (a : Replay) : result Replay :=
  match log with
  | [] => Ok a
  | Raise e :: _ => Raise e
  | Ok (entry, line) :: rest =>
    a' ← analyze_step st_size a entry line;
    analyze_loop st_size rest a'
  end.

(** What [analyze] logs at level error and prints. *)
Inductive Message :=
| MismatchedFileSizes (m : gmap Path Mismatch)
| SyncNotDone
| FilesToTransfer (files bytes : json)
| FilesToVerify (files bytes : json)
| InconsistentFiles (files : gmap Path Z)
| SynchronizationDone
| AllSynchronizationsDone.

Record Outcome := {
  raised : option exn;
  appended : list ManifestEntry;
  messages : list Message
}.

Definition fail (e : exn) (msgs : list Message) : Outcome :=
  {| raised := Some e; appended := []; messages := msgs |}.

(** The code after the loop. *)
Definition conclude (now : float) (a : Replay) : Outcome :=
  if negb (bool_decide (mismatched_filesizes a = ∅)) then
    fail InconsistentManifest [MismatchedFileSizes (mismatched_filesizes a)]
  else
  match sync_request_start a with
  | Some _ =>
    match work_remaining (sync_request a), request (sync_request a) with
    | Raise e, _ => fail e []
    | Ok true, Some r =>
      fail InconsistentManifest
        [SyncNotDone;
         FilesToTransfer (files_to_transfer r) (bytes_to_transfer r);
         FilesToVerify (files_to_verify r) (bytes_to_verify r);
         InconsistentFiles (files (sync_request a))]
    | Ok true, None => fail KeyError [SyncNotDone]
    | Ok false, _ =>
      {| raised := None; appended := [SyncDone now];
         messages := [SynchronizationDone] |}
    end
  | None =>
    if (0 <? sync_count a)%nat
    then {| raised := None; appended := []; messages := [AllSynchronizationsDone] |}
    else fail InconsistentManifest []
  end.

(** [analyze(transfer_manifest_path)]: [log] is what [read_manifest]
    yields for the manifest, [now] the value of [timestamp()]. *)
Definition analyze (st_size : Path → option Z) (now : float)
    (log : list (result (ManifestEntry * nat))) : Outcome :=
  match analyze_loop st_size log initial with
  | Raise e => fail e []
  | Ok a => conclude now a
  end.

End Reconcile.

(** ** write_inner_dag: the diff of the two inventories *)

Module Diff.

Definition TRANSFER_MANIFEST_FILE_NAME : Path := "transfer_manifest.txt".

(** [d.get(key, default)]. *)
Definition get (d : gmap Path Z) (key : Path) (default : Z) : Z :=
  match d !! key with
  | Some v => v
  | None => default
  end.

(** [src_files, dest_files], chosen by the direction. *)
Definition src_dest (direction : TransferDirection)
    (remote_files local_files : gmap Path Z) : gmap Path Z * gmap Path Z :=
  match direction with
  | PULL => (remote_files, local_files)
  | PUSH => (local_files, remote_files)
  end.

Definition files_to_transfer (src_files dest_files : gmap Path Z) : gset Path :=
  dom (filter (λ kv, kv.2 ≠ get dest_files kv.1 (-1)) src_files).

(** The loop over [read_manifest] that collects the verified names. *)
Fixpoint files_verified (log : list (result (ManifestEntry * nat)))
    (acc : gset Path) : result (gset Path) :=
  match log with
  | [] => Ok acc
  | Raise e :: _ => Raise e
  | Ok (TransferVerified name _ _ _, _) :: rest =>
    files_verified rest ({[name]} ∪ acc)
  | Ok _ :: rest => files_verified rest acc
  end.

(** The loop over [remote_files] that collects the names to verify. *)
Definition files_to_verify (remote_files : gmap Path Z)
    (to_transfer verified : gset Path) : gset Path :=
  filter (λ fname, (fname ∉ to_transfer) ∧ (fname ∉ verified)) (dom remote_files).

(** [sum(src_files[fname] for fname in names)]. *)
Fixpoint sum_sizes (src_files : gmap Path Z) (names : list Path) : result Z :=
  match names with
  | [] => Ok 0
  | fname :: rest =>
    match src_files !! fname with
    | None => Raise KeyError
    | Some size => total ← sum_sizes src_files rest; Ok (size + total)
    end
  end.

(** [[cls(name=fname, size=src_files[fname]) for fname in names]]. *)
Fixpoint requests (mk : Path → Z → ManifestEntry) (src_files : gmap Path Z)
    (names : list Path) : result (list ManifestEntry) :=
  match names with
  | [] => Ok []
  | fname :: rest =>
    match src_files !! fname with
    | None => Raise KeyError
    | Some size => es ← requests mk src_files rest; Ok (mk fname size :: es)
    end
  end.

Definition flatten_path (path : Path) : string :=
  Str.replace " " "_SPACE_" (Str.replace "/" "_SLASH_" path).

Record cmd_info := {
  remote_file : Path;
  local_file : Path;
  local_prefix : Path;
  flattened_name : string;
  transfer_manifest : Path
}.

Definition make_cmd_info (files : list Path)
    (remote_prefix local_prefix transfer_manifest_path : Path) : list cmd_info :=
  List.map (λ fname,
    {| remote_file := pathlib.joinpath remote_prefix fname;
       local_file := pathlib.joinpath local_prefix fname;
       local_prefix := local_prefix;
       flattened_name := flatten_path fname;
       transfer_manifest := transfer_manifest_path |}) files.

(** The metadata file of a work item: [$(flattened_name).metadata] in
    the submit description, the same name in [main]. *)
Definition metadata_path (info : cmd_info) : Path :=
  pathlib.Path_of_str (flattened_name info +:+ ".metadata").

(** The two sets of the diff, before they are sorted. *)
Definition diff (direction : TransferDirection)
    (remote_files local_files : gmap Path Z)
    (log : list (result (ManifestEntry * nat))) : result (gset Path * gset Path) :=
  let '(src_files, dest_files) := src_dest direction remote_files local_files in
  let to_transfer := files_to_transfer src_files dest_files in
  verified ← files_verified log ∅;
  Ok (to_transfer, files_to_verify remote_files to_transfer verified).

Record Written := {
  transfer_cmd_info : list cmd_info;
  verify_cmd_info : list cmd_info;
  appended : list ManifestEntry
}.

(** [write_inner_dag]: [remote_files] is the parsed remote manifest,
    [scanned] the parsed local one, [log] what [read_manifest] yields
    for the transfer manifest, [now] the value of [timestamp()].  The
    calls that write files between the diff and the sums
    ([ensure_local_dirs_exist], [write_cmd_info], [dags.write_dag]) are
    left out: they may raise, so a value returned here is what the code
    returns whenever it returns. *)
Definition write_inner_dag (direction : TransferDirection)
    (remote_prefix local_prefix : Path)
    (remote_files scanned : gmap Path Z)
    (log : list (result (ManifestEntry * nat))) (now : float) : result Written :=
  let transfer_manifest_path :=
    pathlib.joinpath local_prefix TRANSFER_MANIFEST_FILE_NAME in
  let local_files := delete TRANSFER_MANIFEST_FILE_NAME scanned in
  let '(src_files, dest_files) := src_dest direction remote_files local_files in
  sets ← diff direction remote_files local_files log;
  let to_transfer := pathlib.sorted sets.1 in
  let to_verify := pathlib.sorted sets.2 in
  let transfer_cmd_info :=
    make_cmd_info to_transfer remote_prefix local_prefix transfer_manifest_path in
  let verify_cmd_info :=
    make_cmd_info to_verify remote_prefix local_prefix transfer_manifest_path in
  bytes_to_transfer ← sum_sizes src_files to_transfer;
  bytes_to_verify ← sum_sizes src_files to_verify;
  let sync_request :=
    SyncRequest
      (Build_SyncRequestInfo
         (JStr (direction_value direction))
         remote_prefix
         (JInt (Z.of_nat (size src_files)))
         (JInt (Z.of_nat (length to_transfer)))
         (JInt bytes_to_transfer)
         (JInt (Z.of_nat (length to_verify)))
         (JInt bytes_to_verify)
         now) in
  transfers ← requests TransferRequest src_files to_transfer;
  verifies ← requests VerifyRequest src_files to_verify;
  Ok {| transfer_cmd_info := transfer_cmd_info;
        verify_cmd_info := verify_cmd_info;
        appended := sync_request :: transfers ++ verifies |}.

End Diff.

(** ** copy_with_hash: the copy through a temporary file *)

Module Copy.

Definition MB : nat := 2 ^ 20.

(** What the file system calls of [copy_with_hash] do to the files. *)
Inductive op :=
| OpenWrite (p : Path)
| Write (p : Path) (buf : string)
| Fsync (p : Path)
| CopyStat (src dst : Path)
| Rename (src dst : Path).

Definition apply (fs : gmap Path string) (o : op) : gmap Path string :=
  match o with
  | OpenWrite p => <[p := ""%string]> fs
  | Write p buf => alter (λ content, content +:+ buf) p fs
  | Fsync _ | CopyStat _ _ => fs
  | Rename a b =>
    match fs !! a with
    | Some content => <[b := content]> (delete a fs)
    | None => fs
    end
  end.

Definition run (ops : list op) (fs : gmap Path string) : gmap Path string :=
  foldl apply fs ops.

(** The buffers that the successive [src.read(MB)] return before the
    empty one. *)
Fixpoint blocks (fuel : nat) (data : string) : list string :=
  match fuel with
  | O => []
  | S fuel' =>
    match String.substring 0 MB data with
    | EmptyString => []
    | buf => buf :: blocks fuel' (String.substring MB (String.length data - MB) data)
    end
  end.

Record Copied := {
  ops : list op;
  hashed : string;
  byte_count : nat
}.

(** [copy_with_hash(src_path, dest_path)] on the files [fs]: the calls
    it makes in order, the bytes fed to the hasher, the byte count. *)
Definition copy_with_hash (src_path dest_path : Path) (fs : gmap Path string)
    : result Copied :=
  tmp_path ← pathlib.with_suffix dest_path ".tmp";
  match fs !! src_path with
  | None => Raise OSError
  | Some _ =>
    let data := default ""%string (apply fs (OpenWrite tmp_path) !! src_path) in
    let bufs := blocks (String.length data) data in
    Ok {| ops := OpenWrite tmp_path :: List.map (Write tmp_path) bufs
                 ++ [Fsync tmp_path; CopyStat src_path tmp_path;
                     Rename tmp_path dest_path];
          hashed := Str.join "" bufs;
          byte_count := sum_list (List.map String.length bufs) |}
  end.

(** [push_file(path)]: the file staged in the scratch directory is
    copied onto [path]. *)
Definition push_file (scratch_dir path : Path) (fs : gmap Path string)
    : result Copied :=
  copy_with_hash (pathlib.joinpath scratch_dir (pathlib.name path)) path fs.

(** The files as they are when the copy is interrupted after [k] of its
    calls. *)
Definition interrupted (c : Copied) (k : nat) (fs : gmap Path string)
    : gmap Path string :=
  run (take k (ops c)) fs.

(** A call that touches no file but [tmp_path], and is no rename. *)
Definition quiet (tmp_path : Path) (o : op) : Prop :=
  match o with
  | OpenWrite p | Write p _ => p = tmp_path
  | Fsync _ | CopyStat _ _ => True
  | Rename _ _ => False
  end.

End Copy.

(** ** Appending to the transfer manifest *)

Module SyncLog.

(** The manifest file: the lines on stable storage, the lines the
    operating system holds, and the lines still in the buffer of the
    open file object. *)
Record file := {
  stable : list ManifestEntry;
  cached : list ManifestEntry;
  buffered : list ManifestEntry
}.

Inductive io :=
| write_entry_to (e : ManifestEntry)
| flush
| fsync
| close.

Definition perform (f : file) (o : io) : file :=
  match o with
  | write_entry_to e =>
    {| stable := stable f; cached := cached f; buffered := buffered f ++ [e] |}
  | flush | close =>
    {| stable := stable f; cached := cached f ++ buffered f; buffered := [] |}
  | fsync =>
    {| stable := stable f ++ cached f; cached := []; buffered := buffered f |}
  end.

Definition run (calls : list io) (f : file) : file := foldl perform f calls.

(** [verify_metadata], from the entry read from the metadata file on:
    [local_size] and [local_digest] are the size and the digest of
    [local_name], [fname] is [local_name.relative_to(local_prefix)]. *)
Definition verify_metadata (entry : ManifestEntry) (fname : Path)
    (local_size : option Z) (local_digest : string) (now : float)
    : result (list io) :=
  match entry with
  | Metadata remote_name remote_size remote_digest =>
    match local_size with
    | None => Raise OSError
    | Some local_size =>
      if negb (remote_size =? local_size) then Raise VerificationFailed else
      match remote_digest with
      | JStr d =>
        if negb (String.eqb d local_digest) then Raise VerificationFailed else
        Ok [write_entry_to (TransferVerified fname remote_size remote_digest now);
            flush; fsync; close]
      | _ => Raise VerificationFailed
      end
    end
  | _ => Raise InvalidManifestEntry
  end.

(** The [with] block that ends [write_inner_dag]. *)
Definition write_inner_dag_append (w : Diff.Written) : list io :=
  List.map write_entry_to (Diff.appended w) ++ [close].

(** The [with] block that ends [analyze]. *)
Definition analyze_append (o : Reconcile.Outcome) : list io :=
  match Reconcile.appended o with
  | [] => []
  | es => List.map write_entry_to es ++ [close]
  end.

(** All the lines of the file are on stable storage. *)
Definition durable (f : file) : Prop := cached f = [] ∧ buffered f = [].

End SyncLog.

(** ** A JSON codec for flat objects

    An encoder and a decoder for objects whose values are ints and
    strings that hold no quote, comma or backslash: one instance of the
    library functions that [Manifest] is stated over, used to run the
    parser on concrete lines. *)

Module FlatJson.

Definition quote : ascii := "034"%char.

Definition quoted (s : string) : string :=
  String quote (s +:+ String quote EmptyString).

Definition dumps_value (v : json) : string :=
  match v with
  | JInt z => NilZero.string_of_int (Z.to_int z)
  | JStr s => quoted s
  | _ => "null"
  end.

Definition dumps (j : json) : string :=
  match j with
  | JObject kv =>
    "{" +:+ Str.join ", " (List.map (λ m, quoted m.1 +:+ ": " +:+ dumps_value m.2) kv)
        +:+ "}"
  | v => dumps_value v
  end.

(** The characters before the next [c], and what follows it. *)
Fixpoint until (c : ascii) (s : string) : option (string * string) :=
  match s with
  | EmptyString => None
  | String d s' =>
    if Ascii.eqb d c then Some (EmptyString, s')
    else match until c s' with
         | Some (w, rest) => Some (String d w, rest)
         | None => None
         end
  end.

Definition loads_value (s : string) : option json :=
  match s with
  | EmptyString => None
  | String c s' =>
    if Ascii.eqb c quote then
      match until quote s' with
      | Some (w, EmptyString) => Some (JStr w)
      | _ => None
      end
    else
      match NilZero.int_of_string s with
      | Some i => Some (JInt (Z.of_int i))
      | None => None
      end
  end.

Definition loads_member (s : string) : option (string * json) :=
  match Str.lstrip s with
  | String c s' =>
    if Ascii.eqb c quote then
      match until quote s' with
      | Some (k, String ":" (String " " v)) =>
        match loads_value v with
        | Some j => Some (k, j)
        | None => None
        end
      | _ => None
      end
    else None
  | EmptyString => None
  end.

Definition loads (s : string) : option json :=
  match s with
  | String "{" body =>
    match String.rev body with
    | String "}" inner =>
      match String.rev inner with
      | EmptyString => Some (JObject [])
      | members => JObject <$> mapM loads_member (Str.split "," members)
      end
    | _ => None
    end
  | _ => None
  end.

Definition int_of_str (s : string) : result Z :=
  match NilZero.int_of_string s with
  | Some i => Ok (Z.of_int i)
  | None => Raise ValueError
  end.

Definition float_of_str (s : string) : result float :=
  match NilZero.int_of_string s with
  | Some i => float_of_int (Z.of_int i)
  | None => Raise ValueError
  end.

Definition parse_manifest_entry : string → result ManifestEntry :=
  Manifest.parse_manifest_entry loads int_of_str float_of_str.

Definition to_str : ManifestEntry → string := Manifest.to_str dumps.

End FlatJson.

(** ** The flat codec, with NaN

    [json.dumps] writes a NaN as the bare word [NaN] and [json.loads]
    reads that word back as a NaN.  The codec below adds this to the
    flat one. *)

Module NanJson.

Definition dumps_value (v : json) : string :=
  match v with
  | JFloat g => if PrimFloat.is_nan g then "NaN" else FlatJson.dumps_value v
  | _ => FlatJson.dumps_value v
  end.

Definition dumps (j : json) : string :=
  match j with
  | JObject kv =>
    "{" +:+ Str.join ", "
              (List.map (λ m, FlatJson.quoted m.1 +:+ ": " +:+ dumps_value m.2) kv)
        +:+ "}"
  | v => dumps_value v
  end.

Definition loads_value (s : string) : option json :=
  if String.eqb s "NaN" then Some (JFloat PrimFloat.nan) else FlatJson.loads_value s.

Definition loads_member (s : string) : option (string * json) :=
  match Str.lstrip s with
  | String c s' =>
    if Ascii.eqb c FlatJson.quote then
      match FlatJson.until FlatJson.quote s' with
      | Some (k, String ":" (String " " v)) =>
        match loads_value v with
        | Some j => Some (k, j)
        | None => None
        end
      | _ => None
      end
    else None
  | EmptyString => None
  end.

Definition loads (s : string) : option json :=
  match s with
  | String "{" body =>
    match String.rev body with
    | String "}" inner =>
      match String.rev inner with
      | EmptyString => Some (JObject [])
      | members => JObject <$> mapM loads_member (Str.split "," members)
      end
    | _ => None
    end
  | _ => None
  end.

Definition parse_manifest_entry : string → result ManifestEntry :=
  Manifest.parse_manifest_entry loads FlatJson.int_of_str FlatJson.float_of_str.

Definition to_str : ManifestEntry → string := Manifest.to_str dumps.

End NanJson.

(** ** Sample manifests, inventories and files *)

Module Scenario.

Import Reconcile.

Definition request (ftt btt ftv btv : Z) : SyncRequestInfo :=
  {| direction := JStr "pull"; remote_prefix := "/remote";
     files_at_source := JInt 1;
     files_to_transfer := JInt ftt; bytes_to_transfer := JInt btt;
     files_to_verify := JInt ftv; bytes_to_verify := JInt btv;
     sr_timestamp := 1%float |}.

(** The local directory holds one file, [a], of 100 bytes. *)
Definition disk (p : Path) : option Z :=
  if String.eqb p "a" then Some 100 else None.

Definition replayed (log : list (result (ManifestEntry * nat))) : Replay :=
  match analyze_loop disk log initial with
  | Ok a => a
  | Raise _ => initial
  end.

(** An epoch that asks for [a] and ends there. *)
Definition open_epoch : list (result (ManifestEntry * nat)) :=
  [Ok (SyncRequest (request 1 100 0 0), 1%nat);
   Ok (TransferRequest "a" 100, 2%nat)].

Definition open_state : Replay := Eval vm_compute in replayed open_epoch.

(** An epoch in which [a] was asked for and verified. *)
Definition reconciled_epoch : list (result (ManifestEntry * nat)) :=
  open_epoch ++ [Ok (TransferVerified "a" 100 (JStr "da39") 2%float, 3%nat)].

Definition reconciled_state : Replay := Eval vm_compute in replayed reconciled_epoch.

(** A second [SyncRequest] while the first epoch is open. *)
Definition nested_request : list (result (ManifestEntry * nat)) :=
  open_epoch ++ [Ok (SyncRequest (request 1 100 0 0), 3%nat)].

(** A closed epoch, then a new one that asks for [a] again. *)
Definition second_epoch : list (result (ManifestEntry * nat)) :=
  reconciled_epoch
  ++ [Ok (SyncDone 3%float, 4%nat);
      Ok (SyncRequest (request 1 100 0 0), 5%nat);
      Ok (TransferRequest "a" 100, 6%nat)].

(** The remote directory holds [a] and [b], the local one only [a]. *)
Definition remote_files : gmap Path Z := <["a" := 100]> (<["b" := 200]> ∅).

Definition local_files : gmap Path Z := <["a" := 100]> ∅.

(** A log that records [a] as verified when it had 50 bytes. *)
Definition verified_50 : list (result (ManifestEntry * nat)) :=
  [Ok (TransferVerified "a" 50 (JStr "da39") 1%float, 1%nat)].

(** A file staged in the scratch directory, to be pushed onto a file
    whose name ends in [.tmp]. *)
Definition staged : gmap Path string :=
  <["/scratch/results.tmp" := "new contents"%string]>
    (<["/data/results.tmp" := "old"%string]> ∅).

(** The manifest file that holds [reconciled_epoch], all of it on
    stable storage. *)
Definition manifest_file : SyncLog.file :=
  {| SyncLog.stable :=
       [SyncRequest (request 1 100 0 0);
        TransferRequest "a" 100;
        TransferVerified "a" 100 (JStr "da39") 2%float];
     SyncLog.cached := [];
     SyncLog.buffered := [] |}.

End Scenario.

(** ** create_file_manifest and parse_file_manifest: the inventories *)

Module Inventory.

Definition MB : Z := 2 ^ 20.

(** What [os.scandir] finds under a name: a regular file, a directory
    with its entries in the order they are listed, or something else
    (a socket, a dangling link). *)
#[warnings="-register-all"]
Inductive node :=
| RegularFile (size : Z)
| Directory (children : list (string * node))
| Special.

Definition endswith_sep (s : string) : bool :=
  match String.rev s with
  | String "/" _ => true
  | _ => false
  end.

(** [os.path.join(path, name)]. *)
Definition os_path_join (path name : string) : string :=
  if Str.startswith name "/" then name
  else if String.eqb path "" || endswith_sep path then path +:+ name
  else path +:+ "/" +:+ name.

(** What [walk] yields below the entry [entry_path]: the path and the
    size of the regular files, directories first entered. *)
Fixpoint walk_entry (entry_path : string) (n : node) : list (string * Z) :=
  match n with
  | RegularFile size => [(entry_path, size)]
  | Directory children =>
    List.flat_map
      (λ child, walk_entry (os_path_join entry_path child.1) child.2) children
  | Special => []
  end.

(** [walk(path)] for the directory [path] with the entries [children]. *)
Definition walk (path : Path) (children : list (string * node)) : list (string * Z) :=
  walk_entry path (Directory children).

(** [create_file_manifest(root_path, manifest_path, test_mode)]: the
    entries written to the manifest; [root] is what is found at
    [root_path], [None] when nothing exists there. *)
Definition create_file_manifest (root_path : Path) (root : option node)
    (test_mode : bool) : result (list ManifestEntry) :=
  match root with
  | None => Ok []
  | Some (Directory children) =>
    Ok (List.map (λ entry, File (pathlib.Path_of_str entry.1) entry.2)
          (List.filter (λ entry, negb (test_mode && (50 * MB <? entry.2)))
             (walk root_path children)))
  | Some _ => Raise OSError
  end.

(** [prefix in fname.parents]: the same root, and the components of
    [prefix] a proper prefix of those of [fname]. *)
Fixpoint strip_parts (prefix parts : list string) : option (list string) :=
  match prefix, parts with
  | [], _ => Some parts
  | _ :: _, [] => None
  | x :: prefix', y :: parts' =>
    if String.eqb x y then strip_parts prefix' parts' else None
  end.

Definition in_parents (prefix fname : Path) : bool :=
  let '(root, parts) := pathlib.parse_parts fname in
  let '(prefix_root, prefix_parts) := pathlib.parse_parts prefix in
  String.eqb root prefix_root
  && match strip_parts prefix_parts parts with
     | Some (_ :: _) => true
     | _ => false
     end.

(** [fname.relative_to(prefix)]. *)
Definition relative_to (fname prefix : Path) : result Path :=
  let '(root, parts) := pathlib.parse_parts fname in
  let '(prefix_root, prefix_parts) := pathlib.parse_parts prefix in
  if String.eqb root prefix_root then
    match strip_parts prefix_parts parts with
    | Some rest => Ok (pathlib.format_parts (""%string, rest))
    | None => Raise ValueError
    end
  else Raise ValueError.

(** [check_entry_type(entry, File)]. *)
Definition check_entry_type_File (entry : ManifestEntry) : result (Path * Z) :=
  match entry with
  | File name size => Ok (name, size)
  | _ => Raise InvalidManifestEntry
  end.

(** The loop of [parse_file_manifest] over what [read_manifest]
    yields, [files] being the dict built so far. *)
Fixpoint parse_file_manifest_loop (prefix : Path)
    (items : list (result (ManifestEntry * nat))) (files : gmap Path Z)
    : result (gmap Path Z) :=
  match items with
  | [] => Ok files
  | Raise e :: _ => Raise e
  | Ok (entry, _) :: rest =>
    file ← check_entry_type_File entry;
    let '(fname, size) := file in
    if String.eqb fname prefix then parse_file_manifest_loop prefix rest files else
    relative ← relative_to fname prefix;
    parse_file_manifest_loop prefix rest (<[relative := size]> files)
  end.

Definition parse_file_manifest (prefix : Path)
    (items : list (result (ManifestEntry * nat))) : result (gmap Path Z) :=
  parse_file_manifest_loop prefix items ∅.

(** A tree as [os.scandir] lists it: every entry is named by one path
    component. *)
#[warnings="-register-all"]
Inductive named : node → Prop :=
| named_file (size : Z) : named (RegularFile size)
| named_special : named Special
| named_directory (children : list (string * node)) :
    Forall (λ child, pathlib.component child.1 ∧ named child.2) children →
    named (Directory children).

End Inventory.

(** ** hash_file *)

Module Hashing.

Record Hashed := {
  hashed : string;
  byte_count : nat
}.

(** [hash_file(path)] on the files [fs]: the bytes fed to the hasher
    and the byte count. *)
Definition hash_file (path : Path) (fs : gmap Path string) : result Hashed :=
  match fs !! path with
  | None => Raise OSError
  | Some data =>
    let bufs := Copy.blocks (String.length data) data in
    Ok {| hashed := Str.join "" bufs;
          byte_count := sum_list (List.map String.length bufs) |}
  end.

(** [write_metadata_file(path, hasher, size)]: the entry written to
    the metadata file; [hexdigest] gives the digest of the bytes fed to
    the hasher. *)
Definition write_metadata_file (hexdigest : string → string) (path : Path)
    (hashed : string) (size : nat) : ManifestEntry :=
  Metadata path (Z.of_nat size) (JStr (hexdigest hashed)).

(** [get_remote_metadata(path)]. *)
Definition get_remote_metadata (hexdigest : string → string) (path : Path)
    (fs : gmap Path string) : result ManifestEntry :=
  h ← hash_file path fs;
  Ok (write_metadata_file hexdigest path (hashed h) (byte_count h)).

Definition SANDBOX_FILE_NAME : Path := "file-for-transfer".

(** [pull_file(path)]: the copy into the scratch directory, and the
    entry written to the metadata file. *)
Definition pull_file (hexdigest : string → string) (scratch_dir path : Path)
    (fs : gmap Path string) : result (Copy.Copied * ManifestEntry) :=
  c ← Copy.copy_with_hash path (pathlib.joinpath scratch_dir SANDBOX_FILE_NAME) fs;
  Ok (c, write_metadata_file hexdigest path (Copy.hashed c) (Copy.byte_count c)).

End Hashing.

(** ** Manifests as lists of entries *)

Module Log.

(** What [read_manifest] yields for a file that holds the lines of
    [entries], one entry per line, from line [start] on. *)
Fixpoint numbered (start : nat) (entries : list ManifestEntry)
    : list (result (ManifestEntry * nat)) :=
  match entries with
  | [] => []
  | e :: rest => Ok (e, start) :: numbered (S start) rest
  end.

(** The lines that the verification steps append for the files that
    the requests [entries] name. *)
Definition verified (digest : Path → json) (now : float)
    (entries : list ManifestEntry) : list ManifestEntry :=
  List.flat_map
    (λ e, match e with
          | TransferRequest name size | VerifyRequest name size =>
            [TransferVerified name size (digest name) now]
          | _ => []
          end) entries.

Definition is_sync_request (e : ManifestEntry) : bool :=
  match e with
  | SyncRequest _ => true
  | _ => false
  end.

(** No character of [s] is [c]. *)
Definition free_of (c : ascii) (s : string) : Prop :=
  ¬ In c (list_ascii_of_string s).

(** The size that a request or a file entry records. *)
Definition entry_size (e : ManifestEntry) : Z :=
  match e with
  | TransferRequest _ size | VerifyRequest _ size | File _ size
  | TransferVerified _ size _ _ | Metadata _ size _ => size
  | SyncRequest _ | SyncDone _ => 0
  end.

Definition total_size (entries : list ManifestEntry) : Z :=
  foldr (λ e total, entry_size e + total) 0 entries.

(** The keys of a [SyncRequest] are in [sync_request] whenever an epoch
    is open, and an open epoch has been counted. *)
Definition keyed (a : Reconcile.Replay) : Prop :=
  is_Some (Reconcile.sync_request_start a) →
  is_Some (Reconcile.request (Reconcile.sync_request a))
  ∧ (0 < Reconcile.sync_count a)%nat.

(** The name that an entry records. *)
Definition entry_name (e : ManifestEntry) : Path :=
  match e with
  | TransferRequest name _ | VerifyRequest name _ | File name _
  | TransferVerified name _ _ _ | Metadata name _ _ => name
  | SyncRequest r => remote_prefix r
  | SyncDone _ => EmptyString
  end.

Definition is_transfer (e : ManifestEntry) : bool :=
  match e with
  | TransferRequest _ _ => true
  | _ => false
  end.

Definition is_verify (e : ManifestEntry) : bool :=
  match e with
  | VerifyRequest _ _ => true
  | _ => false
  end.

(** The replay is in an epoch whose outstanding requests are [order]:
    [files] holds exactly these, [transfer_files] tells the transfers
    among them, none is verified yet, and the four counters of the
    [SyncRequest] count them and sum their sizes. *)
Definition outstanding (order : list ManifestEntry) (a : Reconcile.Replay) : Prop :=
  let s := Reconcile.sync_request a in
  is_Some (Reconcile.sync_request_start a)
  ∧ Reconcile.files s = list_to_map ((λ e, (entry_name e, entry_size e)) <$> order)
  ∧ (∀ e, e ∈ order →
       entry_name e ∈ Reconcile.transfer_files s ↔ is_transfer e = true)
  ∧ (∀ e, e ∈ order → Reconcile.verified_files s !! entry_name e = None)
  ∧ ∃ r, Reconcile.request s = Some r
         ∧ files_to_transfer r
           = JInt (Z.of_nat (length (List.filter is_transfer order)))
         ∧ bytes_to_transfer r = JInt (total_size (List.filter is_transfer order))
         ∧ files_to_verify r
           = JInt (Z.of_nat (length (List.filter is_verify order)))
         ∧ bytes_to_verify r = JInt (total_size (List.filter is_verify order)).

(** An item that [read_manifest] yields from line [n] on comes from one
    line: an entry from the line whose number it carries, an exception
    from a line that does not parse. *)
Definition read_from_line (json_loads : string → option json)
    (int_of_str : string → result Z) (float_of_str : string → result float)
    (n : nat) (lines : list string)
    (item : result (ManifestEntry * nat)) : Prop :=
  let parse := Manifest.parse_manifest_entry json_loads int_of_str float_of_str in
  match item with
  | Ok (e, m) =>
    (n ≤ m)%nat
    ∧ ∃ line, lines !! (m - n)%nat = Some line
              ∧ Str.strip line ≠ ""%string
              ∧ Str.startswith (Str.strip line) "#" = false
              ∧ parse (Str.strip line) = Ok e
  | Raise x => ∃ line, line ∈ lines ∧ parse (Str.strip line) = Raise x
  end.

End Log.

(** * Properties *)

(** ** The error monad *)

Lemma bind_Ok {A B} (m : result A) (f : A → result B) (b : B) :
  m ≫= f = Ok b → ∃ a, m = Ok a ∧ f a = Ok b.
Proof. destruct m as [a|e]; [eauto | discriminate]. Qed.

(** ** The replay *)

Section ReplayFacts.

Import Reconcile.

Variable st_size : Path → option Z.

#[local] Abbreviation item := (result (ManifestEntry * nat)).

Lemma analyze_loop_app (l1 l2 : list item) (a : Replay) :
  analyze_loop st_size (l1 ++ l2) a =
  analyze_loop st_size l1 a ≫= analyze_loop st_size l2.
Proof.
  revert a. induction l1 as [|[[e n]|x] l1 IH]; intros a; simpl; [done| |done].
  destruct (analyze_step st_size a e n) as [a'|x]; simpl; [apply IH | done].
Qed.

Lemma analyze_loop_snoc (pre rest : list item) (a : Replay) (e : ManifestEntry) (n : nat) :
  analyze_loop st_size pre initial = Ok a →
  analyze_loop st_size (pre ++ Ok (e, n) :: rest) initial =
  analyze_step st_size a e n ≫= analyze_loop st_size rest.
Proof. intros H. rewrite analyze_loop_app, H. reflexivity. Qed.

(** A counter is there exactly when [work_remaining] does not raise. *)
Lemma work_remaining_request (s : SyncState) (b : bool) :
  work_remaining s = Ok b → is_Some (request s).
Proof.
  unfold work_remaining, counter. destruct (request s); [eauto | discriminate].
Qed.

End ReplayFacts.

(** C1, as stated: a log that replays to an open epoch with work
    remaining and no size mismatch would make [analyze] end without
    raising and without appending.  The log [Scenario.open_epoch] is
    such a log, and [analyze] raises [InconsistentManifest] on it. *)
Lemma analyze_open_epoch_is_fatal :
  ¬ (∀ st_size now log a,
       Reconcile.analyze_loop st_size log Reconcile.initial = Ok a →
       is_Some (Reconcile.sync_request_start a) →
       Reconcile.work_remaining (Reconcile.sync_request a) = Ok true →
       Reconcile.mismatched_filesizes a = ∅ →
       Reconcile.raised (Reconcile.analyze st_size now log) = None
       ∧ Reconcile.appended (Reconcile.analyze st_size now log) = []).
Proof.
  intros claim.
  specialize (claim Scenario.disk 2%float Scenario.open_epoch Scenario.open_state).
  assert (Some InconsistentManifest = None) as absurd; [|discriminate absurd].
  apply claim; [reflexivity | by eexists | reflexivity | reflexivity].
Qed.

(** C1, as amended: for every log that replays to an open epoch with
    outstanding files or a non-zero remaining counter, and no size
    mismatch on disk, [analyze] reports the remaining files and bytes,
    appends nothing to the log, and raises [InconsistentManifest]. *)
Theorem analyze_reports_work_remaining
    (st_size : Path → option Z) (now : float)
    (log : list (result (ManifestEntry * nat))) (a : Reconcile.Replay) :
  Reconcile.analyze_loop st_size log Reconcile.initial = Ok a →
  is_Some (Reconcile.sync_request_start a) →
  Reconcile.work_remaining (Reconcile.sync_request a) = Ok true →
  Reconcile.mismatched_filesizes a = ∅ →
  ∃ r, Reconcile.request (Reconcile.sync_request a) = Some r ∧
    Reconcile.analyze st_size now log =
    {| Reconcile.raised := Some InconsistentManifest;
       Reconcile.appended := [];
       Reconcile.messages :=
         [Reconcile.SyncNotDone;
          Reconcile.FilesToTransfer (files_to_transfer r) (bytes_to_transfer r);
          Reconcile.FilesToVerify (files_to_verify r) (bytes_to_verify r);
          Reconcile.InconsistentFiles (Reconcile.files (Reconcile.sync_request a))] |}.
Proof.
  intros Hloop [line Hstart] Hwork Hmm.
  destruct (work_remaining_request _ _ Hwork) as [r Hr].
  exists r. split; [exact Hr|].
  unfold Reconcile.analyze. rewrite Hloop.
  unfold Reconcile.conclude. rewrite Hmm, Hstart, Hwork, Hr.
  reflexivity.
Qed.

Lemma analyze_reports_work_remaining_witness :
  ∃ r, Reconcile.request (Reconcile.sync_request Scenario.open_state) = Some r ∧
    Reconcile.analyze Scenario.disk 2%float Scenario.open_epoch =
    {| Reconcile.raised := Some InconsistentManifest;
       Reconcile.appended := [];
       Reconcile.messages :=
         [Reconcile.SyncNotDone;
          Reconcile.FilesToTransfer (files_to_transfer r) (bytes_to_transfer r);
          Reconcile.FilesToVerify (files_to_verify r) (bytes_to_verify r);
          Reconcile.InconsistentFiles
            (Reconcile.files (Reconcile.sync_request Scenario.open_state))] |}.
Proof.
  apply (analyze_reports_work_remaining
           Scenario.disk 2%float Scenario.open_epoch Scenario.open_state).
  - reflexivity.
  - exists 1%nat. reflexivity.
  - reflexivity.
  - reflexivity.
Defined.

(** C2, as stated: a [SyncRequest] met while an earlier one is open
    would make the replay raise [InconsistentManifest].  On
    [Scenario.nested_request] the replay goes through. *)
Lemma nested_sync_request_does_not_raise :
  ¬ (∀ st_size pre a info line rest,
       Reconcile.analyze_loop st_size pre Reconcile.initial = Ok a →
       is_Some (Reconcile.sync_request_start a) →
       Reconcile.analyze_loop st_size (pre ++ Ok (SyncRequest info, line) :: rest)
         Reconcile.initial = Raise InconsistentManifest).
Proof.
  intros claim.
  specialize (claim Scenario.disk Scenario.open_epoch Scenario.open_state
                    (Scenario.request 1 100 0 0) 3%nat []).
  assert (Reconcile.analyze_loop Scenario.disk Scenario.nested_request
            Reconcile.initial = Raise InconsistentManifest) as absurd.
  { apply claim; [reflexivity | by eexists]. }
  vm_compute in absurd. discriminate absurd.
Qed.

(** C2, as amended: a [SyncRequest] met while an earlier one is open is
    accepted.  It is counted, the epoch starts again at its line and its
    counters replace those of the open epoch; the outstanding files, the
    transfer subset and the verified files are kept. *)
Theorem nested_sync_request_accepted
    (st_size : Path → option Z) (pre : list (result (ManifestEntry * nat)))
    (a : Reconcile.Replay) (info : SyncRequestInfo) (line : nat) :
  Reconcile.analyze_loop st_size pre Reconcile.initial = Ok a →
  is_Some (Reconcile.sync_request_start a) →
  Reconcile.analyze_loop st_size (pre ++ [Ok (SyncRequest info, line)])
    Reconcile.initial =
  Ok {| Reconcile.sync_request_start := Some line;
        Reconcile.sync_request :=
          {| Reconcile.files := Reconcile.files (Reconcile.sync_request a);
             Reconcile.transfer_files :=
               Reconcile.transfer_files (Reconcile.sync_request a);
             Reconcile.verified_files :=
               Reconcile.verified_files (Reconcile.sync_request a);
             Reconcile.request := Some info |};
        Reconcile.sync_count := S (Reconcile.sync_count a);
        Reconcile.mismatched_filesizes := Reconcile.mismatched_filesizes a |}.
Proof.
  intros Hloop _. rewrite (analyze_loop_snoc _ _ _ _ _ _ Hloop). reflexivity.
Qed.

Lemma nested_sync_request_accepted_witness :
  Reconcile.analyze_loop Scenario.disk
    (Scenario.open_epoch ++ [Ok (SyncRequest (Scenario.request 0 0 0 0), 3%nat)])
    Reconcile.initial =
  Ok {| Reconcile.sync_request_start := Some 3%nat;
        Reconcile.sync_request :=
          {| Reconcile.files :=
               Reconcile.files (Reconcile.sync_request Scenario.open_state);
             Reconcile.transfer_files :=
               Reconcile.transfer_files (Reconcile.sync_request Scenario.open_state);
             Reconcile.verified_files :=
               Reconcile.verified_files (Reconcile.sync_request Scenario.open_state);
             Reconcile.request := Some (Scenario.request 0 0 0 0) |};
        Reconcile.sync_count := S (Reconcile.sync_count Scenario.open_state);
        Reconcile.mismatched_filesizes :=
          Reconcile.mismatched_filesizes Scenario.open_state |}.
Proof.
  apply (nested_sync_request_accepted Scenario.disk Scenario.open_epoch
           Scenario.open_state (Scenario.request 0 0 0 0) 3%nat).
  - reflexivity.
  - exists 1%nat. reflexivity.
Defined.

(** C4: a [TransferVerified] entry met with no open epoch makes the
    replay raise [InconsistentManifest]; so does one met in an open
    epoch that is not an already-verified no-op and whose path is not
    outstanding, or is outstanding with another size.  [analyze] then
    ends with that exception and appends nothing. *)
Theorem transfer_verified_unexpected
    (st_size : Path → option Z) (now : float)
    (pre rest : list (result (ManifestEntry * nat))) (a : Reconcile.Replay)
    (fname : Path) (size : Z) (digest : json) (timestamp : float) (line : nat) :
  Reconcile.analyze_loop st_size pre Reconcile.initial = Ok a →
  Reconcile.sync_request_start a = None
  ∨ (is_Some (Reconcile.sync_request_start a)
     ∧ Reconcile.verified_files (Reconcile.sync_request a) !! fname ≠ Some size
     ∧ (Reconcile.files (Reconcile.sync_request a) !! fname = None
        ∨ ∃ anticipated,
            Reconcile.files (Reconcile.sync_request a) !! fname = Some anticipated
            ∧ anticipated ≠ size)) →
  Reconcile.analyze_loop st_size
    (pre ++ Ok (TransferVerified fname size digest timestamp, line) :: rest)
    Reconcile.initial = Raise InconsistentManifest
  ∧ Reconcile.analyze st_size now
      (pre ++ Ok (TransferVerified fname size digest timestamp, line) :: rest) =
    {| Reconcile.raised := Some InconsistentManifest;
       Reconcile.appended := [];
       Reconcile.messages := [] |}.
Proof.
  intros Hloop Hcase.
  assert (Reconcile.analyze_step st_size a
            (TransferVerified fname size digest timestamp) line
          = Raise InconsistentManifest) as Hstep.
  { simpl. unfold Reconcile.on_verified.
    destruct Hcase as [-> | ([start ->] & Hnoop & Hfiles)]; [reflexivity|].
    rewrite bool_decide_eq_false_2 by exact Hnoop.
    destruct Hfiles as [-> | (anticipated & -> & Hne)]; [reflexivity|].
    apply Z.eqb_neq in Hne. rewrite Hne. reflexivity. }
  assert (Reconcile.analyze_loop st_size
            (pre ++ Ok (TransferVerified fname size digest timestamp, line) :: rest)
            Reconcile.initial = Raise InconsistentManifest) as Hraise.
  { rewrite (analyze_loop_snoc _ _ _ _ _ _ Hloop), Hstep. reflexivity. }
  split; [exact Hraise|].
  unfold Reconcile.analyze. rewrite Hraise. reflexivity.
Qed.

Lemma transfer_verified_unexpected_witness :
  Reconcile.analyze_loop Scenario.disk
    (Scenario.open_epoch
     ++ Ok (TransferVerified "c" 50 (JStr "da39") 2%float, 3%nat) :: [])
    Reconcile.initial = Raise InconsistentManifest
  ∧ Reconcile.analyze Scenario.disk 2%float
      (Scenario.open_epoch
       ++ Ok (TransferVerified "c" 50 (JStr "da39") 2%float, 3%nat) :: []) =
    {| Reconcile.raised := Some InconsistentManifest;
       Reconcile.appended := [];
       Reconcile.messages := [] |}.
Proof.
  apply (transfer_verified_unexpected Scenario.disk 2%float Scenario.open_epoch []
           Scenario.open_state "c" 50 (JStr "da39") 2%float 3%nat).
  - reflexivity.
  - right. split; [exists 1%nat; reflexivity|].
    split; [vm_compute; discriminate | left; reflexivity].
Defined.

(** C9, as stated: once [a] was verified with 100 bytes in an epoch that
    a [SyncDone] closed, a [TransferRequest] for [a] with 100 bytes in a
    later epoch would be a no-op.  On [Scenario.second_epoch] it is
    added to the outstanding files. *)
Lemma verified_files_not_carried_over :
  ¬ (∀ st_size pre a t l1 info l2 fname size l3 a',
       Reconcile.analyze_loop st_size pre Reconcile.initial = Ok a →
       Reconcile.verified_files (Reconcile.sync_request a) !! fname = Some size →
       Reconcile.analyze_loop st_size
         (pre ++ [Ok (SyncDone t, l1); Ok (SyncRequest info, l2);
                  Ok (TransferRequest fname size, l3)])
         Reconcile.initial = Ok a' →
       Reconcile.files (Reconcile.sync_request a') !! fname = None).
Proof.
  intros claim.
  specialize (claim Scenario.disk Scenario.reconciled_epoch Scenario.reconciled_state
                    3%float 4%nat (Scenario.request 1 100 0 0) 5%nat
                    "a"%string 100 6%nat (Scenario.replayed Scenario.second_epoch)).
  assert (Reconcile.files
            (Reconcile.sync_request (Scenario.replayed Scenario.second_epoch))
            !! "a"%string = None) as absurd.
  { apply claim; reflexivity. }
  vm_compute in absurd. discriminate absurd.
Qed.

(** C9, as amended: the verified-files mapping is kept until the next
    [SyncDone] and no further.  In an open epoch a [TransferRequest] or
    [VerifyRequest] for a path recorded as verified with the same size
    leaves the replay as it is; a [SyncDone] empties the mapping, so the
    same request placed after the next [SyncRequest] is added to the
    outstanding files. *)
Theorem verified_files_cleared_by_sync_done
    (st_size : Path → option Z) (pre : list (result (ManifestEntry * nat)))
    (a : Reconcile.Replay) (entry : ManifestEntry) (fname : Path) (size : Z)
    (t : float) (info : SyncRequestInfo) (l1 l2 l3 : nat) :
  Reconcile.analyze_loop st_size pre Reconcile.initial = Ok a →
  is_Some (Reconcile.sync_request_start a) →
  entry = TransferRequest fname size ∨ entry = VerifyRequest fname size →
  (Reconcile.verified_files (Reconcile.sync_request a) !! fname = Some size →
   Reconcile.analyze_loop st_size (pre ++ [Ok (entry, l3)]) Reconcile.initial = Ok a)
  ∧ (Reconcile.work_remaining (Reconcile.sync_request a) = Ok false →
     ∃ a',
       Reconcile.analyze_loop st_size
         (pre ++ [Ok (SyncDone t, l1); Ok (SyncRequest info, l2); Ok (entry, l3)])
         Reconcile.initial = Ok a'
       ∧ Reconcile.verified_files (Reconcile.sync_request a') = ∅
       ∧ Reconcile.files (Reconcile.sync_request a') = {[fname := size]}).
Proof.
  intros Hloop [start Hstart] Hentry. split.
  - intros Hverified. rewrite (analyze_loop_snoc _ _ _ _ _ _ Hloop).
    destruct Hentry as [-> | ->]; simpl; unfold Reconcile.on_request;
      rewrite Hstart, bool_decide_eq_true_2 by exact Hverified; reflexivity.
  - intros Hwork. rewrite (analyze_loop_snoc _ _ _ _ _ _ Hloop).
    simpl. unfold Reconcile.on_done. rewrite Hstart, Hwork. simpl.
    destruct Hentry as [-> | ->]; simpl; unfold Reconcile.on_request; simpl;
      rewrite bool_decide_eq_false_2 by (rewrite lookup_empty; discriminate);
      simpl; eexists; (split; [reflexivity|]); simpl;
      (split; [reflexivity | apply insert_empty]).
Qed.

Lemma verified_files_cleared_by_sync_done_witness :
  Reconcile.analyze_loop Scenario.disk
    (Scenario.reconciled_epoch ++ [Ok (TransferRequest "a" 100, 6%nat)])
    Reconcile.initial = Ok Scenario.reconciled_state
  ∧ ∃ a',
      Reconcile.analyze_loop Scenario.disk
        (Scenario.reconciled_epoch
         ++ [Ok (SyncDone 3%float, 4%nat);
             Ok (SyncRequest (Scenario.request 1 100 0 0), 5%nat);
             Ok (TransferRequest "a" 100, 6%nat)])
        Reconcile.initial = Ok a'
      ∧ Reconcile.verified_files (Reconcile.sync_request a') = ∅
      ∧ Reconcile.files (Reconcile.sync_request a') = {["a"%string := 100]}.
Proof.
  destruct (verified_files_cleared_by_sync_done Scenario.disk
              Scenario.reconciled_epoch Scenario.reconciled_state
              (TransferRequest "a" 100) "a" 100
              3%float (Scenario.request 1 100 0 0) 4%nat 5%nat 6%nat)
    as [noop added].
  - reflexivity.
  - exists 1%nat. reflexivity.
  - left. reflexivity.
  - split; [apply noop | apply added]; reflexivity.
Defined.

(** ** The diff *)

Section DiffFacts.

Import Diff.

Lemma elem_of_files_to_transfer (src_files dest_files : gmap Path Z) (fname : Path) :
  fname ∈ files_to_transfer src_files dest_files ↔
  ∃ size, src_files !! fname = Some size ∧ size ≠ get dest_files fname (-1).
Proof.
  unfold files_to_transfer. rewrite elem_of_dom. split.
  - intros [size H]. apply map_lookup_filter_Some in H as [H1 H2]. eauto.
  - intros (size & H1 & H2). exists size. apply map_lookup_filter_Some. eauto.
Qed.

Lemma elem_of_files_to_verify (remote_files : gmap Path Z)
    (to_transfer verified : gset Path) (fname : Path) :
  fname ∈ files_to_verify remote_files to_transfer verified ↔
  fname ∈ dom remote_files ∧ (fname ∉ to_transfer) ∧ (fname ∉ verified).
Proof. unfold files_to_verify. rewrite elem_of_filter. tauto. Qed.

(** The verified names are the names of the [TransferVerified] entries
    of the log, whatever their size. *)
Lemma elem_of_files_verified (log : list (result (ManifestEntry * nat)))
    (acc verified : gset Path) (fname : Path) :
  files_verified log acc = Ok verified →
  fname ∈ verified ↔
  fname ∈ acc
  ∨ ∃ size digest timestamp line,
      Ok (TransferVerified fname size digest timestamp, line) ∈ log.
Proof.
  revert acc. induction log as [|[[e n]|x] log IH]; intros acc H; simpl in H.
  - injection H as <-. split; [auto|]. intros [?|(?&?&?&?&Hin)]; [done|].
    by apply elem_of_nil in Hin.
  - assert (∀ acc', files_verified log acc' = Ok verified →
              (fname ∈ acc' ↔ fname ∈ acc
               ∨ ∃ size digest timestamp, e = TransferVerified fname size digest timestamp) →
              fname ∈ verified ↔
              fname ∈ acc
              ∨ ∃ size digest timestamp line,
                  Ok (TransferVerified fname size digest timestamp, line)
                  ∈ Ok (e, n) :: log) as step.
    { intros acc' H' Hacc. rewrite (IH acc' H'), Hacc. split.
      - intros [[?|(s & d & t & ->)]|(s & d & t & l & Hin)]; [auto| |].
        + right. exists s, d, t, n. apply elem_of_cons. auto.
        + right. exists s, d, t, l. apply elem_of_cons. auto.
      - intros [?|(s & d & t & l & Hin)]; [auto|].
        apply elem_of_cons in Hin as [Heq|Hin].
        + injection Heq as <- <-. left. right. eauto.
        + right. eauto 6. }
    destruct e; try (apply (step acc H); split; [auto | intros [?|(?&?&?&?)]; done]).
    apply (step _ H). rewrite elem_of_union, elem_of_singleton. split.
    + intros [->|?]; [right; eauto | auto].
    + intros [?|(s & d & t & Heq)]; [auto|]. injection Heq as ->. auto.
  - discriminate.
Qed.

End DiffFacts.

(** C3, as stated: a path of the source inventory would be left out of
    both sets only if the log holds a [TransferVerified] entry for it
    with the size the source has now.  With [a] of 100 bytes on both
    sides and a log that records [a] as verified with 50 bytes, [a] is
    left out of both sets. *)
Lemma skipped_with_another_verified_size :
  ¬ (∀ direction remote_files local_files log to_transfer to_verify fname size,
       Diff.diff direction remote_files local_files log = Ok (to_transfer, to_verify) →
       (Diff.src_dest direction remote_files local_files).1 !! fname = Some size →
       (fname ∉ to_transfer) ∧ (fname ∉ to_verify) →
       ∃ digest timestamp line,
         Ok (TransferVerified fname size digest timestamp, line) ∈ log).
Proof.
  intros claim.
  destruct (claim PULL {["a"%string := 100]} {["a"%string := 100]}
                  [Ok (TransferVerified "a" 50 (JStr "da39") 1%float, 1%nat)]
                  ∅ ∅ "a"%string 100)
    as (digest & timestamp & line & Hin).
  - vm_compute. reflexivity.
  - reflexivity.
  - split; apply not_elem_of_empty.
  - apply list_elem_of_singleton in Hin. discriminate Hin.
Qed.

(** C3, as amended: a path of the source inventory, of a size that is
    not negative, is left out of both [to_transfer] and [to_verify]
    exactly when the destination inventory holds it with the same size
    and the log holds a [TransferVerified] entry for it; the size that
    entry records is not looked at. *)
Theorem skipped_iff_same_size_and_verified
    (direction : TransferDirection) (remote_files local_files : gmap Path Z)
    (log : list (result (ManifestEntry * nat)))
    (to_transfer to_verify : gset Path) (fname : Path) (size : Z) :
  Diff.diff direction remote_files local_files log = Ok (to_transfer, to_verify) →
  (Diff.src_dest direction remote_files local_files).1 !! fname = Some size →
  0 ≤ size →
  ((fname ∉ to_transfer) ∧ (fname ∉ to_verify)) ↔
  ((Diff.src_dest direction remote_files local_files).2 !! fname = Some size
   ∧ ∃ recorded digest timestamp line,
       Ok (TransferVerified fname recorded digest timestamp, line) ∈ log).
Proof.
  intros Hdiff Hsrc Hsize. unfold Diff.diff in Hdiff.
  destruct (Diff.src_dest direction remote_files local_files)
    as [src_files dest_files] eqn:Hsd.
  simpl in Hsrc. simpl.
  apply bind_Ok in Hdiff as (verified & Hverified & Hdiff).
  injection Hdiff as <- <-.
  assert (fname ∈ verified ↔
          ∃ recorded digest timestamp line,
            Ok (TransferVerified fname recorded digest timestamp, line) ∈ log)
    as Hv.
  { rewrite (elem_of_files_verified log ∅ verified fname Hverified).
    split; [intros [?|?]; [set_solver | done] | auto]. }
  rewrite elem_of_files_to_verify, elem_of_files_to_transfer, <- Hv.
  assert (remote_files = src_files ∨ remote_files = dest_files) as Hremote.
  { destruct direction; injection Hsd as <- <-; auto. }
  assert (size = Diff.get dest_files fname (-1) ↔ dest_files !! fname = Some size)
    as Hget.
  { unfold Diff.get. destruct (dest_files !! fname) as [s|]; split.
    - by intros ->.
    - by intros [= ->].
    - lia.
    - discriminate. }
  assert (fname ∈ dom src_files) as Hdom_src by (apply elem_of_dom; eauto).
  split.
  - intros [Htransfer Hverify].
    assert (dest_files !! fname = Some size) as Hdest.
    { apply Hget. destruct (decide (size = Diff.get dest_files fname (-1))); [done|].
      exfalso. apply Htransfer. eauto. }
    split; [exact Hdest|].
    assert (fname ∈ dom remote_files) as Hdom.
    { destruct Hremote as [-> | ->]; [done | apply elem_of_dom; eauto]. }
    destruct (decide (fname ∈ verified)) as [?|Hno]; [done|].
    exfalso. apply Hverify. split; [exact Hdom|]. split; [|exact Hno].
    intros (s & Hs & Hne). rewrite Hsrc in Hs. injection Hs as <-.
    apply Hne, Hget, Hdest.
  - intros [Hdest Hentry]. split.
    + intros (s & Hs & Hne). rewrite Hsrc in Hs. injection Hs as <-.
      apply Hne, Hget, Hdest.
    + intros (_ & _ & Hno). apply Hno. exact Hentry.
Qed.

Lemma skipped_iff_same_size_and_verified_witness :
  (("a"%string ∉ (∅ : gset Path)) ∧ ("a"%string ∉ (∅ : gset Path))) ↔
  ((Diff.src_dest PULL Scenario.local_files Scenario.local_files).2 !! "a"%string
     = Some 100
   ∧ ∃ recorded digest timestamp line,
       Ok (TransferVerified "a" recorded digest timestamp, line)
       ∈ Scenario.verified_50).
Proof.
  apply (skipped_iff_same_size_and_verified PULL Scenario.local_files
           Scenario.local_files Scenario.verified_50 ∅ ∅ "a" 100).
  - vm_compute. reflexivity.
  - reflexivity.
  - lia.
Defined.

(** For a pull the source inventory is the remote one, and [to_verify]
    is the set of its paths that are neither to transfer nor named by a
    [TransferVerified] entry. *)
Lemma pull_to_verify (remote_files local_files : gmap Path Z)
    (log : list (result (ManifestEntry * nat)))
    (to_transfer to_verify : gset Path) (fname : Path) :
  Diff.diff PULL remote_files local_files log = Ok (to_transfer, to_verify) →
  fname ∈ to_verify ↔
  fname ∈ dom (Diff.src_dest PULL remote_files local_files).1
  ∧ (fname ∉ to_transfer)
  ∧ ¬ ∃ recorded digest timestamp line,
        Ok (TransferVerified fname recorded digest timestamp, line) ∈ log.
Proof.
  intros Hdiff. unfold Diff.diff in Hdiff. simpl in Hdiff.
  apply bind_Ok in Hdiff as (verified & Hverified & Hdiff).
  injection Hdiff as <- <-. simpl.
  rewrite elem_of_files_to_verify,
    (elem_of_files_verified log ∅ verified fname Hverified).
  split; intros (H1 & H2 & H3); (split; [done|]); (split; [done|]).
  - intros H. apply H3. right. exact H.
  - intros [H|H]; [set_solver | by apply H3].
Qed.

(** For a push [to_verify] is still drawn from the remote inventory,
    which is then the destination. *)
Lemma push_to_verify (remote_files local_files : gmap Path Z)
    (log : list (result (ManifestEntry * nat)))
    (to_transfer to_verify : gset Path) (fname : Path) :
  Diff.diff PUSH remote_files local_files log = Ok (to_transfer, to_verify) →
  fname ∈ to_verify ↔
  fname ∈ dom (Diff.src_dest PUSH remote_files local_files).2
  ∧ (fname ∉ to_transfer)
  ∧ ¬ ∃ recorded digest timestamp line,
        Ok (TransferVerified fname recorded digest timestamp, line) ∈ log.
Proof.
  intros Hdiff. unfold Diff.diff in Hdiff. simpl in Hdiff.
  apply bind_Ok in Hdiff as (verified & Hverified & Hdiff).
  injection Hdiff as <- <-. simpl.
  rewrite elem_of_files_to_verify,
    (elem_of_files_verified log ∅ verified fname Hverified).
  split; intros (H1 & H2 & H3); (split; [done|]); (split; [done|]).
  - intros H. apply H3. right. exact H.
  - intros [H|H]; [set_solver | by apply H3].
Qed.

(** C5, at a push where the remote directory holds a file [b] that the
    local one lacks: [b] is no path of the source inventory, yet it is
    put in [to_verify], and [write_inner_dag] then raises [KeyError]
    when it looks up the size of [b] in the source inventory. *)
Theorem push_verifies_a_file_the_source_lacks :
  ∃ to_transfer to_verify,
    Diff.diff PUSH Scenario.remote_files Scenario.local_files []
      = Ok (to_transfer, to_verify)
    ∧ "b"%string ∈ to_verify
    ∧ ("b"%string ∉ dom (Diff.src_dest PUSH Scenario.remote_files
                           Scenario.local_files).1)
    ∧ Diff.write_inner_dag PUSH "/remote" "/local" Scenario.remote_files
        Scenario.local_files [] 1%float = Raise KeyError.
Proof.
  exists ∅, {["a"%string; "b"%string]}.
  split; [vm_compute; reflexivity|].
  split; [set_solver|].
  split; [|vm_compute; reflexivity].
  simpl. unfold Scenario.local_files. rewrite dom_insert_L, dom_empty_L.
  rewrite elem_of_union, elem_of_singleton, elem_of_empty.
  intros [Heq|[]]. discriminate Heq.
Qed.

(** C10: [flatten_path] is not injective.  The distinct paths [a/b] and
    [a_SLASH_b] have the same flattened name, so the work items that
    [make_cmd_info] builds for them share their flattened name and
    their metadata file, whatever the prefixes, while they name
    different remote files. *)
Theorem flatten_path_not_injective :
  ∃ p q : Path,
    Manifest.normal p ∧ Manifest.normal q ∧ p ≠ q
    ∧ Diff.flatten_path p = Diff.flatten_path q
    ∧ (∀ remote_prefix local_prefix manifest,
         ∃ i j,
           Diff.make_cmd_info [p; q] remote_prefix local_prefix manifest = [i; j]
           ∧ Diff.flattened_name i = Diff.flattened_name j
           ∧ Diff.metadata_path i = Diff.metadata_path j)
    ∧ pathlib.joinpath "/remote" p ≠ pathlib.joinpath "/remote" q.
Proof.
  exists "a/b"%string, "a_SLASH_b"%string.
  split; [reflexivity|]. split; [reflexivity|]. split; [discriminate|].
  split; [reflexivity|]. split; [|vm_compute; discriminate].
  intros remote_prefix local_prefix manifest. eexists _, _.
  split; [reflexivity|]. split; reflexivity.
Qed.

(** ** The copy *)

Section CopyFacts.

Import Copy.

Lemma run_quiet (tmp_path dest_path : Path) (calls : list op) (fs : gmap Path string) :
  tmp_path ≠ dest_path →
  Forall (quiet tmp_path) calls →
  run calls fs !! dest_path = fs !! dest_path.
Proof.
  intros Hne Hquiet. revert fs.
  induction Hquiet as [|o calls Ho _ IH]; intros fs; [reflexivity|].
  unfold run in *. simpl. rewrite IH.
  destruct o as [p|p buf|p|s d|s d]; simpl in *; try done; subst p.
  - by apply lookup_insert_ne.
  - by apply lookup_alter_ne.
Qed.

(** As long as the temporary path is not the destination itself, an
    interrupted copy leaves the destination as it was. *)
Lemma interrupted_keeps_destination (src_path dest_path tmp_path : Path)
    (fs : gmap Path string) (c : Copied) (k : nat) :
  pathlib.with_suffix dest_path ".tmp" = Ok tmp_path →
  tmp_path ≠ dest_path →
  copy_with_hash src_path dest_path fs = Ok c →
  (k < length (ops c))%nat →
  interrupted c k fs !! dest_path = fs !! dest_path.
Proof.
  intros Htmp Hne Hcopy Hk. unfold copy_with_hash in Hcopy.
  rewrite Htmp in Hcopy. simpl in Hcopy.
  destruct (fs !! src_path) as [content|]; [|discriminate].
  injection Hcopy as <-. simpl in *.
  set (bufs := blocks _ _) in *. clearbody bufs.
  unfold interrupted. simpl.
  apply (run_quiet tmp_path); [exact Hne|].
  assert (OpenWrite tmp_path :: List.map (Write tmp_path) bufs
          ++ [Fsync tmp_path; CopyStat src_path tmp_path; Rename tmp_path dest_path]
          = (OpenWrite tmp_path :: List.map (Write tmp_path) bufs
             ++ [Fsync tmp_path; CopyStat src_path tmp_path])
            ++ [Rename tmp_path dest_path]) as Hops.
  { simpl. rewrite <- app_assoc. reflexivity. }
  rewrite Hops in *. clear Hops.
  rewrite take_app_le by (simpl in *; rewrite !length_app in *; simpl in *; lia).
  apply Forall_take. constructor; [reflexivity|].
  apply Forall_app. split.
  - apply Forall_forall. intros o Ho. apply list_elem_of_fmap in Ho as (buf & -> & _).
    reflexivity.
  - repeat constructor.
Qed.

End CopyFacts.

(** C7, at a push onto a file whose name already ends in [.tmp]:
    [with_suffix] returns the destination itself, so the copy opens the
    destination for writing.  Interrupted after that first call, the
    destination neither is absent nor holds its earlier content: it is
    empty. *)
Theorem push_onto_tmp_name_truncates_destination :
  ∃ c,
    Copy.push_file "/scratch" "/data/results.tmp" Scenario.staged = Ok c
    ∧ pathlib.with_suffix "/data/results.tmp" ".tmp" = Ok "/data/results.tmp"%string
    ∧ (1 < length (Copy.ops c))%nat
    ∧ Scenario.staged !! "/data/results.tmp"%string = Some "old"%string
    ∧ Copy.interrupted c 1 Scenario.staged !! "/data/results.tmp"%string
      = Some ""%string.
Proof.
  eexists. split; [vm_compute; reflexivity|].
  split; [reflexivity|]. split; [simpl; lia|].
  split; reflexivity.
Qed.

(** ** Appends to the manifest *)

Section SyncLogFacts.

Import SyncLog.

Lemma run_writes (es : list ManifestEntry) (f : file) :
  run (List.map write_entry_to es) f =
  {| stable := stable f; cached := cached f; buffered := buffered f ++ es |}.
Proof.
  revert f. induction es as [|e es IH]; intros f; unfold run in *; simpl.
  - rewrite app_nil_r. by destruct f.
  - rewrite IH. simpl. by rewrite <- app_assoc.
Qed.

(** A block that writes entries and only closes the file leaves them
    with the operating system. *)
Lemma run_writes_close (es : list ManifestEntry) (f : file) :
  run (List.map write_entry_to es ++ [close]) f =
  {| stable := stable f; cached := cached f ++ buffered f ++ es; buffered := [] |}.
Proof.
  unfold run. rewrite foldl_app. fold (run (List.map write_entry_to es) f).
  rewrite run_writes. reflexivity.
Qed.

(** The append of [verify_metadata] leaves the whole file, the new
    [TransferVerified] line included, on stable storage. *)
Lemma verify_metadata_durable (entry : ManifestEntry) (fname : Path)
    (local_size : option Z) (local_digest : string) (now : float)
    (calls : list io) (f : file) :
  verify_metadata entry fname local_size local_digest now = Ok calls →
  durable (run calls f)
  ∧ ∃ size digest,
      stable (run calls f) =
      stable f ++ cached f ++ buffered f ++ [TransferVerified fname size digest now].
Proof.
  unfold verify_metadata. intros H.
  destruct entry as [| | | | | |remote_name remote_size remote_digest]; try discriminate.
  destruct local_size as [local_size|]; [|discriminate].
  destruct (negb (remote_size =? local_size)); [discriminate|].
  destruct remote_digest as [| | | |d| |]; try discriminate.
  destruct (negb (String.eqb d local_digest)); [discriminate|].
  injection H as <-. split; [split; reflexivity|].
  exists remote_size, (JStr d). reflexivity.
Qed.

(** The append of [write_inner_dag] is not forced to stable storage. *)
Lemma write_inner_dag_append_not_durable (w : Diff.Written) (f : file)
    (direction : TransferDirection) (remote_prefix local_prefix : Path)
    (remote_files scanned : gmap Path Z)
    (log : list (result (ManifestEntry * nat))) (now : float) :
  Diff.write_inner_dag direction remote_prefix local_prefix remote_files scanned
    log now = Ok w →
  ¬ durable (run (write_inner_dag_append w) f).
Proof.
  intros Hw [Hcached _]. unfold write_inner_dag_append in Hcached.
  rewrite run_writes_close in Hcached. simpl in Hcached.
  unfold Diff.write_inner_dag in Hw.
  destruct (Diff.src_dest _ _ _) as [src_files dest_files].
  apply bind_Ok in Hw as (sets & _ & Hw).
  apply bind_Ok in Hw as (btt & _ & Hw).
  apply bind_Ok in Hw as (btv & _ & Hw).
  apply bind_Ok in Hw as (ts & _ & Hw).
  apply bind_Ok in Hw as (vs & _ & Hw).
  injection Hw as <-. simpl in Hcached.
  apply app_eq_nil in Hcached as [_ Hcached].
  apply app_eq_nil in Hcached as [_ Hcached]. discriminate Hcached.
Qed.

End SyncLogFacts.

(** C8, at the append that ends [analyze]: on the manifest that holds
    [Scenario.reconciled_epoch], [analyze] appends [SyncDone] and closes
    the file without [flush] and [fsync]; when it returns, the line is
    with the operating system and not on stable storage. *)
Theorem sync_done_is_not_forced_to_storage :
  let outcome :=
    Reconcile.analyze Scenario.disk 3%float Scenario.reconciled_epoch in
  Reconcile.raised outcome = None
  ∧ SyncLog.analyze_append outcome
    = [SyncLog.write_entry_to (SyncDone 3%float); SyncLog.close]
  ∧ SyncLog.run (SyncLog.analyze_append outcome) Scenario.manifest_file
    = {| SyncLog.stable := SyncLog.stable Scenario.manifest_file;
         SyncLog.cached := [SyncDone 3%float];
         SyncLog.buffered := [] |}
  ∧ ¬ SyncLog.durable
        (SyncLog.run (SyncLog.analyze_append outcome) Scenario.manifest_file).
Proof.
  split; [reflexivity|]. split; [reflexivity|]. split; [reflexivity|].
  intros [Hcached _]. discriminate Hcached.
Qed.

(** ** Strings *)

Lemma append_assoc (s1 s2 s3 : string) : (s1 +:+ s2) +:+ s3 = s1 +:+ s2 +:+ s3.
Proof.
  induction s1 as [|c s1 IH]; [reflexivity|].
  change (String c ((s1 +:+ s2) +:+ s3) = String c (s1 +:+ s2 +:+ s3)).
  by rewrite IH.
Qed.

Lemma rev_app_append (s1 s2 acc : string) :
  String.rev_app (s1 +:+ s2) acc = String.rev_app s2 (String.rev_app s1 acc).
Proof.
  revert acc. induction s1 as [|c s1 IH]; intros acc; [reflexivity|].
  change (String.rev_app (s1 +:+ s2) (String c acc)
          = String.rev_app s2 (String.rev_app s1 (String c acc))).
  apply IH.
Qed.

Lemma rev_app_rev_app (s acc acc' : string) :
  String.rev_app (String.rev_app s acc) acc' = String.rev_app acc (s +:+ acc').
Proof.
  revert acc. induction s as [|c s IH]; intros acc; [reflexivity|].
  change (String.rev_app (String.rev_app s (String c acc)) acc'
          = String.rev_app (String c acc) (s +:+ acc')).
  apply IH.
Qed.

(** A closing brace is no white space: [rstrip] keeps it. *)
Lemma rstrip_closing (s : string) : Str.rstrip (s +:+ "}") = s +:+ "}".
Proof.
  unfold Str.rstrip, String.rev. rewrite rev_app_append.
  change (String.rev_app (String.rev_app s "") "}" = s +:+ "}").
  apply rev_app_rev_app.
Qed.

(** ** Paths *)

Section PathFacts.

Lemma split_not_nil (sep : ascii) (s : string) : Str.split sep s ≠ [].
Proof.
  destruct s as [|c s]; simpl; [discriminate|].
  destruct (Ascii.eqb c sep); [discriminate|].
  destruct (Str.split sep s); discriminate.
Qed.

(** The words that [split] returns hold no separator. *)
Lemma split_words_atomic (sep : ascii) (s w : string) :
  w ∈ Str.split sep s → Str.split sep w = [w].
Proof.
  revert w. induction s as [|c s IH]; intros w Hw; simpl in Hw.
  - apply list_elem_of_singleton in Hw as ->. reflexivity.
  - destruct (Ascii.eqb c sep) eqn:Hc.
    + apply elem_of_cons in Hw as [->|Hw]; [reflexivity | by apply IH].
    + destruct (Str.split sep s) as [|w0 ws] eqn:Hsplit.
      * apply list_elem_of_singleton in Hw as ->. simpl. by rewrite Hc.
      * apply elem_of_cons in Hw as [->|Hw].
        -- simpl. rewrite Hc, (IH w0) by (apply elem_of_cons; auto). reflexivity.
        -- apply IH. apply elem_of_cons. auto.
Qed.

Lemma split_atomic_app (sep : ascii) (w rest : string) :
  Str.split sep w = [w] →
  Str.split sep (w +:+ String sep rest) = w :: Str.split sep rest.
Proof.
  induction w as [|c w IH]; intros Hw.
  - change (Str.split sep (String sep rest) = "" :: Str.split sep rest)%string.
    simpl. by rewrite Ascii.eqb_refl.
  - change (Str.split sep (String c (w +:+ String sep rest))
            = String c w :: Str.split sep rest).
    simpl in *. destruct (Ascii.eqb c sep); [discriminate|].
    destruct (Str.split sep w) as [|w1 ws1] eqn:Hsplit.
    + by destruct (split_not_nil sep w).
    + injection Hw as -> ->. rewrite IH by reflexivity. reflexivity.
Qed.

Lemma split_join (sep : ascii) (ps : list string) :
  ps ≠ [] →
  Forall (λ p, Str.split sep p = [p]) ps →
  Str.split sep (Str.join (String sep "") ps) = ps.
Proof.
  intros Hne Hps. induction Hps as [|p ps Hp Hps IH]; [done|].
  destruct ps as [|q ps]; [exact Hp|].
  change (Str.split sep (p +:+ String sep (Str.join (String sep "") (q :: ps)))
          = p :: q :: ps).
  rewrite split_atomic_app by exact Hp. by rewrite IH.
Qed.


Lemma component_head (p : string) :
  pathlib.component p → ∃ c tail, p = String c tail ∧ c ≠ "/"%char.
Proof.
  intros [Hc Hsplit]. destruct p as [|c tail]; [discriminate Hc|].
  exists c, tail. split; [reflexivity|]. intros ->.
  simpl in Hsplit. discriminate Hsplit.
Qed.

Lemma splitroot_no_root (c : ascii) (tail : string) :
  c ≠ "/"%char → pathlib.splitroot (String c tail) = (""%string, String c tail).
Proof.
  intros Hc. destruct c as [[] [] [] [] [] [] [] []]; try reflexivity.
  by destruct Hc.
Qed.

Lemma splitroot_one (c : ascii) (tail : string) :
  c ≠ "/"%char →
  pathlib.splitroot (String "/" (String c tail)) = ("/"%string, String c tail).
Proof.
  intros Hc. destruct c as [[] [] [] [] [] [] [] []]; try reflexivity.
  by destruct Hc.
Qed.

Lemma splitroot_two (c : ascii) (tail : string) :
  c ≠ "/"%char →
  pathlib.splitroot (String "/" (String "/" (String c tail)))
  = ("//"%string, String c tail).
Proof.
  intros Hc. destruct c as [[] [] [] [] [] [] [] []]; try reflexivity.
  by destruct Hc.
Qed.

Lemma filter_components (ps : list string) :
  Forall pathlib.component ps → List.filter pathlib.is_component ps = ps.
Proof.
  induction 1 as [|p ps [Hp _] _ IH]; [reflexivity|].
  simpl. by rewrite Hp, IH.
Qed.

Lemma parse_parts_components (s : string) :
  Forall pathlib.component (pathlib.parse_parts s).2.
Proof.
  unfold pathlib.parse_parts. destruct (pathlib.splitroot s) as [root rest].
  simpl. apply Forall_forall. intros p Hp.
  apply list_elem_of_In, filter_In in Hp as [Hp Hc].
  split; [exact Hc|]. apply (split_words_atomic "/" rest).
  by apply list_elem_of_In.
Qed.

Lemma parse_parts_root (s : string) :
  (pathlib.parse_parts s).1 = ""%string
  ∨ (pathlib.parse_parts s).1 = "/"%string
  ∨ (pathlib.parse_parts s).1 = "//"%string.
Proof.
  unfold pathlib.parse_parts.
  destruct s as [|c1 s]; [auto|].
  destruct (ascii_dec c1 "/") as [->|H1];
    [|rewrite (splitroot_no_root _ _ H1); auto].
  destruct s as [|c2 s]; [auto|].
  destruct (ascii_dec c2 "/") as [->|H2];
    [|rewrite (splitroot_one _ _ H2); auto].
  destruct s as [|c3 s]; [auto|].
  destruct (ascii_dec c3 "/") as [->|H3];
    [auto | rewrite (splitroot_two _ _ H3); auto].
Qed.

Lemma parse_format_parts (root : string) (ps : list string) :
  root = ""%string ∨ root = "/"%string ∨ root = "//"%string →
  Forall pathlib.component ps →
  pathlib.parse_parts (pathlib.format_parts (root, ps)) = (root, ps).
Proof.
  intros Hroot Hps. destruct ps as [|p ps].
  - destruct Hroot as [->|[->| ->]]; reflexivity.
  - assert (pathlib.format_parts (root, p :: ps)
            = root +:+ Str.join "/" (p :: ps)) as ->.
    { by destruct root. }
    assert (Str.split "/" (Str.join "/" (p :: ps)) = p :: ps) as Hsplit.
    { apply split_join; [discriminate|].
      eapply Forall_impl; [exact Hps|]. by intros q [_ Hq]. }
    assert (∃ c tail, Str.join "/" (p :: ps) = String c tail ∧ c ≠ "/"%char)
      as (c & tail & Hjoin & Hc).
    { destruct (component_head p) as (c & tail & -> & Hc);
        [by inversion Hps|].
      destruct ps; [by exists c, tail|].
      eexists c, _. split; [reflexivity | exact Hc]. }
    unfold pathlib.parse_parts.
    destruct Hroot as [->|[->| ->]].
    + change (""%string +:+ Str.join "/" (p :: ps)) with (Str.join "/" (p :: ps)).
      rewrite Hjoin, (splitroot_no_root _ _ Hc), <- Hjoin, Hsplit.
      by rewrite filter_components.
    + change ("/"%string +:+ Str.join "/" (p :: ps))
        with (String "/" (Str.join "/" (p :: ps))).
      rewrite Hjoin, (splitroot_one _ _ Hc), <- Hjoin, Hsplit.
      by rewrite filter_components.
    + change ("//"%string +:+ Str.join "/" (p :: ps))
        with (String "/" (String "/" (Str.join "/" (p :: ps)))).
      rewrite Hjoin, (splitroot_two _ _ Hc), <- Hjoin, Hsplit.
      by rewrite filter_components.
Qed.

(** [Path(str(Path(s)))] is [Path(s)]. *)
Lemma Path_of_str_idempotent (s : string) :
  Manifest.normal (pathlib.Path_of_str s).
Proof.
  unfold Manifest.normal, pathlib.Path_of_str.
  destruct (pathlib.parse_parts s) as [root ps] eqn:Hparse.
  rewrite parse_format_parts; [reflexivity| |].
  - pose proof (parse_parts_root s) as H. by rewrite Hparse in H.
  - pose proof (parse_parts_components s) as H. by rewrite Hparse in H.
Qed.

(** The paths that the constructors store are in normal form. *)
Lemma py_Path_normal (v : json) (p : Path) :
  Manifest.py_Path v = Ok p → Manifest.normal p.
Proof.
  destruct v; try discriminate. intros [= <-]. apply Path_of_str_idempotent.
Qed.

End PathFacts.

(** ** Manifest entries *)

Section ManifestFacts.

Import Manifest.

Variable json_dumps : json → string.
Variable json_loads : string → option json.
Variable int_of_str : string → result Z.
Variable float_of_str : string → result float.

(** The tag of an entry is a key of the table, for its own class. *)
Lemma type_registered (e : ManifestEntry) :
  assoc (type e) ENTRY_TYPE_TO_CLASS = Some (class_of e).
Proof. destruct e; vm_compute; reflexivity. Qed.

(** A line made of a tag, a space and a text between braces is left
    alone by [strip] and cut after the tag by [split]. *)
Lemma strip_line (e : ManifestEntry) (body : string) :
  Str.strip (type e +:+ " " +:+ "{" +:+ body +:+ "}")
  = type e +:+ " " +:+ "{" +:+ body +:+ "}".
Proof.
  unfold Str.strip.
  assert (Str.lstrip (type e +:+ " " +:+ "{" +:+ body +:+ "}")
          = type e +:+ " " +:+ "{" +:+ body +:+ "}") as -> by (destruct e; reflexivity).
  rewrite <- !append_assoc. apply rstrip_closing.
Qed.

Lemma split_line (e : ManifestEntry) (body : string) :
  Str.split_maxsplit_1 (type e +:+ " " +:+ "{" +:+ body +:+ "}")
  = [type e; "{" +:+ body +:+ "}"].
Proof. destruct e; vm_compute; reflexivity. Qed.

(** The constructor of the class of an entry, given the fields that
    [to_json] lists, builds the entry again. *)
Lemma instantiate_to_json (e : ManifestEntry) :
  well_formed e →
  ∃ kv, to_json e = JObject kv
        ∧ instantiate int_of_str float_of_str (class_of e) kv = Ok e.
Proof.
  intros Hwf.
  destruct e as [n s|n s|n s d t|[]|t|n s|n s d];
    simpl in Hwf; unfold normal in Hwf;
    (eexists; split; [reflexivity|]);
    unfold instantiate, class_of; lazy beta iota zeta;
    match goal with
    | |- context [bool_decide ?P] =>
      assert (bool_decide P = false) as -> by (vm_compute; reflexivity)
    end;
    match goal with
    | |- context [init_info ?ks ?info] =>
      let r := eval vm_compute in (init_info ks info) in
      assert (init_info ks info = r) as -> by (vm_compute; reflexivity)
    end;
    cbn [mbind result_bind py_int py_Path py_float];
    rewrite ?Hwf; reflexivity.
Qed.

(** Every entry that a constructor returns is well formed. *)
Lemma instantiate_well_formed (cls : class) (info : list (string * json))
    (e : ManifestEntry) :
  instantiate int_of_str float_of_str cls info = Ok e → well_formed e.
Proof.
  unfold instantiate. intros H.
  destruct (bool_decide _); [discriminate|].
  destruct cls; try discriminate;
    apply bind_Ok in H as (vs & _ & H);
    repeat (destruct vs as [|? vs]; try discriminate);
    repeat (apply bind_Ok in H as (? & ? & H));
    injection H as <-; simpl; eauto using py_Path_normal.
Qed.

Lemma parse_to_str (e : ManifestEntry) :
  well_formed e →
  (∃ body, json_dumps (to_json e) = "{" +:+ body +:+ "}") →
  json_loads (json_dumps (to_json e)) = Some (to_json e) →
  parse_manifest_entry json_loads int_of_str float_of_str (to_str json_dumps e)
  = Ok e.
Proof.
  intros Hwf [body Hbody] Hloads.
  destruct (instantiate_to_json e Hwf) as (kv & Hkv & Hinst).
  unfold parse_manifest_entry, to_str. rewrite Hbody in *.
  rewrite strip_line, split_line, type_registered, Hloads, Hkv.
  exact Hinst.
Qed.

Lemma parse_unknown_type (line type info : string) :
  Str.split_maxsplit_1 (Str.strip line) = [type; info] →
  assoc type ENTRY_TYPE_TO_CLASS = None →
  parse_manifest_entry json_loads int_of_str float_of_str line = Raise KeyError.
Proof. intros Hsplit Hassoc. unfold parse_manifest_entry. by rewrite Hsplit, Hassoc. Qed.

Lemma parse_malformed_json (line type info : string) (cls : class) :
  Str.split_maxsplit_1 (Str.strip line) = [type; info] →
  assoc type ENTRY_TYPE_TO_CLASS = Some cls →
  json_loads info = None →
  parse_manifest_entry json_loads int_of_str float_of_str line
  = Raise JSONDecodeError.
Proof.
  intros Hsplit Hassoc Hloads. unfold parse_manifest_entry.
  by rewrite Hsplit, Hassoc, Hloads.
Qed.

End ManifestFacts.

(** ** Equality of entries *)

Section EqualityFacts.

Import Manifest.

Lemma json_nested_ind (P : json → Prop) :
  P JNull → (∀ b, P (JBool b)) → (∀ z, P (JInt z)) → (∀ g, P (JFloat g)) →
  (∀ s, P (JStr s)) →
  (∀ l, Forall P l → P (JList l)) →
  (∀ kv, Forall (λ member, P member.2) kv → P (JObject kv)) →
  ∀ v, P v.
Proof.
  intros Hnull Hbool Hint Hfloat Hstr Hlist Hobject. fix IH 1.
  intros [|b|z|g|s|l|kv];
    [exact Hnull | apply Hbool | apply Hint | apply Hfloat | apply Hstr | | ].
  - apply Hlist. induction l as [|v l IHl]; constructor; [apply IH | apply IHl].
  - apply Hobject. induction kv as [|[k v] kv IHkv]; constructor;
      [apply IH | apply IHkv].
Qed.

Lemma all2_refl {A} (f : A → A → bool) (l : list A) :
  Forall (λ x, f x x = true) l → all2 f l l = true.
Proof. induction 1 as [|x l Hx _ IH]; simpl; [done|]. by rewrite Hx, IH. Qed.

Lemma assoc_app_fresh {A} (k : string) (pre rest : list (string * A)) :
  k ∉ pre.*1 → assoc k (pre ++ rest) = assoc k rest.
Proof.
  induction pre as [|[k' v] pre IH]; simpl; [done|].
  rewrite not_elem_of_cons. intros [Hne Hpre].
  destruct (String.eqb_spec k k'); [done | by apply IH].
Qed.

Lemma each_bound_refl {A} (f : A → A → bool) (pre rest : list (string * A))
    (seen : list string) :
  (∀ k, k ∈ seen ↔ k ∈ pre.*1) →
  Forall (λ member, f member.2 member.2 = true) rest →
  each_bound f (λ k, assoc k (pre ++ rest)) rest seen = true.
Proof.
  intros Hseen Hrest. revert pre seen Hseen.
  induction Hrest as [|[k v] rest Hv _ IH]; intros pre seen Hseen; simpl; [done|].
  assert (each_bound f (λ k0, assoc k0 (pre ++ (k, v) :: rest)) rest (k :: seen) = true)
    as ->.
  { assert (pre ++ (k, v) :: rest = (pre ++ [(k, v)]) ++ rest) as ->
      by (by rewrite <- app_assoc).
    apply IH. intros k'. rewrite fmap_app, elem_of_app, elem_of_cons, Hseen. simpl.
    rewrite list_elem_of_singleton. tauto. }
  rewrite andb_true_r. case_bool_decide as Hk; [done|].
  rewrite assoc_app_fresh by (by rewrite <- Hseen). simpl.
  by rewrite String.eqb_refl.
Qed.

(** A value without NaN is equal to itself. *)
Lemma py_eq_refl (v : json) : nan_free_json v = true → py_eq v v = true.
Proof.
  induction v as [|b|z|g|s|l IH|kv IH] using json_nested_ind; simpl; intros Hfree.
  - done.
  - by destruct b.
  - apply Z.eqb_refl.
  - unfold PrimFloat.is_nan in Hfree. by rewrite negb_involutive in Hfree.
  - apply String.eqb_refl.
  - apply all2_refl. rewrite forallb_forall in Hfree.
    rewrite Forall_forall in IH |- *. intros x Hx. apply IH; [done|].
    by apply Hfree, list_elem_of_In.
  - rewrite Nat.eqb_refl. simpl.
    apply (each_bound_refl py_eq [] kv []); [done|].
    rewrite forallb_forall in Hfree.
    rewrite Forall_forall in IH |- *. intros member Hx. apply IH; [done|].
    by apply Hfree, list_elem_of_In.
Qed.

Lemma path_eq_refl (p : Path) : path_eq p p = true.
Proof. unfold path_eq. by apply bool_decide_eq_true. Qed.

(** An entry without NaN is equal to itself. *)
Lemma entry_eq_refl (e : ManifestEntry) : nan_free e = true → entry_eq e e = true.
Proof.
  destruct e as [n s|n s|n s d t|r|t|n s|n s d]; simpl; intros Hfree;
    rewrite ?path_eq_refl, ?Z.eqb_refl; simpl; try done.
  - apply andb_prop in Hfree as [Hd Ht]. rewrite (py_eq_refl _ Hd). simpl.
    unfold PrimFloat.is_nan in Ht. by rewrite negb_involutive in Ht.
  - repeat (apply andb_prop in Hfree as [Hfree ?]).
    rewrite !py_eq_refl by done. simpl.
    match goal with H : negb (PrimFloat.is_nan _) = true |- _ =>
      unfold PrimFloat.is_nan in H; by rewrite negb_involutive in H end.
  - unfold PrimFloat.is_nan in Hfree. by rewrite negb_involutive in Hfree.
  - by apply py_eq_refl.
Qed.

End EqualityFacts.




(** * Further properties *)

(** ** The replay: what it raises, and when it is done *)

Section ReplayInvariant.

Import Reconcile.

Variable st_size : Path → option Z.

Lemma keyed_initial : Log.keyed initial.
Proof. intros [n Hn]. discriminate Hn. Qed.

Lemma py_isub_exn (v : json) (k : Z) (x : exn) :
  py_isub v k = Raise x → x = TypeError ∨ x = OverflowError.
Proof.
  destruct v; simpl; try (intros [= <-]; auto); try discriminate.
  unfold float_of_int. destruct (is_infinity _); simpl; [intros [= <-]; auto | discriminate].
Qed.

Lemma decrement_Ok (key : SyncRequestInfo → json)
    (set : json → SyncRequestInfo → SyncRequestInfo) (k : Z) (s s' : SyncState) :
  decrement key set k s = Ok s' →
  is_Some (request s') ∧ files s' = files s
  ∧ transfer_files s' = transfer_files s ∧ verified_files s' = verified_files s.
Proof.
  unfold decrement. destruct (request s) as [r|]; [|discriminate].
  destruct (py_isub (key r) k); simpl; [|discriminate].
  intros [= <-]. simpl. eauto.
Qed.

Lemma decrement_exn (key : SyncRequestInfo → json)
    (set : json → SyncRequestInfo → SyncRequestInfo) (k : Z) (s : SyncState) (x : exn) :
  is_Some (request s) →
  decrement key set k s = Raise x → x = TypeError ∨ x = OverflowError.
Proof.
  unfold decrement. intros [r ->].
  destruct (py_isub (key r) k) eqn:Hsub; simpl; [discriminate|].
  intros [= <-]. by apply (py_isub_exn _ _ _ Hsub).
Qed.

(** With the counters present, the test for remaining work raises
    nothing. *)
Lemma work_remaining_total (s : SyncState) (r : SyncRequestInfo) :
  request s = Some r → ∃ b, work_remaining s = Ok b.
Proof.
  intros Hr. unfold work_remaining, counter. rewrite Hr. simpl.
  repeat (destruct (truthy _) || destruct (negb _)); simpl; eauto.
Qed.

(** One iteration keeps the invariant. *)
Lemma analyze_step_keyed (a a' : Replay) (e : ManifestEntry) (n : nat) :
  Log.keyed a → analyze_step st_size a e n = Ok a' → Log.keyed a'.
Proof.
  intros Ha Hstep. destruct e as [f s|f s|f s d t|r|t|f s|f s d]; simpl in Hstep.
  - unfold on_request in Hstep.
    destruct (sync_request_start a) as [l|] eqn:Hstart; [|discriminate].
    destruct (bool_decide _); injection Hstep as <-; [exact Ha|].
    intros _. simpl. destruct Ha as [Hreq Hcount]; [eauto|]. split; [exact Hreq | exact Hcount].
  - unfold on_request in Hstep.
    destruct (sync_request_start a) as [l|] eqn:Hstart; [|discriminate].
    destruct (bool_decide _); injection Hstep as <-; [exact Ha|].
    intros _. simpl. destruct Ha as [Hreq Hcount]; [eauto|]. split; [exact Hreq | exact Hcount].
  - unfold on_verified in Hstep.
    destruct (sync_request_start a) as [l|] eqn:Hstart; [|discriminate].
    destruct (bool_decide _); [injection Hstep as <-; exact Ha|].
    destruct (files (sync_request a) !! f) as [anticipated|]; [|discriminate].
    destruct (negb _); [discriminate|].
    destruct (st_size f) as [local_size|]; [|discriminate].
    apply bind_Ok in Hstep as (s' & Hdec & Hstep). injection Hstep as <-.
    intros _. simpl. destruct Ha as [_ Hcount]; [eauto|]. split; [|exact Hcount].
    destruct (bool_decide _);
      apply bind_Ok in Hdec as (s1 & _ & Hdec);
      by apply decrement_Ok in Hdec as [? _].
  - injection Hstep as <-. intros _. simpl. split; [eauto | lia].
  - unfold on_done in Hstep.
    destruct (sync_request_start a) as [l|]; [|discriminate].
    destruct (work_remaining _) as [[]|]; simpl in Hstep; try discriminate.
    injection Hstep as <-. intros [l' Hl']. discriminate Hl'.
  - by injection Hstep as <-.
  - by injection Hstep as <-.
Qed.

(** One iteration raises no [KeyError]. *)
Lemma analyze_step_exn (a : Replay) (e : ManifestEntry) (n : nat) (x : exn) :
  Log.keyed a → analyze_step st_size a e n = Raise x →
  x = InconsistentManifest ∨ x = OSError ∨ x = TypeError ∨ x = OverflowError.
Proof.
  intros Ha Hstep. destruct e as [f s|f s|f s d t|r|t|f s|f s d]; simpl in Hstep;
    try discriminate.
  - unfold on_request in Hstep.
    destruct (sync_request_start a); [|injection Hstep as <-; auto].
    destruct (bool_decide _); discriminate.
  - unfold on_request in Hstep.
    destruct (sync_request_start a); [|injection Hstep as <-; auto].
    destruct (bool_decide _); discriminate.
  - unfold on_verified in Hstep.
    destruct (sync_request_start a) as [l|] eqn:Hstart; [|injection Hstep as <-; auto].
    destruct Ha as [Hreq _]; [eauto|].
    destruct (bool_decide _); [discriminate|].
    destruct (files (sync_request a) !! f); [|injection Hstep as <-; auto].
    destruct (negb _); [injection Hstep as <-; auto|].
    destruct (st_size f); [|injection Hstep as <-; auto].
    match type of Hstep with
    | ?m ≫= _ = _ => destruct m as [s'|y] eqn:Hdec; simpl in Hstep; [discriminate|]
    end.
    injection Hstep as <-. right. right.
    destruct (bool_decide _).
    + destruct (decrement files_to_transfer _ 1 _) as [s1|x1] eqn:H1; simpl in Hdec.
      * apply (decrement_exn _ _ _ _ _ (proj1 (decrement_Ok _ _ _ _ _ H1)) Hdec).
      * injection Hdec as <-. apply (decrement_exn _ _ _ _ _ Hreq H1).
    + destruct (decrement files_to_verify _ 1 _) as [s1|x1] eqn:H1; simpl in Hdec.
      * apply (decrement_exn _ _ _ _ _ (proj1 (decrement_Ok _ _ _ _ _ H1)) Hdec).
      * injection Hdec as <-. apply (decrement_exn _ _ _ _ _ Hreq H1).
  - unfold on_done in Hstep.
    destruct (sync_request_start a) as [l|] eqn:Hstart; [|injection Hstep as <-; auto].
    destruct Ha as [[r Hr] _]; [eauto|].
    destruct (work_remaining_total _ _ Hr) as [[] Hw]; rewrite Hw in Hstep;
      simpl in Hstep; [injection Hstep as <-; auto | discriminate].
Qed.

Lemma analyze_loop_keyed (entries : list (ManifestEntry * nat)) (a : Replay) :
  Log.keyed a →
  match analyze_loop st_size (Ok <$> entries) a with
  | Ok a' => Log.keyed a'
  | Raise x =>
    x = InconsistentManifest ∨ x = OSError ∨ x = TypeError ∨ x = OverflowError
  end.
Proof.
  revert a. induction entries as [|[e n] entries IH]; intros a Ha; simpl; [exact Ha|].
  destruct (analyze_step st_size a e n) as [a'|x] eqn:Hstep; simpl.
  - apply IH. by apply (analyze_step_keyed a a' e n).
  - by apply (analyze_step_exn a e n).
Qed.

Lemma analyze_loop_Ok_keyed (log : list (result (ManifestEntry * nat)))
    (a a' : Replay) :
  Log.keyed a → analyze_loop st_size log a = Ok a' → Log.keyed a'.
Proof.
  revert a. induction log as [|[[e n]|x] log IH]; intros a Ha Hloop; simpl in Hloop.
  - by injection Hloop as <-.
  - apply bind_Ok in Hloop as (a1 & Hstep & Hloop).
    apply (IH a1); [|exact Hloop]. by apply (analyze_step_keyed a a1 e n).
  - discriminate.
Qed.

(** A [TransferVerified] entry that the replay accepts leaves its file
    recorded as verified, in an open epoch. *)
Lemma on_verified_recorded (a a' : Replay) (fname : Path) (size : Z) (line : nat) :
  on_verified st_size fname size line a = Ok a' →
  is_Some (sync_request_start a')
  ∧ verified_files (sync_request a') !! fname = Some size.
Proof.
  unfold on_verified. intros H.
  destruct (sync_request_start a) as [l|] eqn:Hstart; [|discriminate].
  destruct (bool_decide _) eqn:Hnoop.
  { injection H as <-. split; [rewrite Hstart; eauto|].
    by apply bool_decide_eq_true in Hnoop. }
  destruct (files (sync_request a) !! fname); [|discriminate].
  destruct (negb _); [discriminate|].
  destruct (st_size fname); [|discriminate].
  apply bind_Ok in H as (s' & _ & H). injection H as <-. simpl.
  split; [eauto | apply lookup_insert_eq].
Qed.

End ReplayInvariant.

(** X1: on a manifest whose lines all parse, [analyze] never raises
    [KeyError]: the counters of [sync_request] are read and decremented
    only in an epoch that a [SyncRequest] has opened, and that line has
    put them there. *)
Theorem analyze_never_raises_key_error
    (st_size : Path → option Z) (now : float) (entries : list (ManifestEntry * nat)) :
  Reconcile.raised (Reconcile.analyze st_size now (Ok <$> entries)) ≠ Some KeyError.
Proof.
  unfold Reconcile.analyze.
  pose proof (analyze_loop_keyed st_size entries Reconcile.initial keyed_initial) as H.
  destruct (Reconcile.analyze_loop st_size (Ok <$> entries) Reconcile.initial)
    as [a|x]; simpl.
  - unfold Reconcile.conclude. destruct (negb _); simpl; [discriminate|].
    destruct (Reconcile.sync_request_start a) as [l|] eqn:Hstart.
    + destruct H as [[r Hr] _]; [eauto|].
      destruct (work_remaining_total _ _ Hr) as [[] ->]; rewrite ?Hr; simpl;
        discriminate.
    + destruct (_ <? _)%nat; simpl; discriminate.
  - destruct H as [->|[->|[->| ->]]]; discriminate.
Qed.

(** X2: a manifest in which no line is a [SyncRequest] makes [analyze]
    raise [InconsistentManifest]; nothing is appended. *)
Theorem analyze_without_sync_request
    (st_size : Path → option Z) (now : float) (entries : list (ManifestEntry * nat)) :
  (∀ item, item ∈ entries → Log.is_sync_request item.1 = false) →
  Reconcile.analyze st_size now (Ok <$> entries)
  = {| Reconcile.raised := Some InconsistentManifest;
       Reconcile.appended := [];
       Reconcile.messages := [] |}.
Proof.
  intros Hno.
  assert (Reconcile.analyze_loop st_size (Ok <$> entries) Reconcile.initial
          = Ok Reconcile.initial
          ∨ Reconcile.analyze_loop st_size (Ok <$> entries) Reconcile.initial
            = Raise InconsistentManifest) as Hloop.
  { induction entries as [|[e n] entries IH]; [by left|].
    pose proof (Hno (e, n) ltac:(apply elem_of_cons; auto)) as He.
    assert (∀ item, item ∈ entries → Log.is_sync_request item.1 = false) as Hrest.
    { intros item Hitem. apply Hno, elem_of_cons. auto. }
    destruct e; simpl in He; try discriminate; simpl; auto. }
  unfold Reconcile.analyze. by destruct Hloop as [-> | ->].
Qed.

Lemma analyze_without_sync_request_witness :
  Reconcile.analyze Scenario.disk 1%float
    (Ok <$> [(File "a" 100, 1%nat); (Metadata "a" 100 (JStr "da39"), 2%nat)])
  = {| Reconcile.raised := Some InconsistentManifest;
       Reconcile.appended := [];
       Reconcile.messages := [] |}.
Proof.
  apply (analyze_without_sync_request Scenario.disk 1%float
           [(File "a" 100, 1%nat); (Metadata "a" 100 (JStr "da39"), 2%nat)]).
  intros item Hitem.
  apply elem_of_cons in Hitem as [->|Hitem]; [reflexivity|].
  apply list_elem_of_singleton in Hitem as ->. reflexivity.
Defined.

(** X3: once [analyze] has returned without raising, running it again
    on the manifest it left, with the same files on disk, appends
    nothing and reports that all synchronizations are done. *)
Theorem analyze_again_is_done
    (st_size : Path → option Z) (now later : float)
    (log : list (result (ManifestEntry * nat))) (line : nat) :
  Reconcile.raised (Reconcile.analyze st_size now log) = None →
  Reconcile.analyze st_size later
    (log ++ Log.numbered line
              (Reconcile.appended (Reconcile.analyze st_size now log)))
  = {| Reconcile.raised := None;
       Reconcile.appended := [];
       Reconcile.messages := [Reconcile.AllSynchronizationsDone] |}.
Proof.
  intros Hraised.
  destruct (Reconcile.analyze_loop st_size log Reconcile.initial) as [a|x] eqn:Hloop;
    [|unfold Reconcile.analyze in Hraised; rewrite Hloop in Hraised; discriminate].
  pose proof (analyze_loop_Ok_keyed st_size log _ a keyed_initial Hloop) as Ha.
  assert (Reconcile.analyze st_size now log = Reconcile.conclude now a) as Hout.
  { unfold Reconcile.analyze. by rewrite Hloop. }
  rewrite Hout in *. clear Hout. unfold Reconcile.conclude in *.
  destruct (negb (bool_decide (Reconcile.mismatched_filesizes a = ∅))) eqn:Hmm;
    [discriminate|].
  destruct (Reconcile.sync_request_start a) as [l|] eqn:Hstart.
  - destruct Ha as [[r Hr] Hcount]; [eauto|].
    destruct (work_remaining_total _ _ Hr) as [[] Hw]; rewrite Hw, ?Hr in *;
      [discriminate|].
    simpl. unfold Reconcile.analyze.
    rewrite (analyze_loop_snoc _ _ _ _ _ _ Hloop). simpl.
    unfold Reconcile.on_done. rewrite Hstart, Hw. simpl.
    unfold Reconcile.conclude. simpl. rewrite Hmm.
    apply Nat.ltb_lt in Hcount. by rewrite Hcount.
  - destruct (0 <? Reconcile.sync_count a)%nat eqn:Hcount; [|discriminate].
    simpl. rewrite app_nil_r. unfold Reconcile.analyze.
    rewrite Hloop. unfold Reconcile.conclude. by rewrite Hmm, Hstart, Hcount.
Qed.

Lemma analyze_again_is_done_witness :
  Reconcile.analyze Scenario.disk 4%float
    (Scenario.reconciled_epoch
     ++ Log.numbered 4
          (Reconcile.appended
             (Reconcile.analyze Scenario.disk 3%float Scenario.reconciled_epoch)))
  = {| Reconcile.raised := None;
       Reconcile.appended := [];
       Reconcile.messages := [Reconcile.AllSynchronizationsDone] |}.
Proof.
  apply (analyze_again_is_done Scenario.disk 3%float 4%float
           Scenario.reconciled_epoch 4%nat).
  reflexivity.
Defined.

(** X4: a [TransferVerified] line that the replay accepts can be
    repeated right after itself, with any digest and timestamp, without
    changing the replay: the second line is the already-verified no-op. *)
Theorem repeated_verification_is_no_op
    (st_size : Path → option Z) (pre : list (result (ManifestEntry * nat)))
    (a' : Reconcile.Replay) (fname : Path) (size : Z)
    (digest digest' : json) (timestamp timestamp' : float) (line line' : nat) :
  Reconcile.analyze_loop st_size
    (pre ++ [Ok (TransferVerified fname size digest timestamp, line)])
    Reconcile.initial = Ok a' →
  Reconcile.analyze_loop st_size
    (pre ++ [Ok (TransferVerified fname size digest timestamp, line);
             Ok (TransferVerified fname size digest' timestamp', line')])
    Reconcile.initial = Ok a'.
Proof.
  intros H. rewrite analyze_loop_app in H.
  apply bind_Ok in H as (a & Hpre & H). simpl in H.
  apply bind_Ok in H as (a1 & Hstep & H). injection H as ->.
  rewrite (analyze_loop_snoc _ _ _ _ _ _ Hpre). simpl. rewrite Hstep. simpl.
  destruct (on_verified_recorded st_size _ _ _ _ _ Hstep) as [[l Hstart] Hverified].
  unfold Reconcile.on_verified.
  rewrite Hstart, bool_decide_eq_true_2 by exact Hverified. reflexivity.
Qed.

Lemma repeated_verification_is_no_op_witness :
  Reconcile.analyze_loop Scenario.disk
    (Scenario.open_epoch
     ++ [Ok (TransferVerified "a" 100 (JStr "da39") 2%float, 3%nat);
         Ok (TransferVerified "a" 100 (JStr "da39") 5%float, 4%nat)])
    Reconcile.initial = Ok Scenario.reconciled_state.
Proof.
  apply (repeated_verification_is_no_op Scenario.disk Scenario.open_epoch
           Scenario.reconciled_state "a" 100 (JStr "da39") (JStr "da39")
           2%float 5%float 3%nat 4%nat).
  reflexivity.
Defined.

(** ** The diff: what it schedules and what it writes *)

Section DiffMore.

Import Diff.

Lemma files_verified_Ok (entries : list (ManifestEntry * nat)) (acc : gset Path) :
  ∃ verified, files_verified (Ok <$> entries) acc = Ok verified.
Proof.
  revert acc. induction entries as [|[e n] entries IH]; intros acc; simpl; [eauto|].
  destruct e; apply IH.
Qed.

Lemma elem_of_sorted (names : gset Path) (fname : Path) :
  fname ∈ pathlib.sorted names ↔ fname ∈ names.
Proof.
  unfold pathlib.sorted. rewrite merge_sort_Permutation. apply elem_of_elements.
Qed.

(** The requests for a list of names are written, and their sizes
    summed, when every name is in the source inventory. *)
Lemma requests_Ok (mk : Path → Z → ManifestEntry) (src_files : gmap Path Z)
    (names : list Path) :
  Forall (λ fname, is_Some (src_files !! fname)) names →
  ∃ es total,
    requests mk src_files names = Ok es
    ∧ sum_sizes src_files names = Ok total
    ∧ length es = length names
    ∧ Forall2 (λ e fname, ∃ size, src_files !! fname = Some size ∧ e = mk fname size)
        es names.
Proof.
  induction 1 as [|fname names [size Hsize] _ (es & total & Hes & Htotal & Hlen & Hall)].
  - exists [], 0. repeat split; constructor.
  - exists (mk fname size :: es), (size + total). simpl.
    rewrite Hsize, Hes, Htotal. simpl. repeat split; [by rewrite Hlen|].
    constructor; eauto.
Qed.

Lemma sum_sizes_missing (src_files : gmap Path Z) (names : list Path) (fname : Path) :
  fname ∈ names → src_files !! fname = None →
  sum_sizes src_files names = Raise KeyError.
Proof.
  intros Hin Hnone. induction names as [|g names IH]; [by apply elem_of_nil in Hin|].
  simpl. destruct (src_files !! g) as [size|] eqn:Hg; [|reflexivity].
  apply elem_of_cons in Hin as [->|Hin]; [congruence|].
  by rewrite IH.
Qed.

Lemma sum_sizes_exn (src_files : gmap Path Z) (names : list Path) (x : exn) :
  sum_sizes src_files names = Raise x → x = KeyError.
Proof.
  induction names as [|g names IH]; simpl; [discriminate|].
  destruct (src_files !! g); [|by intros [= <-]].
  destruct (sum_sizes src_files names); simpl; [discriminate|].
  intros [= <-]. by apply IH.
Qed.

Lemma requests_sizes (mk : Path → Z → ManifestEntry) (src_files : gmap Path Z)
    (names : list Path) (es : list ManifestEntry) (total : Z) :
  (∀ fname size, Log.entry_size (mk fname size) = size) →
  requests mk src_files names = Ok es →
  sum_sizes src_files names = Ok total →
  length es = length names ∧ Log.total_size es = total
  ∧ Forall (λ e, ∃ fname size,
              fname ∈ names ∧ src_files !! fname = Some size ∧ e = mk fname size) es.
Proof.
  intros Hmk. revert es total.
  induction names as [|fname names IH]; intros es total Hes Htotal; simpl in *.
  - injection Hes as <-. injection Htotal as <-. repeat split. constructor.
  - destruct (src_files !! fname) as [size|] eqn:Hsize; [|discriminate].
    apply bind_Ok in Hes as (es' & Hes' & Hes). injection Hes as <-.
    apply bind_Ok in Htotal as (total' & Htotal' & Htotal). injection Htotal as <-.
    destruct (IH es' total' Hes' Htotal') as (Hlen & Hsum & Hall).
    split; [simpl; by rewrite Hlen|]. split.
    + unfold Log.total_size in *. simpl. by rewrite Hmk, Hsum.
    + constructor.
      * exists fname, size. split; [apply elem_of_cons; auto | auto].
      * eapply Forall_impl; [exact Hall|].
        intros e (g & s & Hg & Hs & ->). exists g, s.
        split; [apply elem_of_cons; auto | auto].
Qed.

End DiffMore.

Lemma write_inner_dag_inv (direction : TransferDirection)
    (remote_prefix local_prefix : Path) (remote_files scanned : gmap Path Z)
    (log : list (result (ManifestEntry * nat))) (now : float) (w : Diff.Written) :
  Diff.write_inner_dag direction remote_prefix local_prefix remote_files scanned
    log now = Ok w →
  ∃ to_transfer to_verify transfers verifies bytes_to_transfer bytes_to_verify,
    let src_files :=
      (Diff.src_dest direction remote_files
         (delete Diff.TRANSFER_MANIFEST_FILE_NAME scanned)).1 in
    Diff.diff direction remote_files
      (delete Diff.TRANSFER_MANIFEST_FILE_NAME scanned) log
      = Ok (to_transfer, to_verify)
    ∧ Diff.requests TransferRequest src_files (pathlib.sorted to_transfer)
      = Ok transfers
    ∧ Diff.requests VerifyRequest src_files (pathlib.sorted to_verify) = Ok verifies
    ∧ Diff.sum_sizes src_files (pathlib.sorted to_transfer) = Ok bytes_to_transfer
    ∧ Diff.sum_sizes src_files (pathlib.sorted to_verify) = Ok bytes_to_verify
    ∧ Diff.appended w
      = SyncRequest
          (Build_SyncRequestInfo
             (JStr (direction_value direction)) remote_prefix
             (JInt (Z.of_nat (size src_files)))
             (JInt (Z.of_nat (length (pathlib.sorted to_transfer))))
             (JInt bytes_to_transfer)
             (JInt (Z.of_nat (length (pathlib.sorted to_verify))))
             (JInt bytes_to_verify) now)
        :: transfers ++ verifies.
Proof.
  unfold Diff.write_inner_dag. intros H.
  destruct (Diff.src_dest direction remote_files
              (delete Diff.TRANSFER_MANIFEST_FILE_NAME scanned))
    as [src_files dest_files] eqn:Hsd.
  apply bind_Ok in H as ([to_transfer to_verify] & Hdiff & H).
  apply bind_Ok in H as (btt & Hbtt & H).
  apply bind_Ok in H as (btv & Hbtv & H).
  apply bind_Ok in H as (ts & Hts & H).
  apply bind_Ok in H as (vs & Hvs & H).
  injection H as <-. simpl in *.
  exists to_transfer, to_verify, ts, vs, btt, btv. auto 10.
Qed.

(** Where the two sets of the diff lie. *)
Lemma diff_sets_within
    (direction : TransferDirection) (remote_files local_files : gmap Path Z)
    (log : list (result (ManifestEntry * nat))) (to_transfer to_verify : gset Path) :
  Diff.diff direction remote_files local_files log = Ok (to_transfer, to_verify) →
  to_transfer ⊆ dom (Diff.src_dest direction remote_files local_files).1
  ∧ to_verify ⊆ dom remote_files
  ∧ to_transfer ## to_verify.
Proof.
  unfold Diff.diff. intros H.
  destruct (Diff.src_dest direction remote_files local_files)
    as [src_files dest_files].
  apply bind_Ok in H as (verified & _ & H). injection H as <- <-. simpl.
  split; [|split].
  - intros fname Hin. apply elem_of_files_to_transfer in Hin as (size & Hsize & _).
    apply elem_of_dom. eauto.
  - intros fname Hin. by apply elem_of_files_to_verify in Hin as [? _].
  - intros fname Hin Hin'. by apply elem_of_files_to_verify in Hin' as (_ & ? & _).
Qed.

(** X5: the two sets of the diff are disjoint; the files to transfer are
    files of the source inventory, the files to verify are files of the
    remote inventory. *)
Theorem diff_sets_disjoint
    (direction : TransferDirection) (remote_files local_files : gmap Path Z)
    (log : list (result (ManifestEntry * nat))) (to_transfer to_verify : gset Path) :
  Diff.diff direction remote_files local_files log = Ok (to_transfer, to_verify) →
  to_transfer ⊆ dom (Diff.src_dest direction remote_files local_files).1
  ∧ to_verify ⊆ dom remote_files
  ∧ to_transfer ## to_verify.
Proof. apply diff_sets_within. Qed.

Lemma diff_sets_disjoint_witness :
  ({["b"%string]} : gset Path)
    ⊆ dom (Diff.src_dest PULL Scenario.remote_files Scenario.local_files).1
  ∧ ({["a"%string]} : gset Path) ⊆ dom Scenario.remote_files
  ∧ ({["b"%string]} : gset Path) ## {["a"%string]}.
Proof.
  apply (diff_sets_disjoint PULL Scenario.remote_files Scenario.local_files []).
  vm_compute. reflexivity.
Defined.

(** X6: when the two inventories are equal and the manifest holds a
    [TransferVerified] line for every file in them, the diff schedules
    nothing, in either direction. *)
Theorem diff_of_synchronized_is_empty
    (direction : TransferDirection) (files : gmap Path Z)
    (entries : list (ManifestEntry * nat)) :
  (∀ fname, fname ∈ dom files →
     ∃ size digest timestamp line,
       (TransferVerified fname size digest timestamp, line) ∈ entries) →
  Diff.diff direction files files (Ok <$> entries) = Ok (∅, ∅).
Proof.
  intros Hall. unfold Diff.diff.
  assert (Diff.src_dest direction files files = (files, files)) as ->
    by (by destruct direction).
  destruct (files_verified_Ok entries ∅) as [verified Hverified].
  rewrite Hverified. simpl. f_equal. f_equal.
  - apply elem_of_equiv_empty_L. intros fname Hin.
    apply elem_of_files_to_transfer in Hin as (size & Hsize & Hne).
    apply Hne. unfold Diff.get. by rewrite Hsize.
  - apply elem_of_equiv_empty_L. intros fname Hin.
    apply elem_of_files_to_verify in Hin as (Hdom & _ & Hno).
    apply Hno. apply (elem_of_files_verified _ _ _ _ Hverified). right.
    destruct (Hall fname Hdom) as (size & d & t & l & Hentry).
    exists size, d, t, l. by apply list_elem_of_fmap_2.
Qed.

Lemma diff_of_synchronized_is_empty_witness :
  Diff.diff PUSH Scenario.local_files Scenario.local_files
    (Ok <$> [(TransferVerified "a" 50 (JStr "da39") 1%float, 1%nat)])
  = Ok (∅, ∅).
Proof.
  apply (diff_of_synchronized_is_empty PUSH Scenario.local_files
           [(TransferVerified "a" 50 (JStr "da39") 1%float, 1%nat)]).
  intros fname Hin. unfold Scenario.local_files in Hin.
  rewrite dom_insert_L, dom_empty_L, elem_of_union, elem_of_singleton,
    elem_of_empty in Hin.
  destruct Hin as [->|[]].
  exists 50, (JStr "da39"), 1%float, 1%nat. apply list_elem_of_singleton. reflexivity.
Defined.

(** X7: what [write_inner_dag] appends is one [SyncRequest], then only
    [TransferRequest] lines, then only [VerifyRequest] lines; the
    counters of the [SyncRequest] are the numbers of those lines and the
    sums of the sizes they record. *)
Theorem write_inner_dag_counters
    (dir : TransferDirection) (prefix local_prefix : Path)
    (remote_files scanned : gmap Path Z)
    (log : list (result (ManifestEntry * nat))) (now : float) (w : Diff.Written) :
  Diff.write_inner_dag dir prefix local_prefix remote_files scanned
    log now = Ok w →
  ∃ r transfers verifies,
    Diff.appended w = SyncRequest r :: transfers ++ verifies
    ∧ Forall (λ e, ∃ fname size, e = TransferRequest fname size) transfers
    ∧ Forall (λ e, ∃ fname size, e = VerifyRequest fname size) verifies
    ∧ files_to_transfer r = JInt (Z.of_nat (length transfers))
    ∧ bytes_to_transfer r = JInt (Log.total_size transfers)
    ∧ files_to_verify r = JInt (Z.of_nat (length verifies))
    ∧ bytes_to_verify r = JInt (Log.total_size verifies)
    ∧ direction r = JStr (direction_value dir)
    ∧ remote_prefix r = prefix
    ∧ sr_timestamp r = now.
Proof.
  intros H.
  apply write_inner_dag_inv in H
    as (tt & tv & ts & vs & btt & btv & _ & Hts & Hvs & Hbtt & Hbtv & Happ).
  simpl in *.
  destruct (requests_sizes TransferRequest _ _ _ _ (λ _ _, eq_refl) Hts Hbtt)
    as (Hlen_t & Hsum_t & Hall_t).
  destruct (requests_sizes VerifyRequest _ _ _ _ (λ _ _, eq_refl) Hvs Hbtv)
    as (Hlen_v & Hsum_v & Hall_v).
  eexists _, ts, vs. split; [exact Happ|]. simpl.
  rewrite Hlen_t, Hlen_v, Hsum_t, Hsum_v.
  split; [eapply Forall_impl; [exact Hall_t|]; intros e (f & s & _ & _ & ->); eauto|].
  split; [eapply Forall_impl; [exact Hall_v|]; intros e (f & s & _ & _ & ->); eauto|].
  auto 10.
Qed.

Lemma write_inner_dag_counters_witness :
  ∃ r transfers verifies,
    [SyncRequest
       {| direction := JStr "pull"; remote_prefix := "/remote";
          files_at_source := JInt 2;
          files_to_transfer := JInt 1; bytes_to_transfer := JInt 200;
          files_to_verify := JInt 1; bytes_to_verify := JInt 100;
          sr_timestamp := 1%float |};
     TransferRequest "b" 200; VerifyRequest "a" 100]
    = SyncRequest r :: transfers ++ verifies
    ∧ Forall (λ e, ∃ fname size, e = TransferRequest fname size) transfers
    ∧ Forall (λ e, ∃ fname size, e = VerifyRequest fname size) verifies
    ∧ files_to_transfer r = JInt (Z.of_nat (length transfers))
    ∧ bytes_to_transfer r = JInt (Log.total_size transfers)
    ∧ files_to_verify r = JInt (Z.of_nat (length verifies))
    ∧ bytes_to_verify r = JInt (Log.total_size verifies)
    ∧ direction r = JStr (direction_value PULL)
    ∧ remote_prefix r = "/remote"%string
    ∧ sr_timestamp r = 1%float.
Proof.
  apply (write_inner_dag_counters PULL "/remote" "/local" Scenario.remote_files
           Scenario.local_files [] 1%float
           {| Diff.transfer_cmd_info :=
                Diff.make_cmd_info ["b"%string] "/remote" "/local"
                  "/local/transfer_manifest.txt";
              Diff.verify_cmd_info :=
                Diff.make_cmd_info ["a"%string] "/remote" "/local"
                  "/local/transfer_manifest.txt";
              Diff.appended :=
                [SyncRequest
                   {| direction := JStr "pull"; remote_prefix := "/remote";
                      files_at_source := JInt 2;
                      files_to_transfer := JInt 1; bytes_to_transfer := JInt 200;
                      files_to_verify := JInt 1; bytes_to_verify := JInt 100;
                      sr_timestamp := 1%float |};
                 TransferRequest "b" 200; VerifyRequest "a" 100] |}).
  vm_compute. reflexivity.
Defined.

Lemma sum_sizes_Ok_inv (src_files : gmap Path Z) (names : list Path) (total : Z) :
  Diff.sum_sizes src_files names = Ok total →
  Forall (λ fname, is_Some (src_files !! fname)) names.
Proof.
  revert total. induction names as [|fname names IH]; intros total H; [constructor|].
  simpl in H. destruct (src_files !! fname) as [size|] eqn:Hsize; [|discriminate].
  apply bind_Ok in H as (total' & H & _). constructor; [eauto | by eapply IH].
Qed.

Lemma sorted_in_dom (names : gset Path) (files : gmap Path Z) :
  names ⊆ dom files →
  Forall (λ fname, is_Some (files !! fname)) (pathlib.sorted names).
Proof.
  intros Hsub. apply Forall_forall. intros fname Hin.
  apply elem_of_dom, Hsub. by apply elem_of_sorted.
Qed.

(** X8: [write_inner_dag] returns only if every file to verify is in
    the source inventory, and then each request line it has appended is
    for a file of its set, to transfer or to verify, with the size that
    the source inventory has for that file. *)
Theorem write_inner_dag_requests_from_source
    (dir : TransferDirection) (prefix local_prefix : Path)
    (remote_files scanned : gmap Path Z)
    (log : list (result (ManifestEntry * nat))) (now : float)
    (to_transfer to_verify : gset Path) (w : Diff.Written) :
  Diff.diff dir remote_files (delete Diff.TRANSFER_MANIFEST_FILE_NAME scanned) log
    = Ok (to_transfer, to_verify) →
  Diff.write_inner_dag dir prefix local_prefix remote_files scanned log now = Ok w →
  let src_files :=
    (Diff.src_dest dir remote_files
       (delete Diff.TRANSFER_MANIFEST_FILE_NAME scanned)).1 in
  to_verify ⊆ dom src_files
  ∧ (∀ fname size,
       TransferRequest fname size ∈ Diff.appended w →
       fname ∈ to_transfer ∧ src_files !! fname = Some size)
  ∧ (∀ fname size,
       VerifyRequest fname size ∈ Diff.appended w →
       fname ∈ to_verify ∧ src_files !! fname = Some size).
Proof.
  intros Hdiff Hw src_files.
  apply write_inner_dag_inv in Hw
    as (tt & tv & ts & vs & btt & btv & Hdiff' & Hts & Hvs & Hbtt & Hbtv & Happ).
  simpl in Hdiff', Hts, Hvs, Hbtt, Hbtv. fold src_files in Hts, Hvs, Hbtt, Hbtv.
  rewrite Hdiff in Hdiff'. injection Hdiff' as <- <-.
  destruct (requests_sizes TransferRequest _ _ _ _ (λ _ _, eq_refl) Hts Hbtt)
    as (_ & _ & Hall_t).
  destruct (requests_sizes VerifyRequest _ _ _ _ (λ _ _, eq_refl) Hvs Hbtv)
    as (_ & _ & Hall_v).
  rewrite Forall_forall in Hall_t, Hall_v. rewrite Happ.
  split; [|split].
  - intros fname Hin. apply elem_of_dom.
    apply sum_sizes_Ok_inv in Hbtv.
    apply (proj1 (Forall_forall _ _) Hbtv). by apply elem_of_sorted.
  - intros fname size [Hin|Hin]%elem_of_cons; [discriminate Hin|].
    apply elem_of_app in Hin as [Hin|Hin].
    + destruct (Hall_t _ Hin) as (g & s & Hg & Hs & [= -> ->]).
      split; [by apply elem_of_sorted | done].
    + destruct (Hall_v _ Hin) as (g & s & _ & _ & Habsurd). discriminate Habsurd.
  - intros fname size [Hin|Hin]%elem_of_cons; [discriminate Hin|].
    apply elem_of_app in Hin as [Hin|Hin].
    + destruct (Hall_t _ Hin) as (g & s & _ & _ & Habsurd). discriminate Habsurd.
    + destruct (Hall_v _ Hin) as (g & s & Hg & Hs & [= -> ->]).
      split; [by apply elem_of_sorted | done].
Qed.

Lemma write_inner_dag_requests_from_source_witness :
  ∃ w,
    Diff.write_inner_dag PULL "/remote" "/local" Scenario.remote_files
      Scenario.local_files [] 1%float = Ok w
    ∧ ({["a"%string]} : gset Path)
        ⊆ dom (Diff.src_dest PULL Scenario.remote_files
                 (delete Diff.TRANSFER_MANIFEST_FILE_NAME Scenario.local_files)).1.
Proof.
  assert (∃ w, Diff.write_inner_dag PULL "/remote" "/local" Scenario.remote_files
                 Scenario.local_files [] 1%float = Ok w) as [w Hw].
  { destruct (Diff.write_inner_dag _ _ _ _ _ _ _) as [w|x] eqn:Hw;
      [eauto | vm_compute in Hw; discriminate Hw]. }
  exists w. split; [exact Hw|].
  apply (write_inner_dag_requests_from_source PULL "/remote" "/local"
           Scenario.remote_files Scenario.local_files [] 1%float
           {["b"%string]} {["a"%string]} w); [|exact Hw].
  vm_compute. reflexivity.
Defined.

(** X9: the transfer manifest is kept out of the transfers of a push,
    whatever the local scan found under its name; for a pull, a remote
    file of that name (of a size that is not negative) is always
    requested for transfer. *)
Theorem transfer_manifest_is_popped_for_push_only
    (dir : TransferDirection) (prefix local_prefix : Path)
    (remote_files scanned : gmap Path Z)
    (log : list (result (ManifestEntry * nat))) (now : float) (w : Diff.Written) :
  Diff.write_inner_dag dir prefix local_prefix remote_files scanned log now = Ok w →
  (dir = PUSH →
   ∀ size, TransferRequest Diff.TRANSFER_MANIFEST_FILE_NAME size ∉ Diff.appended w)
  ∧ (dir = PULL →
     ∀ size, remote_files !! Diff.TRANSFER_MANIFEST_FILE_NAME = Some size →
             0 ≤ size →
             TransferRequest Diff.TRANSFER_MANIFEST_FILE_NAME size ∈ Diff.appended w).
Proof.
  intros H.
  apply write_inner_dag_inv in H
    as (tt & tv & ts & vs & btt & btv & Hdiff & Hts & Hvs & Hbtt & Hbtv & Happ).
  simpl in *.
  destruct (diff_sets_within _ _ _ _ _ _ Hdiff) as (Htt & _ & _).
  destruct (requests_sizes TransferRequest _ _ _ _ (λ _ _, eq_refl) Hts Hbtt)
    as (_ & _ & Hall_t).
  destruct (requests_sizes VerifyRequest _ _ _ _ (λ _ _, eq_refl) Hvs Hbtv)
    as (_ & _ & Hall_v).
  rewrite Happ. split.
  - intros -> size Hin. simpl in *.
    apply elem_of_cons in Hin as [Hin|Hin]; [discriminate|].
    apply elem_of_app in Hin as [Hin|Hin].
    + apply (proj1 (Forall_forall _ _) Hall_t) in Hin as (f & s & Hf & _ & Heq).
      injection Heq as <- <-. apply elem_of_sorted, Htt, elem_of_dom in Hf as [s' Hs'].
      by rewrite lookup_delete_eq in Hs'.
    + apply (proj1 (Forall_forall _ _) Hall_v) in Hin as (f & s & _ & _ & Heq).
      discriminate.
  - intros -> size Hsize Hpos. simpl in *.
    apply elem_of_cons. right. apply elem_of_app. left.
    assert (Diff.TRANSFER_MANIFEST_FILE_NAME ∈ tt) as Hin.
    { unfold Diff.diff in Hdiff. simpl in Hdiff.
      apply bind_Ok in Hdiff as (verified & _ & Hdiff). injection Hdiff as <- _.
      apply elem_of_files_to_transfer. exists size. split; [exact Hsize|].
      unfold Diff.get. rewrite lookup_delete_eq. lia. }
    apply elem_of_sorted in Hin. clear Hall_t Hbtt Happ.
    revert ts Hts. induction (pathlib.sorted tt) as [|g names IH]; intros ts Hts;
      [by apply elem_of_nil in Hin|].
    simpl in Hts. destruct (remote_files !! g) as [s|] eqn:Hg; [|discriminate].
    apply bind_Ok in Hts as (ts' & Hts' & Hts). injection Hts as <-.
    apply elem_of_cons in Hin as [<-|Hin].
    + rewrite Hsize in Hg. injection Hg as <-. apply elem_of_cons. auto.
    + apply elem_of_cons. right. by apply IH.
Qed.

Lemma transfer_manifest_is_popped_for_push_only_witness :
  ∃ w,
    Diff.write_inner_dag PUSH "/remote" "/local" Scenario.local_files
      (<[Diff.TRANSFER_MANIFEST_FILE_NAME := 300]> Scenario.local_files) [] 1%float
    = Ok w
    ∧ (PUSH = PUSH →
       ∀ size,
         TransferRequest Diff.TRANSFER_MANIFEST_FILE_NAME size ∉ Diff.appended w)
    ∧ (PUSH = PULL →
       ∀ size,
         Scenario.local_files !! Diff.TRANSFER_MANIFEST_FILE_NAME = Some size →
         0 ≤ size →
         TransferRequest Diff.TRANSFER_MANIFEST_FILE_NAME size ∈ Diff.appended w).
Proof.
  eexists. split; [vm_compute; reflexivity|].
  apply (transfer_manifest_is_popped_for_push_only PUSH "/remote" "/local"
           Scenario.local_files
           (<[Diff.TRANSFER_MANIFEST_FILE_NAME := 300]> Scenario.local_files)
           [] 1%float).
  vm_compute. reflexivity.
Defined.

(** ** Flattened names *)

Lemma list_ascii_of_string_app (s1 s2 : string) :
  list_ascii_of_string (s1 +:+ s2)
  = (list_ascii_of_string s1 ++ list_ascii_of_string s2)%list.
Proof.
  induction s1 as [|c s1 IH]; [reflexivity|].
  change (c :: list_ascii_of_string (s1 +:+ s2)
          = c :: (list_ascii_of_string s1 ++ list_ascii_of_string s2)%list).
  by rewrite IH.
Qed.

(** Replacing a character by a text leaves a string free of a character
    that the text does not hold, if that character is the one replaced
    or was not there. *)
Lemma replace_free_of (c old : ascii) (new s : string) :
  Log.free_of c new → c = old ∨ Log.free_of c s →
  Log.free_of c (Str.replace old new s).
Proof.
  unfold Log.free_of. intros Hnew Hs.
  induction s as [|d s IH]; simpl; [auto|].
  destruct (Ascii.eqb_spec d old) as [->|Hd].
  - rewrite list_ascii_of_string_app, in_app_iff. intros [H|H]; [auto|].
    apply IH; [|exact H]. destruct Hs as [?|Hs]; [auto|].
    right. intros Hin. apply Hs. simpl. auto.
  - simpl. intros [->|H].
    + destruct Hs as [->|Hs]; [done|]. apply Hs. simpl. auto.
    + apply IH; [|exact H]. destruct Hs as [?|Hs]; [auto|].
      right. intros Hin. apply Hs. simpl. auto.
Qed.

(** X10: a flattened name holds no path separator and no space,
    whatever the path. *)
Theorem flatten_path_safe (path : Path) :
  Log.free_of "/" (Diff.flatten_path path)
  ∧ Log.free_of " " (Diff.flatten_path path).
Proof.
  unfold Diff.flatten_path. split.
  - apply replace_free_of.
    + unfold Log.free_of. simpl. intros H. repeat destruct H as [H|H]; discriminate || done.
    + right. apply replace_free_of; [|auto].
      unfold Log.free_of. simpl. intros H. repeat destruct H as [H|H]; discriminate || done.
  - apply replace_free_of; [|auto].
    unfold Log.free_of. simpl. intros H. repeat destruct H as [H|H]; discriminate || done.
Qed.

(** ** The constructor of an entry *)

Section InitFacts.

Lemma assoc_None {A} (k : string) (l : list (string * A)) :
  Manifest.assoc k l = None ↔ k ∉ l.*1.
Proof.
  induction l as [|[k' v] l IH]; simpl.
  - split; [intros _; apply not_elem_of_nil | done].
  - rewrite not_elem_of_cons. destruct (String.eqb_spec k k') as [->|Hk].
    + split; [discriminate | intros [? _]; done].
    + rewrite IH. tauto.
Qed.

Lemma not_subseteq_list (l1 l2 : list string) :
  ¬ (list_to_set l1 : gset string) ⊆ list_to_set l2 →
  ∃ k, k ∈ l1 ∧ k ∉ l2.
Proof.
  intros Hsub.
  destruct (decide (Forall (λ k, k ∈ l2) l1)) as [Hall|Hex].
  - exfalso. apply Hsub. intros k. rewrite !elem_of_list_to_set.
    rewrite Forall_forall in Hall. auto.
  - apply not_Forall_Exists in Hex; [|intros k; apply _].
    apply Exists_exists in Hex as (k & Hk & Hnot). eauto.
Qed.

End InitFacts.

(** X11: what [ManifestEntry.__init__] does with the keys it is given.
    It raises [InvalidManifestEntry] only when no given key is foreign
    and an expected one is missing; a missing key beside a foreign one
    is a [KeyError]; and when every expected key is given the values
    are taken in the order of the class's keys, further keys being
    dropped without complaint. *)
Theorem init_info_key_check (keys : list string) (info : list (string * json)) :
  match Manifest.init_info keys info with
  | Raise InvalidManifestEntry =>
    (∀ k, k ∈ info.*1 → k ∈ keys) ∧ (∃ k, k ∈ keys ∧ k ∉ info.*1)
  | Raise KeyError =>
    (∃ k, k ∈ info.*1 ∧ k ∉ keys) ∧ (∃ k, k ∈ keys ∧ k ∉ info.*1)
  | Raise _ => False
  | Ok vs =>
    (∀ k, k ∈ keys → k ∈ info.*1)
    ∧ Forall2 (λ k v, Manifest.assoc k info = Some v) keys vs
  end.
Proof.
  unfold Manifest.init_info. case_bool_decide as Hsub.
  - destruct Hsub as [Hsub Hnot]. split.
    + intros k Hk. specialize (Hsub k). rewrite !elem_of_list_to_set in Hsub. auto.
    + by apply not_subseteq_list.
  - match goal with |- context [?f keys] => set (pick := f) end.
    assert (∀ ks, match pick ks with
                  | Ok vs => (∀ k, k ∈ ks → k ∈ info.*1)
                             ∧ Forall2 (λ k v, Manifest.assoc k info = Some v) ks vs
                  | Raise KeyError => ∃ k, k ∈ ks ∧ k ∉ info.*1
                  | Raise _ => False
                  end) as Hpick.
    { induction ks as [|k ks IH]; simpl.
      - split; [intros k Hk; by apply elem_of_nil in Hk | constructor].
      - destruct (Manifest.assoc k info) as [v|] eqn:Hk.
        + destruct (pick ks) as [vs|[]]; simpl; try done.
          * destruct IH as [Hall Hvs]. split; [|by constructor].
            intros k' [->|Hk']%elem_of_cons; [|auto].
            destruct (decide (k ∈ info.*1)) as [|Hno]; [done|].
            apply assoc_None in Hno. congruence.
          * destruct IH as (k' & Hk' & Hno). exists k'. split; [|done].
            by apply elem_of_cons; right.
        + exists k. split; [apply elem_of_cons; by left | by apply assoc_None]. }
    specialize (Hpick keys). destruct (pick keys) as [vs|[]]; try done.
    split; [|done].
    apply not_subseteq_list. intros Hgiven. apply Hsub. split; [done|].
    intros Hexp. destruct Hpick as (k & Hk & Hno). apply Hno.
    specialize (Hexp k). rewrite !elem_of_list_to_set in Hexp. auto.
Qed.

(** ** Reading a manifest *)

Section ReadFacts.

Variable json_loads : string → option json.
Variable int_of_str : string → result Z.
Variable float_of_str : string → result float.

#[local] Abbreviation parse :=
  (Manifest.parse_manifest_entry json_loads int_of_str float_of_str).
#[local] Abbreviation read_from :=
  (Manifest.read_manifest_from json_loads int_of_str float_of_str).
#[local] Abbreviation read_from_line :=
  (Log.read_from_line json_loads int_of_str float_of_str).

Lemma read_manifest_from_lines (lines : list string) (n : nat) :
  Forall (read_from_line n lines) (read_from n lines).
Proof.
  revert n. induction lines as [|line lines IH]; intros n; simpl; [constructor|].
  assert (Forall (read_from_line n (line :: lines)) (read_from (S n) lines)) as Hrest.
  { eapply Forall_impl; [apply IH|]. intros [[e m]|x]; simpl.
    - intros (Hm & l & Hl & Hrest). split; [lia|]. exists l. split; [|done].
      replace (m - n)%nat with (S (m - S n)) by lia. done.
    - intros (l & Hl & Hx). exists l. split; [by apply elem_of_cons; right | done]. }
  destruct (String.eqb (Str.strip line) "") eqn:Hblank; simpl; [exact Hrest|].
  destruct (Str.startswith (Str.strip line) "#") eqn:Hcomment; simpl; [exact Hrest|].
  destruct (parse (Str.strip line)) as [e|x] eqn:Hparse.
  - constructor; [|exact Hrest]. simpl. split; [lia|]. exists line.
    rewrite Nat.sub_diag. repeat split; try done.
    by apply String.eqb_neq.
  - constructor; [|constructor]. exists line. split; [by apply elem_of_cons; left | done].
Qed.

Lemma read_manifest_from_raise_last (lines : list string) (n i : nat) (x : exn) :
  read_from n lines !! i = Some (Raise x) →
  length (read_from n lines) = S i.
Proof.
  revert n i. induction lines as [|line lines IH]; intros n i; simpl; [done|].
  destruct (_ || _); [apply IH|].
  destruct (Manifest.parse_manifest_entry _ _ _ _) as [e|y].
  - destruct i as [|i]; simpl; [done|]. intros H. f_equal. by eapply IH.
  - destruct i as [|i]; simpl; [done|]. by rewrite lookup_nil.
Qed.

End ReadFacts.

(** X12: every entry that [read_manifest] yields carries the number,
    counted from 1 over all lines, of the line it was parsed from, which
    is neither blank nor a comment; an exception comes from a line that
    does not parse, and nothing is yielded after it. *)
Theorem read_manifest_line_numbers
    (json_loads : string → option json)
    (int_of_str : string → result Z) (float_of_str : string → result float)
    (lines : list string) :
  let parse := Manifest.parse_manifest_entry json_loads int_of_str float_of_str in
  let items := Manifest.read_manifest json_loads int_of_str float_of_str lines in
  (∀ e n, Ok (e, n) ∈ items →
     (1 ≤ n)%nat
     ∧ ∃ line, lines !! (n - 1)%nat = Some line
               ∧ Str.strip line ≠ ""%string
               ∧ Str.startswith (Str.strip line) "#" = false
               ∧ parse (Str.strip line) = Ok e)
  ∧ (∀ i x, items !! i = Some (Raise x) →
       length items = S i
       ∧ ∃ line, line ∈ lines ∧ parse (Str.strip line) = Raise x).
Proof.
  intros parse items.
  pose proof (read_manifest_from_lines json_loads int_of_str float_of_str lines 1)
    as Hall.
  rewrite Forall_forall in Hall. split.
  - intros e n Hin. exact (Hall _ Hin).
  - intros i x Hi. split.
    + by eapply read_manifest_from_raise_last.
    + apply list_elem_of_lookup_2 in Hi. exact (Hall _ Hi).
Qed.

(** ** A copy that completes *)

Section CopyDone.
Import Copy.

Lemma append_nil_r (s : string) : s +:+ "" = s.
Proof. induction s as [|c s IH]; [reflexivity|]. change (String c (s +:+ "") = String c s). by rewrite IH. Qed.

Lemma join_empty_cons (b : string) (bs : list string) :
  Str.join "" (b :: bs) = b +:+ Str.join "" bs.
Proof. destruct bs; simpl; [by rewrite append_nil_r | reflexivity]. Qed.

Lemma length_append (s1 s2 : string) :
  String.length (s1 +:+ s2) = (String.length s1 + String.length s2)%nat.
Proof.
  induction s1 as [|c s1 IH]; [reflexivity|].
  change (S (String.length (s1 +:+ s2)) = S (String.length s1 + String.length s2)).
  by rewrite IH.
Qed.

Lemma length_join_empty (bs : list string) :
  String.length (Str.join "" bs) = sum_list (List.map String.length bs).
Proof.
  induction bs as [|b bs IH]; [reflexivity|].
  rewrite join_empty_cons, length_append, IH. reflexivity.
Qed.

Lemma substring_all (s : string) : String.substring 0 (String.length s) s = s.
Proof. induction s as [|c s IH]; [reflexivity|]. simpl. by rewrite IH. Qed.

Lemma substring_split (n : nat) (s : string) :
  String.substring 0 n s +:+ String.substring n (String.length s - n) s = s.
Proof.
  revert n. induction s as [|c s IH]; intros [|n]; try reflexivity.
  - change (String.substring 0 (String.length (String c s)) (String c s) = String c s).
    apply substring_all.
  - change (String c (String.substring 0 n s
                      +:+ String.substring n (String.length s - n) s) = String c s).
    by rewrite IH.
Qed.

Lemma length_substring_tail (n : nat) (s : string) :
  String.length (String.substring n (String.length s - n) s) = (String.length s - n)%nat.
Proof.
  revert n. induction s as [|c s IH]; intros [|n]; try reflexivity.
  - change (String.length (String.substring 0 (String.length (String c s)) (String c s))
            = String.length (String c s)).
    by rewrite substring_all.
  - apply IH.
Qed.

Lemma substring_head_empty (n : nat) (s : string) :
  (0 < n)%nat → String.substring 0 n s = ""%string → s = ""%string.
Proof. destruct n; [lia|]. destruct s; [done | discriminate]. Qed.

Lemma MB_pos : (0 < MB)%nat.
Proof. unfold MB. apply Nat.neq_0_lt_0, Nat.pow_nonzero. discriminate. Qed.

Lemma blocks_join (fuel : nat) (data : string) :
  (String.length data ≤ fuel)%nat → Str.join "" (blocks fuel data) = data.
Proof.
  revert data. induction fuel as [|fuel IH]; intros data Hlen.
  - destruct data; [reflexivity | simpl in Hlen; lia].
  - pose proof MB_pos as Hpos. pose proof (substring_split MB data) as Hsplit.
    pose proof (length_substring_tail MB data) as Htail.
    pose proof (substring_head_empty MB data Hpos) as Hhead.
    change (blocks (S fuel) data)
      with (match String.substring 0 MB data with
            | EmptyString => []
            | buf => buf :: blocks fuel (String.substring MB (String.length data - MB) data)
            end).
    generalize dependent MB. intros mb Hpos Hsplit Htail Hhead.
    destruct (String.substring 0 mb data) as [|c buf] eqn:Hbuf.
    + symmetry. by apply Hhead.
    + rewrite join_empty_cons, IH by lia. exact Hsplit.
Qed.

Lemma run_block_writes (tmp_path : Path) (bufs : list string) (acc : string)
    (fs : gmap Path string) :
  run (List.map (Write tmp_path) bufs) (<[tmp_path := acc]> fs)
  = <[tmp_path := acc +:+ Str.join "" bufs]> fs.
Proof.
  revert acc. unfold run. induction bufs as [|b bufs IH]; intros acc.
  - simpl. by rewrite append_nil_r.
  - rewrite join_empty_cons. simpl foldl. simpl apply.
    rewrite alter_insert_eq, IH, append_assoc. reflexivity.
Qed.

End CopyDone.

(** What a completed copy leaves, and returns. *)
Lemma copy_with_hash_run (src_path dest_path tmp_path : Path)
    (fs : gmap Path string) (data : string) (c : Copy.Copied) :
  pathlib.with_suffix dest_path ".tmp" = Ok tmp_path →
  tmp_path ≠ src_path →
  fs !! src_path = Some data →
  Copy.copy_with_hash src_path dest_path fs = Ok c →
  Copy.run (Copy.ops c) fs !! dest_path = Some data
  ∧ (tmp_path ≠ dest_path → Copy.run (Copy.ops c) fs !! tmp_path = None)
  ∧ (∀ p, p ≠ tmp_path → p ≠ dest_path → Copy.run (Copy.ops c) fs !! p = fs !! p)
  ∧ Copy.hashed c = data
  ∧ Copy.byte_count c = String.length data.
Proof.
  intros Htmp Hne Hsrc Hcopy. unfold Copy.copy_with_hash in Hcopy.
  rewrite Htmp, Hsrc in Hcopy. simpl in Hcopy.
  rewrite lookup_insert_ne, Hsrc in Hcopy by done. simpl in Hcopy.
  injection Hcopy as <-. cbn [Copy.ops Copy.hashed Copy.byte_count].
  pose proof (blocks_join (String.length data) data (Nat.le_refl _)) as Hjoin.
  set (bufs := Copy.blocks _ _) in *.
  assert (Copy.run (Copy.OpenWrite tmp_path :: List.map (Copy.Write tmp_path) bufs
                    ++ [Copy.Fsync tmp_path; Copy.CopyStat src_path tmp_path;
                        Copy.Rename tmp_path dest_path]) fs
          = <[dest_path := data]> (delete tmp_path fs)) as ->.
  { unfold Copy.run. simpl foldl. rewrite foldl_app.
    pose proof (run_block_writes tmp_path bufs "" fs) as Hwrites.
    unfold Copy.run in Hwrites. simpl in Hwrites |- *. rewrite Hwrites, Hjoin. simpl.
    rewrite lookup_insert_eq, delete_insert_eq. reflexivity. }
  repeat split.
  - apply lookup_insert_eq.
  - intros Hdest. rewrite lookup_insert_ne by done. apply lookup_delete_eq.
  - intros p Hp1 Hp2. rewrite lookup_insert_ne, lookup_delete_ne by done. reflexivity.
  - exact Hjoin.
  - by rewrite <- length_join_empty, Hjoin.
Qed.

(** X13: a copy that runs to its end, when the temporary path is not
    the source itself, leaves the content of the source at the
    destination and no temporary file, touches no other file, and
    returns the length of that content, having fed all of it to the
    hasher. *)
Theorem copy_with_hash_completed (src_path dest_path tmp_path : Path)
    (fs : gmap Path string) (data : string) (c : Copy.Copied) :
  pathlib.with_suffix dest_path ".tmp" = Ok tmp_path →
  tmp_path ≠ src_path →
  fs !! src_path = Some data →
  Copy.copy_with_hash src_path dest_path fs = Ok c →
  Copy.run (Copy.ops c) fs !! dest_path = Some data
  ∧ (tmp_path ≠ dest_path → Copy.run (Copy.ops c) fs !! tmp_path = None)
  ∧ (∀ p, p ≠ tmp_path → p ≠ dest_path → Copy.run (Copy.ops c) fs !! p = fs !! p)
  ∧ Copy.hashed c = data
  ∧ Copy.byte_count c = String.length data.
Proof. apply copy_with_hash_run. Qed.

Lemma copy_with_hash_completed_witness :
  ∃ c, Copy.copy_with_hash "/scratch/a.bin" "/data/a.bin" {["/scratch/a.bin" := "payload"]}
       = Ok c
       ∧ Copy.run (Copy.ops c) {["/scratch/a.bin" := "payload"]} !! "/data/a.bin"
         = Some "payload"%string
       ∧ Copy.byte_count c = 7%nat.
Proof.
  destruct (Copy.copy_with_hash "/scratch/a.bin" "/data/a.bin"
              {["/scratch/a.bin" := "payload"%string]}) as [c|x] eqn:Hcopy;
    [|vm_compute in Hcopy; discriminate Hcopy].
  exists c. split; [reflexivity|].
  destruct (copy_with_hash_completed "/scratch/a.bin" "/data/a.bin" "/data/a.tmp"
              {["/scratch/a.bin" := "payload"%string]} "payload" c)
    as (Hdest & _ & _ & _ & Hcount).
  - vm_compute. reflexivity.
  - discriminate.
  - vm_compute. reflexivity.
  - exact Hcopy.
  - split; [exact Hdest | exact Hcount].
Defined.

Lemma hash_file_Some (path : Path) (fs : gmap Path string) (data : string) :
  fs !! path = Some data →
  Hashing.hash_file path fs
  = Ok {| Hashing.hashed := data; Hashing.byte_count := String.length data |}.
Proof.
  intros Hdata. unfold Hashing.hash_file. rewrite Hdata.
  pose proof (blocks_join (String.length data) data (Nat.le_refl _)) as Hjoin.
  by rewrite <- length_join_empty, Hjoin.
Qed.

(** X14: [hash_file] feeds the whole content of the file to the hasher,
    block by block, and returns its length; a missing file is an
    [OSError]. *)
Theorem hash_file_whole_content (path : Path) (fs : gmap Path string) :
  match fs !! path with
  | Some data =>
    ∃ h, Hashing.hash_file path fs = Ok h
         ∧ Hashing.hashed h = data
         ∧ Hashing.byte_count h = String.length data
  | None => Hashing.hash_file path fs = Raise OSError
  end.
Proof.
  destruct (fs !! path) as [data|] eqn:Hdata.
  - rewrite (hash_file_Some _ _ _ Hdata). eauto.
  - unfold Hashing.hash_file. by rewrite Hdata.
Qed.

(** ** The inventories *)

Section InventoryFacts.
Import Inventory.

Lemma strip_parts_nil (prefix parts : list string) :
  strip_parts prefix parts = Some [] → prefix = parts.
Proof.
  revert parts. induction prefix as [|x prefix IH]; intros parts; simpl.
  - by intros [= <-].
  - destruct parts as [|y parts]; [discriminate|].
    destruct (String.eqb_spec x y) as [->|]; [|discriminate].
    intros H. f_equal. by apply IH.
Qed.

(** A normal path that has a path relative to a normal prefix is the
    prefix or lies under it. *)
Lemma relative_to_Ok (fname prefix rel : Path) :
  Manifest.normal fname → Manifest.normal prefix →
  relative_to fname prefix = Ok rel →
  fname = prefix ∨ in_parents prefix fname = true.
Proof.
  unfold Manifest.normal, pathlib.Path_of_str, relative_to, in_parents.
  intros Hf Hp.
  destruct (pathlib.parse_parts fname) as [root parts].
  destruct (pathlib.parse_parts prefix) as [prefix_root prefix_parts].
  destruct (String.eqb_spec root prefix_root) as [->|]; [|discriminate].
  destruct (strip_parts prefix_parts parts) as [[|w rest]|] eqn:Hstrip;
    [|by right|discriminate].
  intros _. left. apply strip_parts_nil in Hstrip. congruence.
Qed.

Lemma parse_file_manifest_loop_Ok (prefix : Path)
    (items : list (result (ManifestEntry * nat))) (files0 files : gmap Path Z) :
  Manifest.normal prefix →
  (∀ e n, Ok (e, n) ∈ items → Manifest.well_formed e) →
  parse_file_manifest_loop prefix items files0 = Ok files →
  (∀ item, item ∈ items →
     ∃ fname size n, item = Ok (File fname size, n)
                     ∧ (fname = prefix ∨ in_parents prefix fname = true))
  ∧ (∀ rel size, files !! rel = Some size →
       files0 !! rel = Some size
       ∨ ∃ fname n, Ok (File fname size, n) ∈ items ∧ fname ≠ prefix
                    ∧ relative_to fname prefix = Ok rel).
Proof.
  intros Hprefix. revert files0.
  induction items as [|[[e n]|x] items IH]; intros files0 Hwf; simpl.
  - intros [= <-]. split; [intros item Hin; by apply elem_of_nil in Hin | auto].
  - assert (Manifest.well_formed e) as He by (apply (Hwf e n), elem_of_cons; by left).
    assert (∀ e n, Ok (e, n) ∈ items → Manifest.well_formed e) as Hwf'
      by (intros e' n' Hin; apply (Hwf e' n'), elem_of_cons; by right).
    destruct e as [| | | | |fname size|]; simpl; try discriminate.
    destruct (String.eqb_spec fname prefix) as [->|Hne].
    + intros Hloop. destruct (IH _ Hwf' Hloop) as [Hitems Hfiles]. split.
      * intros item [->|Hin]%elem_of_cons; [|auto].
        exists prefix, size, n. auto.
      * intros rel sz Hrel. destruct (Hfiles rel sz Hrel) as [|(f & m & Hin & ? & ?)]; [auto|].
        right. exists f, m. split; [by apply elem_of_cons; right | done].
    + destruct (relative_to fname prefix) as [relative|] eqn:Hrel; [|discriminate].
      simpl. intros Hloop. destruct (IH _ Hwf' Hloop) as [Hitems Hfiles]. split.
      * intros item [->|Hin]%elem_of_cons; [|auto].
        exists fname, size, n. split; [done|]. by eapply relative_to_Ok.
      * intros rel sz Hsz. destruct (Hfiles rel sz Hsz) as [Hins|(f & m & Hin & ? & ?)].
        -- apply lookup_insert_Some in Hins as [[<- <-]|[_ ?]]; [|auto].
           right. exists fname, n. split; [by apply elem_of_cons; left | done].
        -- right. exists f, m. split; [by apply elem_of_cons; right | done].
  - discriminate.
Qed.

End InventoryFacts.

(** X15: [parse_file_manifest] returns a dict only if every line of the
    inventory is a [File] entry whose name is the prefix or lies under
    it: a name outside the prefix is logged and then raises in
    [relative_to], it is not skipped.  Each key of the dict is the path,
    relative to the prefix, of an entry other than the prefix, with that
    entry's size. *)
Theorem parse_file_manifest_under_prefix (prefix : Path)
    (items : list (result (ManifestEntry * nat))) (files : gmap Path Z) :
  Manifest.normal prefix →
  (∀ e n, Ok (e, n) ∈ items → Manifest.well_formed e) →
  Inventory.parse_file_manifest prefix items = Ok files →
  (∀ item, item ∈ items →
     ∃ fname size n, item = Ok (File fname size, n)
                     ∧ (fname = prefix ∨ Inventory.in_parents prefix fname = true))
  ∧ (∀ rel size, files !! rel = Some size →
       ∃ fname n, Ok (File fname size, n) ∈ items ∧ fname ≠ prefix
                  ∧ Inventory.relative_to fname prefix = Ok rel).
Proof.
  intros Hprefix Hwf Hparse.
  destruct (parse_file_manifest_loop_Ok prefix items ∅ files Hprefix Hwf Hparse)
    as [Hitems Hfiles].
  split; [exact Hitems|].
  intros rel size Hrel. destruct (Hfiles rel size Hrel) as [Hempty|]; [|done].
  by rewrite lookup_empty in Hempty.
Qed.

Lemma parse_file_manifest_under_prefix_witness :
  ∃ files,
    Inventory.parse_file_manifest "/data"
      [Ok (File "/data" 4096, 1%nat); Ok (File "/data/run/a.bin" 7, 2%nat)] = Ok files
    ∧ ∀ rel size, files !! rel = Some size →
        ∃ fname n, Ok (File fname size, n)
                     ∈ [Ok (File "/data" 4096, 1%nat); Ok (File "/data/run/a.bin" 7, 2%nat)]
                   ∧ fname ≠ "/data"%string
                   ∧ Inventory.relative_to fname "/data" = Ok rel.
Proof.
  assert (Inventory.parse_file_manifest "/data"
            [Ok (File "/data" 4096, 1%nat); Ok (File "/data/run/a.bin" 7, 2%nat)]
          = Ok {["run/a.bin"%string := 7]}) as Hparse by (vm_compute; reflexivity).
  exists {["run/a.bin"%string := 7]}. split; [exact Hparse|].
  apply (parse_file_manifest_under_prefix "/data"
           [Ok (File "/data" 4096, 1%nat); Ok (File "/data/run/a.bin" 7, 2%nat)]).
  - vm_compute. reflexivity.
  - intros e n Hin. repeat (apply elem_of_cons in Hin as [Hin|Hin]);
      [injection Hin as -> _; vm_compute; reflexivity ..|by apply elem_of_nil in Hin].
  - exact Hparse.
Defined.

(** X16: a [File] entry whose name is neither the prefix nor under it
    makes [parse_file_manifest] raise [ValueError], whatever was read
    before it: the name is logged as outside the prefix, but the entry
    is not skipped. *)
Theorem parse_file_manifest_outside_prefix (prefix fname : Path) (size : Z) (n : nat)
    (rest : list (result (ManifestEntry * nat))) (files : gmap Path Z) :
  Manifest.normal prefix → Manifest.normal fname →
  fname ≠ prefix →
  Inventory.in_parents prefix fname = false →
  Inventory.parse_file_manifest_loop prefix (Ok (File fname size, n) :: rest) files
  = Raise ValueError.
Proof.
  intros Hp Hf Hne Hout. simpl.
  destruct (String.eqb_spec fname prefix) as [|_]; [done|].
  destruct (Inventory.relative_to fname prefix) as [rel|x] eqn:Hrel.
  - destruct (relative_to_Ok fname prefix rel Hf Hp Hrel); congruence.
  - simpl. revert Hrel. unfold Inventory.relative_to.
    destruct (pathlib.parse_parts fname), (pathlib.parse_parts prefix).
    destruct (String.eqb _ _); [|by intros [= <-]].
    destruct (Inventory.strip_parts _ _); [discriminate | by intros [= <-]].
Qed.

Lemma parse_file_manifest_outside_prefix_witness :
  Inventory.parse_file_manifest "/data" [Ok (File "/tmp/x" 1, 1%nat)]
  = Raise ValueError.
Proof.
  apply (parse_file_manifest_outside_prefix "/data" "/tmp/x" 1 1 [] ∅).
  - vm_compute. reflexivity.
  - vm_compute. reflexivity.
  - discriminate.
  - vm_compute. reflexivity.
Defined.

(** ** The local inventory *)

Section JoinFacts.
Import Inventory.

Lemma rev_app_acc (r acc : string) :
  String.rev_app r acc = String.rev_app r "" +:+ acc.
Proof.
  revert acc. induction r as [|c r IH]; intros acc; [reflexivity|].
  change (String.rev_app r (String c acc) = String.rev_app r (String c "") +:+ acc).
  rewrite (IH (String c acc)), (IH (String c "")), append_assoc. reflexivity.
Qed.

Lemma endswith_sep_inv (s : string) :
  endswith_sep s = true → ∃ t, s = t +:+ "/".
Proof.
  unfold endswith_sep. destruct (String.rev s) as [|c r] eqn:Hrev; [discriminate|].
  destruct (ascii_dec c "/") as [->|Hc].
  - intros _. exists (String.rev_app r "").
    assert (String.rev_app (String.rev s) "" = s) as <-.
    { unfold String.rev. rewrite rev_app_rev_app. simpl. apply append_nil_r. }
    rewrite Hrev. apply (rev_app_acc r "/").
  - destruct c as [[] [] [] [] [] [] [] []]; try discriminate. by destruct Hc.
Qed.

Lemma split_app_sep (a b : string) :
  Str.split "/" (a +:+ String "/" b) = (Str.split "/" a ++ Str.split "/" b)%list.
Proof.
  induction a as [|c a IH]; [reflexivity|].
  change (Str.split "/" (String c (a +:+ String "/" b))
          = (Str.split "/" (String c a) ++ Str.split "/" b)%list).
  simpl. rewrite IH. destruct (Ascii.eqb c "/"); [reflexivity|].
  destruct (Str.split "/" a) as [|w ws] eqn:Hsplit; [|reflexivity].
  by destruct (split_not_nil "/" a).
Qed.

Lemma component_parts (name : string) :
  pathlib.component name →
  List.filter pathlib.is_component (Str.split "/" name) = [name].
Proof. intros [Hc ->]. simpl. by rewrite Hc. Qed.

(** The components of [rest/name], against those of [rest/]. *)
Lemma parts_child (rest name : string) :
  pathlib.component name →
  List.filter pathlib.is_component (Str.split "/" (rest +:+ String "/" name))
  = (List.filter pathlib.is_component (Str.split "/" (rest +:+ "/")) ++ [name])%list.
Proof.
  intros Hname. rewrite !split_app_sep, !List.filter_app, (component_parts name Hname).
  simpl. by rewrite app_nil_r.
Qed.

Lemma parts_trailing_sep (rest : string) :
  List.filter pathlib.is_component (Str.split "/" (rest +:+ "/"))
  = List.filter pathlib.is_component (Str.split "/" rest).
Proof. rewrite split_app_sep, List.filter_app. simpl. by rewrite app_nil_r. Qed.

Lemma parse_parts_child_sep (t name : string) :
  pathlib.component name →
  pathlib.parse_parts (t +:+ String "/" name)
  = ((pathlib.parse_parts (t +:+ "/")).1, ((pathlib.parse_parts (t +:+ "/")).2 ++ [name])%list).
Proof.
  intros Hname. pose proof (component_parts name Hname) as Hparts.
  destruct (component_head name Hname) as (c0 & tail0 & Hhead & Hc0).
  unfold pathlib.parse_parts.
  destruct t as [|c1 t].
  { change (""%string +:+ String "/" name) with (String "/" name).
    rewrite Hhead, (splitroot_one _ _ Hc0), <- Hhead, Hparts. reflexivity. }
  destruct (ascii_dec c1 "/") as [->|H1].
  2:{ change (String c1 t +:+ String "/" name) with (String c1 (t +:+ String "/" name)).
      change (String c1 t +:+ "/")%string with (String c1 (t +:+ "/")).
      rewrite !(splitroot_no_root _ _ H1). cbn [fst snd].
      f_equal. apply (parts_child (String c1 t)), Hname. }
  destruct t as [|c2 t].
  { change ("/"%string +:+ String "/" name) with (String "/" (String "/" name)).
    rewrite Hhead, (splitroot_two _ _ Hc0), <- Hhead, Hparts. reflexivity. }
  destruct (ascii_dec c2 "/") as [->|H2].
  2:{ change (String "/" (String c2 t) +:+ String "/" name)
        with (String "/" (String c2 (t +:+ String "/" name))).
      change (String "/" (String c2 t) +:+ "/")%string
        with (String "/" (String c2 (t +:+ "/"))).
      rewrite !(splitroot_one _ _ H2). cbn [fst snd].
      f_equal. apply (parts_child (String c2 t)), Hname. }
  destruct t as [|c3 t].
  { change (pathlib.splitroot ("//"%string +:+ String "/" name))
      with ("/"%string, "//"%string +:+ String "/" name).
    change (pathlib.splitroot ("//"%string +:+ "/"))
      with ("/"%string, "//"%string +:+ "/").
    cbn [fst snd]. f_equal. apply (parts_child "//"), Hname. }
  destruct (ascii_dec c3 "/") as [->|H3].
  2:{ change (String "/" (String "/" (String c3 t)) +:+ String "/" name)
        with (String "/" (String "/" (String c3 (t +:+ String "/" name)))).
      change (String "/" (String "/" (String c3 t)) +:+ "/")%string
        with (String "/" (String "/" (String c3 (t +:+ "/")))).
      rewrite !(splitroot_two _ _ H3). cbn [fst snd].
      f_equal. apply (parts_child (String c3 t)), Hname. }
  change (pathlib.splitroot (String "/" (String "/" (String "/" t)) +:+ String "/" name))
    with ("/"%string, String "/" (String "/" (String "/" t)) +:+ String "/" name).
  change (pathlib.splitroot (String "/" (String "/" (String "/" t)) +:+ "/"))
    with ("/"%string, String "/" (String "/" (String "/" t)) +:+ "/").
  cbn [fst snd]. f_equal. apply parts_child, Hname.
Qed.

Lemma parse_parts_trailing_sep (s : string) :
  s ≠ ""%string → endswith_sep s = false →
  pathlib.parse_parts (s +:+ "/") = pathlib.parse_parts s.
Proof.
  intros Hne Hend. unfold pathlib.parse_parts.
  destruct s as [|c1 t]; [done|].
  destruct (ascii_dec c1 "/") as [->|H1].
  2:{ change (String c1 t +:+ "/")%string with (String c1 (t +:+ "/")).
      rewrite !(splitroot_no_root _ _ H1).
      f_equal. apply (parts_trailing_sep (String c1 t)). }
  destruct t as [|c2 t]; [discriminate Hend|].
  destruct (ascii_dec c2 "/") as [->|H2].
  2:{ change (String "/" (String c2 t) +:+ "/")%string
        with (String "/" (String c2 (t +:+ "/"))).
      rewrite !(splitroot_one _ _ H2).
      f_equal. apply (parts_trailing_sep (String c2 t)). }
  destruct t as [|c3 t]; [discriminate Hend|].
  destruct (ascii_dec c3 "/") as [->|H3].
  2:{ change (String "/" (String "/" (String c3 t)) +:+ "/")%string
        with (String "/" (String "/" (String c3 (t +:+ "/")))).
      rewrite !(splitroot_two _ _ H3).
      f_equal. apply (parts_trailing_sep (String c3 t)). }
  change (pathlib.splitroot (String "/" (String "/" (String "/" t)) +:+ "/"))
    with ("/"%string, String "/" (String "/" (String "/" t)) +:+ "/").
  change (pathlib.splitroot (String "/" (String "/" (String "/" t))))
    with ("/"%string, String "/" (String "/" (String "/" t))).
  f_equal. apply parts_trailing_sep.
Qed.

(** [os.path.join] with the name of a directory entry adds one
    component. *)
Lemma parse_parts_os_path_join (s name : string) :
  pathlib.component name →
  pathlib.parse_parts (os_path_join s name)
  = ((pathlib.parse_parts s).1, ((pathlib.parse_parts s).2 ++ [name])%list).
Proof.
  intros Hname. destruct (component_head name Hname) as (c0 & tail0 & Hhead & Hc0).
  unfold os_path_join.
  assert (Str.startswith name "/" = false) as ->.
  { rewrite Hhead. unfold Str.startswith. clear Hhead.
    destruct c0 as [[] [] [] [] [] [] [] []]; try reflexivity. by destruct Hc0. }
  destruct s as [|c s].
  { change (pathlib.parse_parts name = (""%string, [name])).
    unfold pathlib.parse_parts.
    rewrite Hhead, (splitroot_no_root _ _ Hc0), <- Hhead, (component_parts name Hname).
    reflexivity. }
  change (String.eqb (String c s) "") with false. simpl orb.
  destruct (endswith_sep (String c s)) eqn:Hend.
  - destruct (endswith_sep_inv _ Hend) as [t Ht]. rewrite Ht.
    rewrite append_assoc. change ("/"%string +:+ name) with (String "/" name).
    by apply parse_parts_child_sep.
  - change ("/"%string +:+ name) with (String "/" name).
    rewrite parse_parts_child_sep, parse_parts_trailing_sep by done. reflexivity.
Qed.

Lemma node_nested_ind (P : node → Prop) :
  (∀ size, P (RegularFile size)) → P Special →
  (∀ children, Forall (λ child, P child.2) children → P (Directory children)) →
  ∀ n, P n.
Proof.
  intros Hfile Hspecial Hdir. fix IH 1.
  intros [size|children|]; [apply Hfile| |apply Hspecial].
  apply Hdir. induction children as [|child children IHc]; constructor;
    [apply IH | apply IHc].
Qed.

(** A file that [walk] finds below an entry has the parts of the entry's
    path and then the names on the way down: at least one when the
    entry is a directory. *)
Lemma walk_entry_parts (n : node) (entry_path p : string) (size : Z) :
  named n →
  (p, size) ∈ walk_entry entry_path n →
  ∃ names,
    pathlib.parse_parts p
    = ((pathlib.parse_parts entry_path).1,
       ((pathlib.parse_parts entry_path).2 ++ names)%list)
    ∧ (∀ children, n = Directory children → names ≠ []).
Proof.
  revert entry_path p size.
  induction n as [sz| |children IH] using node_nested_ind;
    intros entry_path p size Hnamed Hin; simpl in Hin.
  - apply list_elem_of_singleton in Hin as [= -> ->]. exists [].
    rewrite app_nil_r. split; [by destruct (pathlib.parse_parts entry_path) | done].
  - by apply elem_of_nil in Hin.
  - inversion Hnamed as [| |children' Hchildren Heq]; subst children'.
    apply list_elem_of_In, in_flat_map in Hin as ([name child] & Hchild & Hin).
    apply list_elem_of_In in Hchild, Hin.
    rewrite Forall_forall in IH, Hchildren.
    destruct (Hchildren _ Hchild) as [Hname Hsub]. simpl in *.
    destruct (IH _ Hchild _ _ _ Hsub Hin) as (names & Hparts & _).
    rewrite parse_parts_os_path_join in Hparts by done. simpl in Hparts.
    exists (name :: names). split; [|done].
    rewrite Hparts, <- app_assoc. reflexivity.
Qed.

Lemma parse_parts_Path_of_str (s : string) :
  pathlib.parse_parts (pathlib.Path_of_str s) = pathlib.parse_parts s.
Proof.
  unfold pathlib.Path_of_str.
  pose proof (parse_parts_root s) as Hroot.
  pose proof (parse_parts_components s) as Hparts.
  destruct (pathlib.parse_parts s) as [root parts]. by apply parse_format_parts.
Qed.

Lemma strip_parts_app (prefix rest : list string) :
  strip_parts prefix (prefix ++ rest) = Some rest.
Proof.
  induction prefix as [|x prefix IH]; [reflexivity|].
  simpl. by rewrite String.eqb_refl.
Qed.

Lemma in_parents_relative_to (prefix fname : Path) :
  in_parents prefix fname = true →
  fname ≠ prefix ∧ ∃ rel, relative_to fname prefix = Ok rel.
Proof.
  unfold in_parents, relative_to. intros Hin. split.
  - intros ->. destruct (pathlib.parse_parts prefix) as [root parts].
    pose proof (strip_parts_app parts []) as Hstrip. rewrite app_nil_r in Hstrip.
    rewrite Hstrip, andb_false_r in Hin. discriminate Hin.
  - destruct (pathlib.parse_parts fname) as [root parts].
    destruct (pathlib.parse_parts prefix) as [prefix_root prefix_parts].
    destruct (String.eqb root prefix_root); [|discriminate Hin].
    destruct (strip_parts prefix_parts parts); [eauto | discriminate Hin].
Qed.

Lemma parse_file_manifest_loop_under (prefix : Path) (entries : list ManifestEntry) :
  Forall (λ e, ∃ name size, e = File name size ∧ in_parents prefix name = true)
    entries →
  ∀ n files0, ∃ files,
    parse_file_manifest_loop prefix (Log.numbered n entries) files0 = Ok files.
Proof.
  induction 1 as [|e entries (name & size & -> & Hin) _ IH]; intros n files0; simpl.
  - eauto.
  - destruct (in_parents_relative_to _ _ Hin) as [Hne [rel Hrel]].
    destruct (String.eqb_spec name prefix) as [|_]; [done|].
    rewrite Hrel. simpl. apply IH.
Qed.

End JoinFacts.

(** X17: the inventory that [create_file_manifest] writes for a
    directory always parses back under the same prefix.  Every entry is
    a [File] whose name, in normal form, lies under the root, so that
    [parse_file_manifest] raises neither [InvalidManifestEntry] nor
    [ValueError]. *)
Theorem local_inventory_parses (root_path : Path)
    (children : list (string * Inventory.node)) (test_mode : bool)
    (entries : list ManifestEntry) :
  Inventory.named (Inventory.Directory children) →
  Inventory.create_file_manifest root_path (Some (Inventory.Directory children))
    test_mode = Ok entries →
  Forall (λ e, ∃ name size, e = File name size ∧ Manifest.normal name
                            ∧ Inventory.in_parents root_path name = true) entries
  ∧ ∃ files,
      Inventory.parse_file_manifest root_path (Log.numbered 1 entries) = Ok files.
Proof.
  intros Hnamed [= <-].
  assert (Forall (λ e, ∃ name size, e = File name size ∧ Manifest.normal name
                       ∧ Inventory.in_parents root_path name = true)
            (List.map (λ entry, File (pathlib.Path_of_str entry.1) entry.2)
               (List.filter
                  (λ entry, negb (test_mode && (50 * Inventory.MB <? entry.2)))
                  (Inventory.walk root_path children)))) as Hall.
  { apply Forall_forall. intros e He.
    apply list_elem_of_In, in_map_iff in He as ([p size] & <- & Hp).
    apply filter_In in Hp as [Hp _]. apply list_elem_of_In in Hp.
    destruct (walk_entry_parts _ _ _ _ Hnamed Hp) as (names & Hparts & Hnames).
    exists (pathlib.Path_of_str p), size. simpl.
    split; [done|]. split; [apply Path_of_str_idempotent|].
    unfold Inventory.in_parents. rewrite parse_parts_Path_of_str, Hparts.
    destruct (pathlib.parse_parts root_path) as [root parts]. simpl.
    rewrite String.eqb_refl, strip_parts_app.
    destruct names; [by destruct (Hnames children) | reflexivity]. }
  split; [exact Hall|].
  apply parse_file_manifest_loop_under.
  eapply Forall_impl; [exact Hall|]. intros e (name & size & -> & _ & Hin). eauto.
Qed.

Lemma local_inventory_parses_witness :
  ∃ entries files,
    Inventory.create_file_manifest "/data"
      (Some (Inventory.Directory
               [("a.bin"%string, Inventory.RegularFile 7);
                ("run"%string, Inventory.Directory
                                 [("b"%string, Inventory.RegularFile 3)]);
                ("sock"%string, Inventory.Special)])) false = Ok entries
    ∧ Inventory.parse_file_manifest "/data" (Log.numbered 1 entries) = Ok files.
Proof.
  eexists. 
  destruct (local_inventory_parses "/data"
              [("a.bin"%string, Inventory.RegularFile 7);
               ("run"%string, Inventory.Directory
                                [("b"%string, Inventory.RegularFile 3)]);
               ("sock"%string, Inventory.Special)] false _
              ltac:(repeat (constructor; simpl); reflexivity) eq_refl)
    as [_ [files Hfiles]].
  exists files. split; [reflexivity | exact Hfiles].
Defined.

(** X18: in test mode [create_file_manifest] writes the entries it
    writes otherwise, in the same order, without those of more than
    50 MB. *)
Theorem create_file_manifest_test_mode (root_path : Path)
    (root : option Inventory.node) (entries : list ManifestEntry) :
  Inventory.create_file_manifest root_path root false = Ok entries →
  Inventory.create_file_manifest root_path root true
  = Ok (List.filter (λ e, Log.entry_size e <=? 50 * Inventory.MB) entries).
Proof.
  unfold Inventory.create_file_manifest.
  destruct root as [[size|children|]|]; try discriminate.
  - intros [= <-]. f_equal. simpl.
    induction (Inventory.walk root_path children) as [|[p size] files IH];
      [reflexivity|].
    simpl. rewrite Z.ltb_antisym, negb_involutive.
    destruct (size <=? 50 * Inventory.MB); simpl; by rewrite <- IH.
  - by intros [= <-].
Qed.

Lemma create_file_manifest_test_mode_witness :
  Inventory.create_file_manifest "/data"
    (Some (Inventory.Directory
             [("small"%string, Inventory.RegularFile 7);
              ("large"%string, Inventory.RegularFile (51 * Inventory.MB))])) true
  = Ok [File "/data/small" 7].
Proof.
  rewrite (create_file_manifest_test_mode "/data"
             (Some (Inventory.Directory
                      [("small"%string, Inventory.RegularFile 7);
                       ("large"%string, Inventory.RegularFile (51 * Inventory.MB))]))
             [File "/data/small" 7; File "/data/large" (51 * Inventory.MB)]);
    [reflexivity | vm_compute; reflexivity].
Defined.

(** ** One round of the protocol *)

Section CycleFacts.

Import Reconcile.

Variable st_size : Path → option Z.

Lemma numbered_app (n : nat) (l1 l2 : list ManifestEntry) :
  Log.numbered n (l1 ++ l2)
  = Log.numbered n l1 ++ Log.numbered (n + length l1) l2.
Proof.
  revert n. induction l1 as [|e l1 IH]; intros n; simpl.
  - by rewrite Nat.add_0_r.
  - rewrite IH. do 3 f_equal. lia.
Qed.

Lemma request_cases (e : ManifestEntry) :
  Log.is_transfer e || Log.is_verify e = true →
  (∃ fname size, e = TransferRequest fname size)
  ∨ (∃ fname size, e = VerifyRequest fname size).
Proof. destruct e; try discriminate; eauto. Qed.

Lemma names_injective (order : list ManifestEntry) (e e' : ManifestEntry) :
  NoDup (Log.entry_name <$> order) → e ∈ order → e' ∈ order →
  Log.entry_name e = Log.entry_name e' → e = e'.
Proof.
  induction order as [|e0 order IH]; intros Hnodup He He' Hname;
    [by apply elem_of_nil in He|].
  apply NoDup_cons in Hnodup as [Hnot Hnodup].
  apply elem_of_cons in He as [->|He]; apply elem_of_cons in He' as [->|He'].
  - reflexivity.
  - destruct Hnot. rewrite Hname. by apply list_elem_of_fmap_2.
  - destruct Hnot. rewrite <- Hname. by apply list_elem_of_fmap_2.
  - by apply IH.
Qed.

(** A verification line for an outstanding request, with the file on
    disk at the requested size, leaves the other requests outstanding. *)
Lemma on_verified_outstanding (e : ManifestEntry) (order : list ManifestEntry)
    (a : Replay) (line : nat) :
  Log.is_transfer e || Log.is_verify e = true →
  NoDup (Log.entry_name <$> e :: order) →
  Log.outstanding (e :: order) a →
  st_size (Log.entry_name e) = Some (Log.entry_size e) →
  ∃ a', on_verified st_size (Log.entry_name e) (Log.entry_size e) line a = Ok a'
        ∧ Log.outstanding order a'
        ∧ sync_count a' = sync_count a
        ∧ (mismatched_filesizes a = ∅ → mismatched_filesizes a' = ∅).
Proof.
  intros Hreq Hnodup (Hstart & Hfiles & Htransfer & Hverified & r & Hr & Hftt & Hbtt
                      & Hftv & Hbtv) Hdisk.
  apply NoDup_cons in Hnodup as [Hnot Hnodup].
  assert (e ∈ e :: order) as Hhead by (apply elem_of_cons; auto).
  pose proof (Hverified e Hhead) as Hnone.
  pose proof (Htransfer e Hhead) as Hiff.
  destruct Hstart as [k Hstart].
  unfold on_verified. rewrite Hstart, Hnone.
  rewrite bool_decide_eq_false_2 by discriminate.
  rewrite Hfiles. simpl list_to_map. rewrite lookup_insert_eq.
  rewrite Z.eqb_refl. simpl negb. cbv iota. rewrite Hdisk, Z.eqb_refl. simpl negb. cbv iota.
  assert (delete (Log.entry_name e)
            (<[Log.entry_name e := Log.entry_size e]>
               (list_to_map ((λ e0, (Log.entry_name e0, Log.entry_size e0)) <$> order)
                : gmap Path Z))
          = list_to_map ((λ e0, (Log.entry_name e0, Log.entry_size e0)) <$> order))
    as Hdelete.
  { rewrite delete_insert_eq. apply delete_id, not_elem_of_list_to_map_1.
    by rewrite <- list_fmap_compose. }
  assert (∀ e', e' ∈ order → Log.entry_name e' ≠ Log.entry_name e) as Hother.
  { intros e' He' Heq. apply Hnot. rewrite <- Heq. by apply list_elem_of_fmap_2. }
  unfold decrement. rewrite Hr.
  apply request_cases in Hreq as [(fname & size & ->)|(fname & size & ->)];
    simpl in *.
  - rewrite bool_decide_eq_true_2 by (by apply Hiff).
    rewrite Hftt. simpl. rewrite Hbtt. simpl.
    eexists. split; [reflexivity|]. simpl. split; [|split; [reflexivity|]].
    + split; [eauto|]. simpl. rewrite Hfiles. simpl. split; [exact Hdelete|].
      split; [intros e' He'; apply Htransfer, elem_of_cons; auto|].
      split.
      { intros e' He'. rewrite lookup_insert_ne by (apply not_eq_sym, Hother, He').
        apply Hverified, elem_of_cons. auto. }
      eexists. split; [reflexivity|]. simpl. rewrite Hftv, Hbtv.
      repeat split; f_equal; unfold Log.total_size; simpl; lia.
    + intros ->. apply delete_empty.
  - rewrite bool_decide_eq_false_2
      by (intros Hin; apply Hiff in Hin; discriminate Hin).
    rewrite Hftv. simpl. rewrite Hbtv. simpl.
    eexists. split; [reflexivity|]. simpl. split; [|split; [reflexivity|]].
    + split; [eauto|]. simpl. rewrite Hfiles. simpl. split; [exact Hdelete|].
      split; [intros e' He'; apply Htransfer, elem_of_cons; auto|].
      split.
      { intros e' He'. rewrite lookup_insert_ne by (apply not_eq_sym, Hother, He').
        apply Hverified, elem_of_cons. auto. }
      eexists. split; [reflexivity|]. simpl. rewrite Hftt, Hbtt.
      repeat split; f_equal; unfold Log.total_size; simpl; lia.
    + intros ->. apply delete_empty.
Qed.

(** One verification line per outstanding request, in any order the
    requests are listed in, leaves nothing outstanding. *)
Lemma verified_outstanding (digest : Path → json) (t : float)
    (order : list ManifestEntry) (a : Replay) (n : nat) :
  Forall (λ e, Log.is_transfer e || Log.is_verify e = true) order →
  NoDup (Log.entry_name <$> order) →
  Log.outstanding order a →
  (∀ e, e ∈ order → st_size (Log.entry_name e) = Some (Log.entry_size e)) →
  ∃ a', analyze_loop st_size (Log.numbered n (Log.verified digest t order)) a = Ok a'
        ∧ Log.outstanding [] a'
        ∧ sync_count a' = sync_count a
        ∧ (mismatched_filesizes a = ∅ → mismatched_filesizes a' = ∅).
Proof.
  intros Hreq. revert a n.
  induction Hreq as [|e order He _ IH]; intros a n Hnodup Hout Hdisk.
  - exists a. simpl. auto.
  - destruct (on_verified_outstanding e order a n He Hnodup Hout) as
      (a1 & Hstep & Hout1 & Hcount1 & Hmm1);
      [apply Hdisk, elem_of_cons; auto|].
    apply NoDup_cons in Hnodup as [_ Hnodup].
    destruct (IH a1 (S n) Hnodup Hout1) as (a' & Hloop & Hout' & Hcount' & Hmm');
      [intros e' He'; apply Hdisk, elem_of_cons; auto|].
    exists a'. split; [|split; [exact Hout'|split; [congruence | auto]]].
    apply request_cases in He as [(fname & size & ->)|(fname & size & ->)];
      simpl in *; by rewrite Hstep.
Qed.

(** The requests of an epoch in which nothing is verified yet are all
    recorded. *)
Lemma requests_recorded (order : list ManifestEntry) (a : Replay) (n : nat) :
  Forall (λ e, Log.is_transfer e || Log.is_verify e = true) order →
  NoDup (Log.entry_name <$> order) →
  is_Some (sync_request_start a) →
  verified_files (sync_request a) = ∅ →
  ∃ a', analyze_loop st_size (Log.numbered n order) a = Ok a'
        ∧ sync_request_start a' = sync_request_start a
        ∧ sync_count a' = sync_count a
        ∧ mismatched_filesizes a' = mismatched_filesizes a
        ∧ request (sync_request a') = request (sync_request a)
        ∧ verified_files (sync_request a') = ∅
        ∧ files (sync_request a')
          = list_to_map ((λ e, (Log.entry_name e, Log.entry_size e)) <$> order)
            ∪ files (sync_request a)
        ∧ transfer_files (sync_request a')
          = list_to_set (Log.entry_name <$> List.filter Log.is_transfer order)
            ∪ transfer_files (sync_request a).
Proof.
  intros Hreq. revert a n.
  induction Hreq as [|e order He _ IH]; intros a n Hnodup Hstart Hverified.
  - exists a. simpl. rewrite !(left_id_L ∅ (∪)). auto 10.
  - apply NoDup_cons in Hnodup as [Hnot Hnodup].
    assert ((list_to_map ((λ e0, (Log.entry_name e0, Log.entry_size e0)) <$> order)
             : gmap Path Z) !! Log.entry_name e = None) as Hfresh.
    { apply not_elem_of_list_to_map_1. by rewrite <- list_fmap_compose. }
    destruct Hstart as [k Hstart].
    assert (∃ a1, analyze_step st_size a e n = Ok a1
                  ∧ sync_request_start a1 = sync_request_start a
                  ∧ sync_count a1 = sync_count a
                  ∧ mismatched_filesizes a1 = mismatched_filesizes a
                  ∧ request (sync_request a1) = request (sync_request a)
                  ∧ verified_files (sync_request a1) = ∅
                  ∧ files (sync_request a1)
                    = <[Log.entry_name e := Log.entry_size e]> (files (sync_request a))
                  ∧ transfer_files (sync_request a1)
                    = (if Log.is_transfer e then {[Log.entry_name e]} else ∅)
                      ∪ transfer_files (sync_request a))
      as (a1 & Hstep & Hstart1 & Hcount1 & Hmm1 & Hr1 & Hv1 & Hfiles1 & Htransfer1).
    { destruct (request_cases e He) as [(fname & size & ->)|(fname & size & ->)];
        simpl; unfold on_request; rewrite Hstart, Hverified, lookup_empty;
        rewrite bool_decide_eq_false_2 by discriminate;
        (eexists; split; [reflexivity|]); simpl; repeat split; try done.
      by rewrite (left_id_L ∅ (∪)). }
    destruct (IH a1 (S n) Hnodup) as
      (a' & Hloop & Hstart' & Hcount' & Hmm' & Hr' & Hv' & Hfiles' & Htransfer');
      [rewrite Hstart1; eauto | exact Hv1 |].
    exists a'. split.
    { change (analyze_loop st_size (Log.numbered n (e :: order)) a)
        with (analyze_step st_size a e n
              ≫= analyze_loop st_size (Log.numbered (S n) order)).
      by rewrite Hstep. }
    rewrite Hstart', Hcount', Hmm', Hr', Hfiles', Htransfer',
      Hstart1, Hcount1, Hmm1, Hr1, Hfiles1, Htransfer1.
    repeat split; try done.
    + rewrite fmap_cons, list_to_map_cons.
      rewrite <- insert_union_r by exact Hfresh. apply insert_union_l.
    + destruct (request_cases e He) as [(fname & size & ->)|(fname & size & ->)];
        simpl.
      * rewrite !(assoc_L (∪)). f_equal. apply (comm_L (∪)).
      * by rewrite (left_id_L ∅ (∪)).
Qed.

(** Between epochs the dict [sync_request] is the fresh one. *)
Lemma closed_is_fresh (log : list (result (ManifestEntry * nat))) (a a' : Replay) :
  (sync_request_start a = None → sync_request a = fresh_sync_request) →
  analyze_loop st_size log a = Ok a' →
  sync_request_start a' = None → sync_request a' = fresh_sync_request.
Proof.
  revert a. induction log as [|[[e n]|x] log IH]; intros a Ha; simpl.
  - by intros [= <-].
  - destruct (analyze_step st_size a e n) as [a1|] eqn:Hstep; [|discriminate].
    simpl. apply IH. clear IH.
    destruct e as [f s|f s|f s d t|r|t|f s|f s d]; simpl in Hstep.
    + unfold on_request in Hstep.
      destruct (sync_request_start a) eqn:Hstart; [|discriminate].
      destruct (bool_decide _); injection Hstep as <-; simpl; congruence.
    + unfold on_request in Hstep.
      destruct (sync_request_start a) eqn:Hstart; [|discriminate].
      destruct (bool_decide _); injection Hstep as <-; simpl; congruence.
    + unfold on_verified in Hstep.
      destruct (sync_request_start a) eqn:Hstart; [|discriminate].
      destruct (bool_decide _); [injection Hstep as <-; congruence|].
      destruct (files _ !! f); [|discriminate].
      destruct (negb _); [discriminate|].
      destruct (st_size f); [|discriminate].
      apply bind_Ok in Hstep as (s1 & _ & Hstep). injection Hstep as <-.
      simpl. congruence.
    + injection Hstep as <-. discriminate.
    + unfold on_done in Hstep.
      destruct (sync_request_start a); [|discriminate].
      apply bind_Ok in Hstep as ([] & _ & Hstep); [discriminate|].
      by injection Hstep as <-.
    + injection Hstep as <-. exact Ha.
    + injection Hstep as <-. exact Ha.
  - discriminate.
Qed.

Lemma filter_Permutation_bool (p : ManifestEntry → bool) (l l' : list ManifestEntry) :
  l ≡ₚ l' → List.filter p l ≡ₚ List.filter p l'.
Proof.
  induction 1 as [|x l l' _ IH|x y l|l l' l'' _ IH _ IH']; simpl.
  - done.
  - destruct (p x); by rewrite IH.
  - destruct (p x), (p y); try done. apply perm_swap.
  - by rewrite IH.
Qed.

Lemma total_size_Permutation (l l' : list ManifestEntry) :
  l ≡ₚ l' → Log.total_size l = Log.total_size l'.
Proof.
  unfold Log.total_size.
  induction 1 as [|x l l' _ IH|x y l|l l' l'' _ IH _ IH']; simpl; lia.
Qed.

(** The outstanding requests are a set: their order does not matter. *)
Lemma outstanding_Permutation (order order' : list ManifestEntry) (a : Replay) :
  order ≡ₚ order' → NoDup (Log.entry_name <$> order) →
  Log.outstanding order a → Log.outstanding order' a.
Proof.
  intros Hperm Hnodup (Hstart & Hfiles & Htransfer & Hverified & r & Hr & Hftt & Hbtt
                       & Hftv & Hbtv).
  split; [exact Hstart|]. split.
  { rewrite Hfiles. apply list_to_map_proper.
    - by rewrite <- list_fmap_compose.
    - by apply fmap_Permutation. }
  split; [intros e He; apply Htransfer; by rewrite Hperm|].
  split; [intros e He; apply Hverified; by rewrite Hperm|].
  exists r. split; [exact Hr|].
  rewrite Hftt, Hbtt, Hftv, Hbtv.
  pose proof (filter_Permutation_bool Log.is_transfer _ _ Hperm) as Ht.
  pose proof (filter_Permutation_bool Log.is_verify _ _ Hperm) as Hv.
  rewrite (Permutation_length Ht), (Permutation_length Hv),
    (total_size_Permutation _ _ Ht), (total_size_Permutation _ _ Hv).
  done.
Qed.

Lemma filter_all (p : ManifestEntry → bool) (l : list ManifestEntry) :
  Forall (λ e, p e = true) l → List.filter p l = l.
Proof. induction 1 as [|e l He _ IH]; simpl; [done|]. by rewrite He, IH. Qed.

Lemma filter_none (p : ManifestEntry → bool) (l : list ManifestEntry) :
  Forall (λ e, p e = false) l → List.filter p l = [].
Proof. induction 1 as [|e l He _ IH]; simpl; [done|]. by rewrite He, IH. Qed.

(** With nothing outstanding and no size mismatch, [analyze] closes the
    epoch. *)
Lemma conclude_nothing_outstanding (now : float) (a : Replay) :
  Log.outstanding [] a → mismatched_filesizes a = ∅ →
  conclude now a
  = {| raised := None; appended := [SyncDone now];
       messages := [SynchronizationDone] |}.
Proof.
  intros ([k Hstart] & Hfiles & _ & _ & r & Hr & Hftt & Hbtt & Hftv & Hbtv) Hmm.
  unfold conclude, work_remaining, counter.
  rewrite Hmm, Hstart, Hr, Hfiles. simpl. rewrite Hftt, Hbtt, Hftv, Hbtv.
  reflexivity.
Qed.

End CycleFacts.

Section DiffCycle.

Import Diff.

Lemma requests_names (mk : Path → Z → ManifestEntry) (src_files : gmap Path Z)
    (names : list Path) (es : list ManifestEntry) :
  (∀ fname size, Log.entry_name (mk fname size) = fname) →
  requests mk src_files names = Ok es →
  Log.entry_name <$> es = names.
Proof.
  intros Hmk. revert es. induction names as [|fname names IH]; intros es; simpl.
  - by intros [= <-].
  - destruct (src_files !! fname) as [size|]; [|discriminate].
    intros Hes. apply bind_Ok in Hes as (es' & Hes' & Hes). injection Hes as <-.
    rewrite fmap_cons, Hmk, (IH es' Hes'). reflexivity.
Qed.

Lemma NoDup_sorted (names : gset Path) : NoDup (pathlib.sorted names).
Proof.
  unfold pathlib.sorted. rewrite merge_sort_Permutation. apply NoDup_elements.
Qed.

Lemma diff_to_verify_not_to_transfer (direction : TransferDirection)
    (remote_files local_files : gmap Path Z)
    (log : list (result (ManifestEntry * nat))) (to_transfer to_verify : gset Path)
    (fname : Path) :
  diff direction remote_files local_files log = Ok (to_transfer, to_verify) →
  fname ∈ to_verify → fname ∉ to_transfer.
Proof.
  unfold diff. intros H.
  destruct (src_dest direction remote_files local_files) as [src_files dest_files].
  apply bind_Ok in H as (verified & _ & H). injection H as <- <-.
  intros Hin. by apply elem_of_files_to_verify in Hin as (_ & ? & _).
Qed.

End DiffCycle.

(** X19: one round of the protocol closes.  On a manifest that is empty
    or fully reconciled, the lines that [write_inner_dag] appends,
    followed by one [TransferVerified] line for each of its requests, in
    whatever order the transfers finish, with each file on disk at the
    requested size, make [analyze] append [SyncDone]. *)
Theorem synchronization_completes
    (st_size : Path → option Z) (dir : TransferDirection)
    (prefix local_prefix : Path) (remote_files scanned : gmap Path Z)
    (log : list (result (ManifestEntry * nat))) (w : Diff.Written)
    (order : list ManifestEntry) (digest : Path → json)
    (before now verified_at later : float) (line : nat) :
  log = []
  ∨ Reconcile.analyze st_size before log
    = {| Reconcile.raised := None; Reconcile.appended := [];
         Reconcile.messages := [Reconcile.AllSynchronizationsDone] |} →
  Diff.write_inner_dag dir prefix local_prefix remote_files scanned log now = Ok w →
  order ≡ₚ tail (Diff.appended w) →
  (∀ e, e ∈ order → st_size (Log.entry_name e) = Some (Log.entry_size e)) →
  Reconcile.analyze st_size later
    (log ++ Log.numbered line
              (Diff.appended w ++ Log.verified digest verified_at order))
  = {| Reconcile.raised := None; Reconcile.appended := [SyncDone later];
       Reconcile.messages := [Reconcile.SynchronizationDone] |}.
Proof.
  intros Hlog Hw Hperm Hdisk.
  (* the replay of the manifest so far ends between two epochs *)
  assert (∃ a, Reconcile.analyze_loop st_size log Reconcile.initial = Ok a
               ∧ Reconcile.sync_request_start a = None
               ∧ Reconcile.sync_request a = Reconcile.fresh_sync_request
               ∧ Reconcile.mismatched_filesizes a = ∅)
    as (a & Hloop & Hstart & Hfresh & Hmm).
  { destruct Hlog as [->|Hdone]; [exists Reconcile.initial; auto|].
    unfold Reconcile.analyze in Hdone.
    destruct (Reconcile.analyze_loop st_size log Reconcile.initial) as [a|x] eqn:Hloop;
      [|discriminate Hdone].
    exists a. split; [reflexivity|].
    unfold Reconcile.conclude in Hdone.
    destruct (bool_decide (Reconcile.mismatched_filesizes a = ∅)) eqn:Hmm;
      [|discriminate Hdone].
    apply bool_decide_eq_true in Hmm. simpl in Hdone.
    destruct (Reconcile.sync_request_start a) as [k|] eqn:Hstart.
    - destruct (Reconcile.work_remaining _) as [[]|];
        [destruct (Reconcile.request _)|..]; discriminate Hdone.
    - split; [reflexivity|]. split; [|exact Hmm].
      by apply (closed_is_fresh st_size log Reconcile.initial a). }
  (* what was appended *)
  apply write_inner_dag_inv in Hw
    as (tt & tv & ts & vs & btt & btv & Hdiff & Hts & Hvs & Hbtt & Hbtv & Happ).
  simpl in Hdiff, Hts, Hvs, Hbtt, Hbtv.
  destruct (requests_sizes TransferRequest _ _ _ _ (λ _ _, eq_refl) Hts Hbtt)
    as (Hlen_t & Hsum_t & Hall_t).
  destruct (requests_sizes VerifyRequest _ _ _ _ (λ _ _, eq_refl) Hvs Hbtv)
    as (Hlen_v & Hsum_v & Hall_v).
  pose proof (requests_names TransferRequest _ _ _ (λ _ _, eq_refl) Hts) as Hnames_t.
  pose proof (requests_names VerifyRequest _ _ _ (λ _ _, eq_refl) Hvs) as Hnames_v.
  rewrite Happ in Hperm |- *. simpl tail in Hperm.
  assert (Forall (λ e, Log.is_transfer e = true ∧ Log.is_verify e = false) ts) as Hts'.
  { eapply Forall_impl; [exact Hall_t|]. by intros e (f & s & _ & _ & ->). }
  assert (Forall (λ e, Log.is_transfer e = false ∧ Log.is_verify e = true) vs) as Hvs'.
  { eapply Forall_impl; [exact Hall_v|]. by intros e (f & s & _ & _ & ->). }
  assert (List.filter Log.is_transfer (ts ++ vs) = ts) as Hfilter_t.
  { rewrite List.filter_app.
    rewrite (filter_all Log.is_transfer ts)
      by (eapply Forall_impl; [exact Hts'|]; by intros e [? ?]).
    rewrite (filter_none Log.is_transfer vs)
      by (eapply Forall_impl; [exact Hvs'|]; by intros e [? ?]).
    apply app_nil_r. }
  assert (List.filter Log.is_verify (ts ++ vs) = vs) as Hfilter_v.
  { rewrite List.filter_app.
    rewrite (filter_none Log.is_verify ts)
      by (eapply Forall_impl; [exact Hts'|]; by intros e [? ?]).
    rewrite (filter_all Log.is_verify vs)
      by (eapply Forall_impl; [exact Hvs'|]; by intros e [? ?]).
    reflexivity. }
  assert (Forall (λ e, Log.is_transfer e || Log.is_verify e = true) (ts ++ vs))
    as Hrequests.
  { apply Forall_app. split; (eapply Forall_impl; [eassumption|]);
      intros e [-> ->]; reflexivity. }
  assert (NoDup (Log.entry_name <$> ts ++ vs)) as Hnodup.
  { rewrite fmap_app, Hnames_t, Hnames_v. apply NoDup_app.
    split; [apply NoDup_sorted|]. split; [|apply NoDup_sorted].
    intros fname Ht Hv. apply elem_of_sorted in Ht, Hv.
    by apply (diff_to_verify_not_to_transfer _ _ _ _ _ _ fname Hdiff). }
  (* the replay of the appended lines *)
  unfold Reconcile.analyze.
  rewrite analyze_loop_app, Hloop. simpl mbind.
  change (Reconcile.analyze_loop st_size
            (Log.numbered line ((SyncRequest ?r :: ts ++ vs) ++ ?v)) a)
    with (Reconcile.analyze_loop st_size
            (Log.numbered (S line) ((ts ++ vs) ++ v))
            {| Reconcile.sync_request_start := Some line;
               Reconcile.sync_request :=
                 Reconcile.set_request r (Reconcile.sync_request a);
               Reconcile.sync_count := S (Reconcile.sync_count a);
               Reconcile.mismatched_filesizes := Reconcile.mismatched_filesizes a |}).
  rewrite numbered_app, analyze_loop_app.
  match goal with
  | |- context [Reconcile.analyze_loop _ (Log.numbered _ (ts ++ vs)) ?a0] =>
    destruct (requests_recorded st_size (ts ++ vs) a0 (S line) Hrequests Hnodup)
      as (a1 & Hloop1 & Hstart1 & Hcount1 & Hmm1 & Hr1 & Hv1 & Hfiles1 & Htransfer1);
      [simpl; eauto | simpl; by rewrite Hfresh |]
  end.
  rewrite Hloop1. simpl mbind. simpl in Hstart1, Hmm1, Hr1, Hfiles1, Htransfer1.
  rewrite Hfresh in Hfiles1, Htransfer1. simpl in Hfiles1, Htransfer1.
  rewrite (right_id_L ∅ (∪)) in Hfiles1. rewrite (right_id_L ∅ (∪)) in Htransfer1.
  assert (Log.outstanding (ts ++ vs) a1) as Hout.
  { split; [rewrite Hstart1; eauto|]. split; [exact Hfiles1|].
    split.
    { intros e He. rewrite Htransfer1, elem_of_list_to_set, Hfilter_t. split.
      - intros (e' & Hname & He')%list_elem_of_fmap.
        assert (e = e') as ->.
        { apply (names_injective (ts ++ vs)); [done..| |done].
          apply elem_of_app. by left. }
        rewrite Forall_forall in Hts'. by apply Hts'.
      - intros Htransfer. apply list_elem_of_fmap_2.
        apply elem_of_app in He as [He|He]; [done|].
        rewrite Forall_forall in Hvs'. destruct (Hvs' _ He). congruence. }
    split; [intros e _; by rewrite Hv1, lookup_empty|].
    eexists. split; [exact Hr1|]. simpl.
    rewrite Hfilter_t, Hfilter_v, Hlen_t, Hlen_v, Hsum_t, Hsum_v. done. }
  assert (Log.outstanding order a1) as Hout'.
  { by apply (outstanding_Permutation (ts ++ vs)). }
  match goal with
  | |- context [Reconcile.analyze_loop _ (Log.numbered ?n (Log.verified _ _ _)) a1] =>
    destruct (verified_outstanding st_size digest verified_at order a1 n)
      as (a2 & Hloop2 & Hout2 & _ & Hmm2)
  end.
  - by rewrite Hperm.
  - by rewrite Hperm.
  - exact Hout'.
  - exact Hdisk.
  - rewrite Hloop2. apply conclude_nothing_outstanding; [exact Hout2|].
    apply Hmm2. by rewrite Hmm1.
Qed.

Lemma synchronization_completes_witness :
  ∃ w,
    Diff.write_inner_dag PULL "/remote" "/local" Scenario.remote_files
      Scenario.local_files [] 1%float = Ok w
    ∧ Reconcile.analyze (λ fname, Scenario.remote_files !! fname) 3%float
        (Log.numbered 1
           (Diff.appended w
            ++ Log.verified (λ _, JStr "da39") 2%float
                 [VerifyRequest "a" 100; TransferRequest "b" 200]))
      = {| Reconcile.raised := None; Reconcile.appended := [SyncDone 3%float];
           Reconcile.messages := [Reconcile.SynchronizationDone] |}.
Proof.
  destruct (Diff.write_inner_dag PULL "/remote" "/local" Scenario.remote_files
              Scenario.local_files [] 1%float) as [w|x] eqn:Hw;
    [|vm_compute in Hw; discriminate Hw].
  exists w. split; [reflexivity|].
  apply (synchronization_completes (λ fname, Scenario.remote_files !! fname)
           PULL "/remote" "/local" Scenario.remote_files Scenario.local_files
           [] w [VerifyRequest "a" 100; TransferRequest "b" 200]
           (λ _, JStr "da39") 0%float 1%float 2%float 3%float 1%nat).
  - by left.
  - exact Hw.
  - assert (tail (Diff.appended w) = [TransferRequest "b" 200; VerifyRequest "a" 100])
      as ->.
    { vm_compute in Hw. injection Hw as <-. reflexivity. }
    apply perm_swap.
  - intros e He. repeat (apply elem_of_cons in He as [->|He]);
      [vm_compute; reflexivity ..|by apply elem_of_nil in He].
Defined.

(** ** Metadata and verification *)

(** X20: when [verify_metadata] appends, the line it appends records
    the size and the digest of the local file, under the local relative
    name, and is on stable storage when the function returns.  The name
    in the metadata file plays no part: it is never compared. *)
Theorem verify_metadata_records_local_file (entry : ManifestEntry) (fname : Path)
    (local_size : option Z) (local_digest : string) (now : float)
    (calls : list SyncLog.io) (f : SyncLog.file) :
  SyncLog.verify_metadata entry fname local_size local_digest now = Ok calls →
  ∃ remote_name size,
    entry = Metadata remote_name size (JStr local_digest)
    ∧ local_size = Some size
    ∧ SyncLog.durable (SyncLog.run calls f)
    ∧ SyncLog.stable (SyncLog.run calls f)
      = SyncLog.stable f ++ SyncLog.cached f ++ SyncLog.buffered f
        ++ [TransferVerified fname size (JStr local_digest) now]
    ∧ ∀ other_name,
        SyncLog.verify_metadata (Metadata other_name size (JStr local_digest)) fname
          local_size local_digest now = Ok calls.
Proof.
  unfold SyncLog.verify_metadata. intros H.
  destruct entry as [| | | | | |remote_name remote_size remote_digest]; try discriminate.
  destruct local_size as [local_size|]; [|discriminate].
  destruct (Z.eqb_spec remote_size local_size) as [->|]; [|discriminate].
  destruct remote_digest as [| | | |d| |]; try discriminate.
  destruct (String.eqb_spec d local_digest) as [->|]; [|discriminate].
  simpl in H. injection H as <-.
  exists remote_name, local_size. rewrite Z.eqb_refl, String.eqb_refl. simpl.
  repeat split; reflexivity.
Qed.

Lemma verify_metadata_records_local_file_witness :
  SyncLog.stable
    (SyncLog.run [SyncLog.write_entry_to (TransferVerified "b" 200 (JStr "77de") 5%float);
                  SyncLog.flush; SyncLog.fsync; SyncLog.close]
       Scenario.manifest_file)
  = SyncLog.stable Scenario.manifest_file
    ++ [TransferVerified "b" 200 (JStr "77de") 5%float].
Proof.
  destruct (verify_metadata_records_local_file
              (Metadata "/remote/b" 200 (JStr "77de")) "b" (Some 200) "77de" 5%float
              [SyncLog.write_entry_to (TransferVerified "b" 200 (JStr "77de") 5%float);
               SyncLog.flush; SyncLog.fsync; SyncLog.close]
              Scenario.manifest_file eq_refl)
    as (remote_name & size & Hentry & Hsize & _ & Hstable & _).
  injection Hsize as <-. exact Hstable.
Defined.





(** ** Names, from the inventory to the verification *)

Section NameFacts.

Import Inventory.

Lemma strip_parts_components (prefix parts rest : list string) :
  Forall pathlib.component parts →
  strip_parts prefix parts = Some rest → Forall pathlib.component rest.
Proof.
  revert parts. induction prefix as [|x prefix IH]; intros parts Hparts; simpl.
  - by intros [= <-].
  - destruct parts as [|y parts]; [discriminate|].
    destruct (String.eqb x y); [|discriminate].
    apply IH. by inversion Hparts.
Qed.

(** What [relative_to] returns is a relative path in normal form. *)
Lemma relative_to_relative (fname prefix rel : Path) :
  relative_to fname prefix = Ok rel →
  ∃ parts, Forall pathlib.component parts
           ∧ rel = pathlib.format_parts (""%string, parts)
           ∧ pathlib.parse_parts rel = (""%string, parts).
Proof.
  unfold relative_to. pose proof (parse_parts_components fname) as Hparts.
  destruct (pathlib.parse_parts fname) as [root parts].
  destruct (pathlib.parse_parts prefix) as [prefix_root prefix_parts].
  destruct (String.eqb root prefix_root); [|discriminate].
  destruct (strip_parts prefix_parts parts) as [rest|] eqn:Hstrip; [|discriminate].
  intros [= <-]. exists rest.
  pose proof (strip_parts_components _ _ _ Hparts Hstrip) as Hrest.
  split; [exact Hrest|]. split; [reflexivity|].
  apply (parse_format_parts "" rest); auto.
Qed.

(** [(prefix / rel).relative_to(prefix)] is [rel], for a relative path
    in normal form. *)
Lemma relative_to_joinpath (prefix rel : Path) (parts : list string) :
  Forall pathlib.component parts →
  rel = pathlib.format_parts (""%string, parts) →
  pathlib.parse_parts rel = (""%string, parts) →
  relative_to (pathlib.joinpath prefix rel) prefix = Ok rel.
Proof.
  intros Hparts Hrel Hparse. unfold relative_to, pathlib.joinpath.
  rewrite Hparse.
  pose proof (parse_parts_root prefix) as Hroot.
  pose proof (parse_parts_components prefix) as Hprefix.
  destruct (pathlib.parse_parts prefix) as [prefix_root prefix_parts] eqn:Hpp.
  simpl in Hroot, Hprefix.
  rewrite parse_format_parts by (auto; by apply Forall_app).
  by rewrite String.eqb_refl, strip_parts_app, Hrel.
Qed.

Lemma parse_file_manifest_loop_keys (prefix : Path)
    (items : list (result (ManifestEntry * nat))) (files0 files : gmap Path Z)
    (rel : Path) :
  parse_file_manifest_loop prefix items files0 = Ok files →
  is_Some (files !! rel) →
  is_Some (files0 !! rel) ∨ ∃ fname, relative_to fname prefix = Ok rel.
Proof.
  revert files0. induction items as [|[[e n]|x] items IH]; intros files0; simpl.
  - intros [= <-]. auto.
  - destruct e as [| | | | |fname size|]; simpl; try discriminate.
    destruct (String.eqb fname prefix); [apply IH|].
    destruct (relative_to fname prefix) as [relative|] eqn:Hrel; [|discriminate].
    simpl. intros Hloop Hsome. destruct (IH _ Hloop Hsome) as [Hins|]; [|auto].
    apply lookup_insert_is_Some in Hins as [<-|[_ ?]]; eauto.
  - discriminate.
Qed.

End NameFacts.

(** X23: the name that a verification records is the name that was
    requested.  For every file of a parsed inventory, the work item that
    [make_cmd_info] builds has a local file whose path relative to the
    local prefix, which is what [verify_metadata] writes into the
    [TransferVerified] line, is the inventory's name for the file. *)
Theorem verified_name_is_requested_name (prefix : Path)
    (items : list (result (ManifestEntry * nat))) (inventory : gmap Path Z)
    (files : list Path) (remote_prefix local_prefix manifest_path : Path) :
  Inventory.parse_file_manifest prefix items = Ok inventory →
  Forall (λ fname, fname ∈ dom inventory) files →
  Forall2 (λ fname info,
             Inventory.relative_to (Diff.local_file info) (Diff.local_prefix info)
             = Ok fname)
    files (Diff.make_cmd_info files remote_prefix local_prefix manifest_path).
Proof.
  intros Hparse Hfiles. unfold Diff.make_cmd_info.
  induction Hfiles as [|fname files Hfname _ IH]; simpl; constructor; [|exact IH].
  simpl. apply elem_of_dom in Hfname.
  destruct (parse_file_manifest_loop_keys _ _ _ _ fname Hparse Hfname)
    as [Hempty|[full Hrel]].
  - rewrite lookup_empty in Hempty. by destruct Hempty.
  - destruct (relative_to_relative _ _ _ Hrel) as (parts & Hparts & Hfmt & Hpp).
    by apply (relative_to_joinpath _ _ parts).
Qed.

Lemma verified_name_is_requested_name_witness :
  Forall2 (λ fname info,
             Inventory.relative_to (Diff.local_file info) (Diff.local_prefix info)
             = Ok fname)
    ["run/a.bin"%string]
    (Diff.make_cmd_info ["run/a.bin"%string] "/remote" "/local"
       "/local/transfer_manifest.txt").
Proof.
  apply (verified_name_is_requested_name "/data"
           [Ok (File "/data/run/a.bin" 7, 1%nat)] {["run/a.bin"%string := 7]}).
  - vm_compute. reflexivity.
  - constructor; [|constructor]. apply elem_of_dom. exists 7. apply lookup_singleton_eq.
Defined.

(** ** What is written, and for which file *)

(** X24: [analyze] writes to the manifest only to close an epoch.  What
    it appends is nothing, or the single line [SyncDone] with the
    current time; and it appends nothing when it raises. *)
Theorem analyze_appends_only_sync_done (st_size : Path → option Z) (now : float)
    (log : list (result (ManifestEntry * nat))) :
  let outcome := Reconcile.analyze st_size now log in
  Reconcile.appended outcome = []
  ∨ (Reconcile.appended outcome = [SyncDone now]
     ∧ Reconcile.raised outcome = None
     ∧ ∃ a line,
         Reconcile.analyze_loop st_size log Reconcile.initial = Ok a
         ∧ Reconcile.sync_request_start a = Some line
         ∧ Reconcile.work_remaining (Reconcile.sync_request a) = Ok false
         ∧ Reconcile.mismatched_filesizes a = ∅).
Proof.
  unfold Reconcile.analyze.
  destruct (Reconcile.analyze_loop st_size log Reconcile.initial) as [a|x];
    [|by left].
  unfold Reconcile.conclude.
  destruct (bool_decide (Reconcile.mismatched_filesizes a = ∅)) eqn:Hmm; [|by left].
  apply bool_decide_eq_true in Hmm. simpl.
  destruct (Reconcile.sync_request_start a) as [line|] eqn:Hstart.
  - destruct (Reconcile.work_remaining (Reconcile.sync_request a)) as [[]|x] eqn:Hw.
    + destruct (Reconcile.request _); by left.
    + right. simpl. eauto 10.
    + by left.
  - destruct (0 <? Reconcile.sync_count a)%nat; by left.
Qed.

Section WorkItems.

Import Diff.

Lemma write_inner_dag_work_items (direction : TransferDirection)
    (remote_prefix local_prefix : Path) (remote_files scanned : gmap Path Z)
    (log : list (result (ManifestEntry * nat))) (now : float) (w : Written) :
  write_inner_dag direction remote_prefix local_prefix remote_files scanned log now
  = Ok w →
  ∃ to_transfer to_verify transfers verifies first,
    let src_files :=
      (src_dest direction remote_files
         (delete TRANSFER_MANIFEST_FILE_NAME scanned)).1 in
    let transfer_manifest_path :=
      pathlib.joinpath local_prefix TRANSFER_MANIFEST_FILE_NAME in
    transfer_cmd_info w
    = make_cmd_info to_transfer remote_prefix local_prefix transfer_manifest_path
    ∧ verify_cmd_info w
      = make_cmd_info to_verify remote_prefix local_prefix transfer_manifest_path
    ∧ requests TransferRequest src_files to_transfer = Ok transfers
    ∧ requests VerifyRequest src_files to_verify = Ok verifies
    ∧ appended w = first :: transfers ++ verifies.
Proof.
  unfold write_inner_dag. intros H.
  destruct (src_dest direction remote_files (delete TRANSFER_MANIFEST_FILE_NAME scanned))
    as [src_files dest_files] eqn:Hsd.
  apply bind_Ok in H as ([to_transfer to_verify] & Hdiff & H).
  apply bind_Ok in H as (btt & Hbtt & H).
  apply bind_Ok in H as (btv & Hbtv & H).
  apply bind_Ok in H as (ts & Hts & H).
  apply bind_Ok in H as (vs & Hvs & H).
  injection H as <-. simpl in *.
  eexists _, _, ts, vs, _. auto 10.
Qed.

Lemma make_cmd_info_requests (mk : Path → Z → ManifestEntry)
    (src_files : gmap Path Z) (names : list Path) (es : list ManifestEntry)
    (remote_prefix local_prefix transfer_manifest_path : Path) :
  (∀ fname size, Log.entry_name (mk fname size) = fname) →
  requests mk src_files names = Ok es →
  Forall2 (λ info e,
             (∃ size, e = mk (Log.entry_name e) size)
             ∧ local_file info = pathlib.joinpath local_prefix (Log.entry_name e)
             ∧ remote_file info = pathlib.joinpath remote_prefix (Log.entry_name e)
             ∧ flattened_name info = flatten_path (Log.entry_name e))
    (make_cmd_info names remote_prefix local_prefix transfer_manifest_path) es.
Proof.
  intros Hmk. revert es. induction names as [|fname names IH]; intros es; simpl.
  - intros [= <-]. constructor.
  - destruct (src_files !! fname) as [size|]; [|discriminate].
    intros Hes. apply bind_Ok in Hes as (es' & Hes' & Hes). injection Hes as <-.
    constructor; [|by apply IH]. simpl. rewrite Hmk. eauto.
Qed.

End WorkItems.

(** X25: the work items of the inner DAG and the request lines of the
    manifest go together, in order: the i-th transfer job is for the
    file of the i-th [TransferRequest], the i-th verification job for
    the file of the i-th [VerifyRequest], with the local and the remote
    path built from that name. *)
Theorem work_items_match_requests
    (dir : TransferDirection) (prefix local_prefix : Path)
    (remote_files scanned : gmap Path Z)
    (log : list (result (ManifestEntry * nat))) (now : float) (w : Diff.Written) :
  Diff.write_inner_dag dir prefix local_prefix remote_files scanned log now = Ok w →
  ∃ first transfers verifies,
    Diff.appended w = first :: transfers ++ verifies
    ∧ Forall2 (λ info e,
                 (∃ size, e = TransferRequest (Log.entry_name e) size)
                 ∧ Diff.local_file info
                   = pathlib.joinpath local_prefix (Log.entry_name e)
                 ∧ Diff.remote_file info = pathlib.joinpath prefix (Log.entry_name e)
                 ∧ Diff.flattened_name info = Diff.flatten_path (Log.entry_name e))
        (Diff.transfer_cmd_info w) transfers
    ∧ Forall2 (λ info e,
                 (∃ size, e = VerifyRequest (Log.entry_name e) size)
                 ∧ Diff.local_file info
                   = pathlib.joinpath local_prefix (Log.entry_name e)
                 ∧ Diff.remote_file info = pathlib.joinpath prefix (Log.entry_name e)
                 ∧ Diff.flattened_name info = Diff.flatten_path (Log.entry_name e))
        (Diff.verify_cmd_info w) verifies.
Proof.
  intros H. apply write_inner_dag_work_items in H
    as (tt & tv & ts & vs & first & Ht & Hv & Hts & Hvs & Happ).
  exists first, ts, vs. split; [exact Happ|]. rewrite Ht, Hv. split.
  - exact (make_cmd_info_requests TransferRequest _ _ _ _ _ _ (λ _ _, eq_refl) Hts).
  - exact (make_cmd_info_requests VerifyRequest _ _ _ _ _ _ (λ _ _, eq_refl) Hvs).
Qed.

Lemma work_items_match_requests_witness :
  ∃ w first transfers verifies,
    Diff.write_inner_dag PULL "/remote" "/local" Scenario.remote_files
      Scenario.local_files [] 1%float = Ok w
    ∧ Diff.appended w = first :: transfers ++ verifies
    ∧ length (Diff.transfer_cmd_info w) = length transfers
    ∧ length (Diff.verify_cmd_info w) = length verifies.
Proof.
  assert (∃ w, Diff.write_inner_dag PULL "/remote" "/local" Scenario.remote_files
                 Scenario.local_files [] 1%float = Ok w) as [w Hw].
  { destruct (Diff.write_inner_dag _ _ _ _ _ _ _) as [w|x] eqn:Hw;
      [eauto | vm_compute in Hw; discriminate Hw]. }
  destruct (work_items_match_requests _ _ _ _ _ _ _ _ Hw)
    as (first & ts & vs & Happ & Htransfers & Hverifies).
  exists w, first, ts, vs. split; [exact Hw|]. split; [exact Happ|].
  split; eapply Forall2_length; eassumption.
Defined.
